(** * Adamus indexing scripts: shallow embedding and verified properties

    Source files embedded here:
    - [scripts/adamus-index-images.py]  (the image / OCR variant)
    - [scripts/adamus-index-pdf.py]     (the PDF variant)

    Python [str] values are sequences of Unicode code points; they are
    modelled as [list N].  Python [int] values are unbounded and are
    modelled as [Z].  Python [float] values are IEEE 754 binary64 numbers
    and are modelled as [float], with the arithmetic of the processor. *)

From Stdlib Require Import ZArith NArith DecimalN List String Ascii Lia.
From Stdlib Require Import PrimFloat SpecFloat FloatOps.
From stdpp Require Import base option list gmap.

Set Warnings "-inexact-float,-register-all".

Local Open Scope Z_scope.

(** ** Python strings *)

Abbreviation pystr := (list N).

Module PyStr.

(** A string literal of the source, as code points. *)
Definition lit (s : string) : pystr :=
  map N_of_ascii (list_ascii_of_string s).

(** [len(s)] *)
Definition len (s : pystr) : Z := Z.of_nat (length s).

(** Truthiness of a string: [if s:] holds iff [s] is not empty. *)
Definition truthy (s : pystr) : bool :=
  match s with [] => false | _ :: _ => true end.

Definition in_range (lo hi c : N) : bool := ((lo <=? c) && (c <=? hi))%N.

(** [str.isspace] on one code point (CPython's [_PyUnicode_IsWhitespace]). *)
Definition is_space (c : N) : bool :=
  in_range 9 13 c || in_range 28 31 c || (c =? 32)%N || (c =? 133)%N
  || (c =? 160)%N || (c =? 5760)%N || in_range 8192 8202 c
  || (c =? 8232)%N || (c =? 8233)%N || (c =? 8239)%N || (c =? 8287)%N
  || (c =? 12288)%N.

(** Line boundaries of [str.splitlines] (CPython's [_PyUnicode_IsLinebreak]). *)
Definition is_linebreak (c : N) : bool :=
  in_range 10 13 c || in_range 28 30 c || (c =? 133)%N
  || (c =? 8232)%N || (c =? 8233)%N.

Fixpoint dropwhile (f : N -> bool) (s : pystr) : pystr :=
  match s with
  | [] => []
  | c :: r => if f c then dropwhile f r else s
  end.

Definition lstrip (s : pystr) : pystr := dropwhile is_space s.
Definition rstrip (s : pystr) : pystr := rev (dropwhile is_space (rev s)).

(** [s.strip()] *)
Definition strip (s : pystr) : pystr := rstrip (lstrip s).

(** Normalisation of one slice bound, as CPython's [PySlice_AdjustIndices]
    does for step 1: a negative bound counts from the end, and the result
    is clamped to [0 .. len]. *)
Definition slice_bound (n i : Z) : Z :=
  if i <? 0 then Z.max (i + n) 0 else Z.min i n.

(** [s[a:b]] *)
Definition slice (s : pystr) (a b : Z) : pystr :=
  let a' := slice_bound (len s) a in
  let b' := slice_bound (len s) b in
  take (Z.to_nat (b' - a')) (drop (Z.to_nat a') s).

(** [old] is a prefix of [s] ([s.startswith(old)]). *)
Fixpoint starts_with (old s : pystr) : bool :=
  match old, s with
  | [], _ => true
  | _ :: _, [] => false
  | a :: old', b :: s' => (a =? b)%N && starts_with old' s'
  end.

(** [old in s] (substring test). *)
Fixpoint contains (old s : pystr) : bool :=
  starts_with old s ||
  match s with
  | [] => false
  | _ :: r => contains old r
  end.

(** [s.replace(old, new)] for a non-empty [old]: the occurrences are found
    left to right and do not overlap.  [skip] counts the characters of an
    occurrence already replaced that are still to be passed over. *)
Fixpoint replace_from (old new : pystr) (skip : nat) (s : pystr) : pystr :=
  match s with
  | [] => []
  | c :: r =>
      match skip with
      | S k => replace_from old new k r
      | O =>
          if starts_with old s
          then new ++ replace_from old new (length old - 1) r
          else c :: replace_from old new 0 r
      end
  end.

Definition replace (old new s : pystr) : pystr := replace_from old new 0 s.

(** [re.split(r"\n{2,}", s)]: the separators are the maximal runs of two
    or more newlines; a lone newline stays inside its piece.  [cur] is the
    piece being read, reversed; [nl] the number of newlines just read. *)
Fixpoint re_split_blank_from (cur : pystr) (nl : nat) (s : pystr)
  : list pystr :=
  match s with
  | [] =>
      match nl with
      | O => [rev cur]
      | S O => [rev (10%N :: cur)]
      | _ => [rev cur; []]
      end
  | c :: r =>
      if (c =? 10)%N then re_split_blank_from cur (S nl) r
      else
        match nl with
        | O => re_split_blank_from (c :: cur) 0 r
        | S O => re_split_blank_from (c :: 10%N :: cur) 0 r
        | _ => rev cur :: re_split_blank_from [c] 0 r
        end
  end.

Definition re_split_blank (s : pystr) : list pystr :=
  re_split_blank_from [] 0 s.

(** [s.splitlines()]: [\r\n] counts as one boundary, and no empty last
    line is produced.  [after_cr] tells that the previous character was
    a [\r] that ended a line. *)
Fixpoint splitlines_from (cur : pystr) (after_cr : bool) (s : pystr)
  : list pystr :=
  match s with
  | [] => match cur with [] => [] | _ :: _ => [rev cur] end
  | c :: r =>
      if is_linebreak c then
        if after_cr && (c =? 10)%N then splitlines_from cur false r
        else rev cur :: splitlines_from [] (c =? 13)%N r
      else splitlines_from (c :: cur) false r
  end.

Definition splitlines (s : pystr) : list pystr :=
  splitlines_from [] false s.

End PyStr.

Import PyStr.

(** ** The chunker ([chunk_text], both scripts) *)

Module Chunker.

(** Line 122 (images) / 83 (pdf):
    [start = end - overlap if end - overlap > start else end]. *)
Definition next_start (end_ overlap start : Z) : Z :=
  if end_ - overlap >? start then end_ - overlap else end_.

(** Line 120 / 81: [end = min(start + max_len, len(p))]. *)
Definition window_end (p : pystr) (max_len start : Z) : Z :=
  Z.min (start + max_len) (len p).

(** The [while start < len(p)] loop of lines 119-122 / 80-83, returning
    the windows it appends.  The loop need not terminate (it does not for
    [max_len = 0]), so the model takes fuel: one unit per iteration,
    [None] when the fuel runs out before the loop condition fails. *)
Fixpoint hard_split (fuel : nat) (p : pystr) (max_len overlap start : Z)
  {struct fuel} : option (list pystr) :=
  if start <? len p then
    match fuel with
    | O => None
    | S fuel' =>
        let end_ := window_end p max_len start in
        ws ← hard_split fuel' p max_len overlap (next_start end_ overlap start);
        Some (slice p start end_ :: ws)
    end
  else Some [].

(** [chunks.append(current)] guarded by [if current:]. *)
Definition flush (chunks : list pystr) (current : pystr) : list pystr :=
  if truthy current then chunks ++ [current] else chunks.

(** One iteration of [for p in paragraphs] (lines 110-123 / 71-84) on the
    loop state [(chunks, current)]. *)
Definition chunk_step (fuel : nat) (max_len overlap : Z)
    (st : list pystr * pystr) (p : pystr) : option (list pystr * pystr) :=
  let '(chunks, current) := st in
  if len current + len p + 1 <=? max_len then
    Some (chunks, strip (current ++ 10%N :: p))
  else
    let chunks := flush chunks current in
    if len p <=? max_len then Some (chunks, p)
    else
      ws ← hard_split fuel p max_len overlap 0;
      Some (chunks ++ ws, []).

Fixpoint chunk_loop (fuel : nat) (max_len overlap : Z)
    (st : list pystr * pystr) (paragraphs : list pystr)
  : option (list pystr * pystr) :=
  match paragraphs with
  | [] => Some st
  | p :: ps =>
      st' ← chunk_step fuel max_len overlap st p;
      chunk_loop fuel max_len overlap st' ps
  end.

(** [[p.strip() for p in pieces if p.strip()]] *)
Definition paragraphs_of (pieces : list pystr) : list pystr :=
  map strip (filter (fun p => truthy (strip p)) pieces).

(** Lines 107-126 / 68-87, which are the same text in both scripts. *)
Definition chunk_paragraphs (fuel : nat) (paragraphs : list pystr)
    (max_len overlap : Z) : option (list pystr) :=
  '(chunks, current) ← chunk_loop fuel max_len overlap ([], []) paragraphs;
  Some (flush chunks current).

(** [chunk_text] of [adamus-index-images.py] (lines 103-126). *)
Definition chunk_text_images (fuel : nat) (text : pystr)
    (max_len overlap : Z) : option (list pystr) :=
  if negb (truthy text) then Some []
  else chunk_paragraphs fuel (paragraphs_of (re_split_blank text))
         max_len overlap.

(** [chunk_text] of [adamus-index-pdf.py] (lines 64-87). *)
Definition chunk_text_pdf (fuel : nat) (text : pystr)
    (max_len overlap : Z) : option (list pystr) :=
  if negb (truthy text) then Some []
  else chunk_paragraphs fuel (paragraphs_of (splitlines text))
         max_len overlap.

End Chunker.

Import Chunker.

(** ** The sanitizer and the SQL literal quoting *)

Module Quoting.

(** A code point that UTF-8 cannot encode (a surrogate): dropped by
    [value.encode("utf-8", "ignore").decode("utf-8")]. *)
Definition is_surrogate (c : N) : bool := in_range 55296 57343 c.

(** The character class [[\x00-\x08\x0B\x0C\x0E-\x1F]] of line 20. *)
Definition is_stripped_control (c : N) : bool :=
  in_range 0 8 c || (c =? 11)%N || (c =? 12)%N || in_range 14 31 c.

(** [sanitize_text] of [adamus-index-images.py] (lines 15-20).  The
    argument may be [None]. *)
Definition sanitize_text (value : option pystr) : pystr :=
  match value with
  | None => []
  | Some v =>
      if negb (truthy v) then []
      else
        let v := filter (fun c => negb (is_surrogate c)) v in
        let v := replace [13; 10]%N [10%N] v in
        let v := replace [13%N] [10%N] v in
        filter (fun c => negb (is_stripped_control c)) v
  end.

Fixpoint uint_codes (u : Decimal.uint) : pystr :=
  match u with
  | Decimal.Nil => []
  | Decimal.D0 u => 48%N :: uint_codes u
  | Decimal.D1 u => 49%N :: uint_codes u
  | Decimal.D2 u => 50%N :: uint_codes u
  | Decimal.D3 u => 51%N :: uint_codes u
  | Decimal.D4 u => 52%N :: uint_codes u
  | Decimal.D5 u => 53%N :: uint_codes u
  | Decimal.D6 u => 54%N :: uint_codes u
  | Decimal.D7 u => 55%N :: uint_codes u
  | Decimal.D8 u => 56%N :: uint_codes u
  | Decimal.D9 u => 57%N :: uint_codes u
  end.

(** [str(counter)] for a counter that is never negative. *)
Definition decimal (counter : N) : pystr := uint_codes (N.to_uint counter).

(** [f"${base_tag}$"] and [f"${base_tag}_{counter}$"] with
    [base_tag = "adamus"]. *)
Definition base_tag : pystr := lit "$adamus$".
Definition numbered_tag (counter : N) : pystr :=
  lit "$adamus_" ++ decimal counter ++ lit "$".

(** The [while tag in safe] loop of lines 43-45, with one unit of fuel
    per iteration. *)
Fixpoint pick_tag (fuel : nat) (safe tag : pystr) (counter : N)
  {struct fuel} : option pystr :=
  if contains tag safe then
    match fuel with
    | O => None
    | S fuel' =>
        let counter := (counter + 1)%N in
        pick_tag fuel' safe (numbered_tag counter) counter
    end
  else Some tag.

(** [sql_literal] of [adamus-index-images.py] (lines 38-46): the chosen
    tag and the sanitized content. *)
Definition sql_literal_images_parts (fuel : nat) (value : option pystr)
  : option (pystr * pystr) :=
  let safe := sanitize_text value in
  tag ← pick_tag fuel safe base_tag 0;
  Some (tag, safe).

Definition sql_literal_images (fuel : nat) (value : option pystr)
  : option pystr :=
  '(tag, safe) ← sql_literal_images_parts fuel value;
  Some (tag ++ safe ++ tag).

(** [sql_literal] of [adamus-index-pdf.py] (lines 31-38): the chosen tag
    and the content without NUL characters. *)
Definition sql_literal_pdf_parts (value : pystr) : pystr * pystr :=
  let safe := replace [0%N] [] value in
  let tag := lit "$adamus$" in
  let tag :=
    if contains tag safe then
      let tag := lit "$adamus_text$" in
      if contains tag safe then lit "$adamus_chunk$" else tag
    else tag in
  (tag, safe).

Definition sql_literal_pdf (value : pystr) : pystr :=
  let '(tag, safe) := sql_literal_pdf_parts value in
  tag ++ safe ++ tag.

End Quoting.

Import Quoting.

(** ** The remote services and the effects of the drivers *)

Module Remote.

(** The exceptions that the drivers meet. *)
Inductive exn :=
| HTTPError (code : Z)  (** [urllib.error.HTTPError]: a reply with an error status *)
| URLError              (** [urllib.error.URLError] proper: no connection, connect timeout *)
| TimeoutError          (** the socket timed out while the reply was read *)
| UnicodeDecodeError    (** [.decode("utf-8")] on a reply that is not UTF-8 *)
| JSONDecodeError       (** [json.loads] on a reply that is not JSON *)
| RuntimeError          (** raised by [call_vision] *)
| KeyError              (** a missing key of a decoded object *)
| IndexError            (** [rows[0]] on an empty reply *)
| TypeError             (** [json.loads(None)]; a subscript the value does not take *)
| AttributeError        (** [text.strip()] on a value that is no string *)
| OSError               (** a file that cannot be read, a closed output stream *)
| UnicodeEncodeError    (** [print] of a line the output stream cannot encode *)
| ValueError            (** [time.sleep] of a negative duration or of NaN *)
| OverflowError         (** an [int] too large for a [float]; a sleep too long *)
| SystemExit (msg : string).

(** [except Exception] catches every exception above but [SystemExit],
    which derives from [BaseException] only. *)
Definition is_Exception (e : exn) : bool :=
  match e with SystemExit _ => false | _ => true end.

(** One row object of a JSON reply.  A reply is kept in decoded form (the
    drivers pass every body they read to [json.loads]); a row carries the
    columns the statements select. *)
Record Row := {
  row_id : pystr;
  row_page_no : Z;
  row_image_uri : option pystr;
  row_chunk_count : Z
}.

Abbreviation Body := (list Row).

(** The statements the drivers send.  Each is a fixed SQL template of the
    source around the fields kept here; [QUpsertPage] and [QInsertChunk]
    carry the dollar-quoted literal built by [sql_literal]. *)
Inductive Query :=
| QSubject (name description : pystr)
| QMaterialSelect (source_uri : pystr)
| QMaterialInsert (subject_id : pystr) (chapter paragraph : option pystr)
    (title source_type source_uri : pystr) (count : Z)
| QExistingPages (material_id : pystr)
| QUpsertPage (material_id : pystr) (page_no : Z) (image_uri ocr_literal : pystr)
| QDeleteChunks (page_id : pystr)
| QInsertChunk (material_id page_id : pystr) (chunk_index : Z)
    (content_literal : pystr).

(** An image file: [image_path.name] and [image_path.as_posix()]. *)
Record Image := { img_name : pystr; img_posix : pystr }.

(** The lines the drivers print. *)
Inductive Msg :=
| MsgImages (count : Z)
| MsgOcr (idx total : Z) (name : pystr)
| MsgSkip (idx : Z) (name : pystr)
| MsgChunkFailed (idx c_idx : Z) (exc : exn)
| MsgPreview (preview : pystr)
| MsgFallbackOk (idx c_idx : Z)
| MsgFallbackFailed (idx c_idx : Z) (exc : exn)
| MsgDone.

(** The ways a request can fail: in [urlopen], or in
    [resp.read().decode("utf-8")] inside the same [try]. *)
Inductive net_failure :=
| NetHTTP (code : Z)  (** a reply with an error status *)
| NetURL              (** no connection, or a timeout while connecting *)
| NetTimeout          (** a timeout while the reply was read *)
| NetDecode.          (** a reply whose body is not UTF-8 *)

(** The exception raised for a failure. *)
Definition exn_of_net (f : net_failure) : exn :=
  match f with
  | NetHTTP code => HTTPError code
  | NetURL => URLError
  | NetTimeout => TimeoutError
  | NetDecode => UnicodeDecodeError
  end.

(** The ways [print] can fail. *)
Inductive write_failure :=
| WriteEncode   (** the output stream cannot encode the line *)
| WriteClosed.  (** the output stream is closed or broken *)

Definition exn_of_write (f : write_failure) : exn :=
  match f with
  | WriteEncode => UnicodeEncodeError
  | WriteClosed => OSError
  end.

(** A decoded JSON value, as [json.loads] returns it.  The value of a
    number is never looked at.  The members of an object are kept in the
    order of the text; [json.loads] builds a [dict] from them, in which a
    later member replaces an earlier one with the same key. *)
Inductive json :=
| JNull
| JBool (b : bool)
| JNumber
| JString (s : pystr)
| JArray (items : list json)
| JObject (members : list (pystr * json)).

Inductive outcome (A : Type) :=
| Responded (a : A)
| Failed (f : net_failure).
Arguments Responded {A} a.
Arguments Failed {A} f.

(** What a run does, in order. *)
Inductive event :=
| EvSqlQuery (q : Query)                    (** [sql_query] is entered *)
| EvUrlopen (q : Query) (o : outcome Body)  (** one [urlopen] of [sql_query] *)
| EvSleep (seconds : float)                 (** [time.sleep] *)
| EvPrint (m : Msg)
| EvVision (img : Image) (o : outcome (option json))
                                            (** the request of [call_vision] *)
| EvExtract (page_no : Z).                  (** [page.extract_text()] *)

(** Every event is recorded with the index of the page whose loop
    iteration issued it ([None] outside the page loop). *)
Abbreviation trace := (list (option Z * event)).

(** The surroundings of a run, as functions of what happened so far:
    the SQL service, the file system ([read_bytes]: whether the image file
    can be read), the Vision service (the decoded body of its reply, [None]
    for a body that is not JSON) and the standard output ([stdout]: how
    writing a line fails, [None] when it is written). *)
Record World := {
  urlopen : trace -> Query -> outcome Body;
  read_bytes : trace -> Image -> bool;
  vision : trace -> Image -> outcome (option json);
  stdout : trace -> Msg -> option write_failure
}.

Inductive result (A : Type) :=
| Ok (a : A)
| Raise (e : exn)
| Diverge.
Arguments Ok {A} a.
Arguments Raise {A} e.
Arguments Diverge {A}.

(** Driver code: it reads the page being processed, extends the trace,
    and returns, raises or fails to terminate. *)
Definition M (A : Type) : Type := option Z -> trace -> result A * trace.

#[export] Instance M_ret : MRet M := fun A a _ t => (Ok a, t).
#[export] Instance M_bind : MBind M := fun A B f m pg t =>
  match m pg t with
  | (Ok a, t') => f a pg t'
  | (Raise e, t') => (Raise e, t')
  | (Diverge, t') => (Diverge, t')
  end.

Definition raise {A} (e : exn) : M A := fun _ t => (Raise e, t).
Definition emit (e : event) : M unit := fun pg t => (Ok tt, t ++ [(pg, e)]).

(** What [time.sleep(seconds)] raises instead of sleeping (CPython 3.11,
    [time_sleep]): the duration is converted to a count of nanoseconds in
    64 bits, which fails for NaN and for a count beyond [2^63] on either
    side, and a negative count is refused (the count [2^63] itself passes
    the range check and wraps to a negative one). *)
Definition sleep_error (seconds : float) : option exn :=
  let count := (seconds * 1e9)%float in
  if is_nan seconds then Some ValueError
  else if (count <? -0x1p63)%float || (0x1p63 <? count)%float
  then Some OverflowError
  else if (seconds <? 0)%float || (count =? 0x1p63)%float then Some ValueError
  else None.

(** [time.sleep(seconds)] *)
Definition sleep (seconds : float) : M unit :=
  match sleep_error seconds with
  | Some e => raise e
  | None => emit (EvSleep seconds)
  end.

(** The [float] nearest to [n] (ties to even; an infinity when [n] is out
    of range). *)
Definition float_of_int (n : Z) : float :=
  SF2Prim (binary_normalize prec emax n 0 false).

(** The [float] an [int] is converted to when it meets a [float] in a
    product: the nearest one; [None] when it is out of range
    ([OverflowError]). *)
Definition int_to_float (n : Z) : option float :=
  if is_finite (float_of_int n) then Some (float_of_int n) else None.

(** A computation that cannot raise; [None] is a loop that never ends. *)
Definition lift {A} (o : option A) : M A :=
  fun _ t => match o with Some a => (Ok a, t) | None => (Diverge, t) end.

(** The body of one iteration of the page loop. *)
Definition in_page {A} (idx : Z) (m : M A) : M A := fun _ t => m (Some idx) t.

(** [try: body except Exception as exc: handler(exc)] *)
Definition try_except {A} (body : M A) (handler : exn -> M A) : M A :=
  fun pg t =>
    match body pg t with
    | (Raise e, t') =>
        if is_Exception e then handler e pg t' else (Raise e, t')
    | r => r
    end.

(** [try: body except <classes> as exc: handler(exc)], for the classes
    that [caught] selects. *)
Definition try_except_of {A} (caught : exn -> bool) (body : M A)
    (handler : exn -> M A) : M A :=
  fun pg t =>
    match body pg t with
    | (Raise e, t') => if caught e then handler e pg t' else (Raise e, t')
    | r => r
    end.

(** [for i, x in enumerate(l, start): body(i, x)] *)
Fixpoint for_enumerate {A} (start : Z) (l : list A) (body : Z -> A -> M unit)
  : M unit :=
  match l with
  | [] => mret tt
  | x :: l' => body start x ;; for_enumerate (start + 1) l' body
  end.

Section Executor.
Variable w : World.

(** [print(line)]: nothing is written when the stream refuses the line. *)
Definition print (m : Msg) : M unit :=
  fun pg t =>
    match stdout w t m with
    | None => (Ok tt, t ++ [(pg, EvPrint m)])
    | Some f => (Raise (exn_of_write f), t)
    end.

(** The set of status codes of line 66 (images) / 58 (pdf). *)
Definition retryable (code : Z) : bool :=
  (code =? 401) || (code =? 429) || (code =? 500) || (code =? 502)
  || (code =? 503) || (code =? 504).

Definition do_urlopen (query : Query) : M (outcome Body) :=
  fun pg t =>
    let o := urlopen w t query in
    (Ok o, t ++ [(pg, EvUrlopen query o)]).

(** The body of [for attempt in range(retries + 1)] of [sql_query], over
    the attempts still to make.  Falling out of the loop returns
    [None]. *)
Fixpoint sql_query_attempts (query : Query) (retries : Z) (backoff : float)
    (attempts : list Z) : M (option Body) :=
  match attempts with
  | [] => mret None
  | attempt :: rest =>
      o ← do_urlopen query;
      match o with
      | Responded body => mret (Some body)
      | Failed (NetHTTP code) =>
          if retryable code && (attempt <? retries) then
            match int_to_float (attempt + 1) with
            | Some n =>
                sleep (backoff * n);;
                sql_query_attempts query retries backoff rest
            | None => raise OverflowError
            end
          else raise (HTTPError code)
      | Failed f => raise (exn_of_net f)
      end
  end.

(** [sql_query] (lines 49-69 of the image script, 41-61 of the PDF
    script; the same text).  The bearer token is a constant of the run
    and is left out. *)
Definition sql_query (query : Query) (retries : Z) (backoff : float)
  : M (option Body) :=
  emit (EvSqlQuery query);;
  sql_query_attempts query retries backoff (seqZ 0 (retries + 1)).

(** [sql_query(token, query)] with the default [retries=5, backoff=1.5],
    as every call of the drivers is. *)
Definition sql_query_default (query : Query) : M (option Body) :=
  sql_query query 5 1.5.

(** [json.loads(sql_query(token, query))] *)
Definition query_rows (query : Query) : M Body :=
  r ← sql_query_default query;
  match r with
  | Some body => mret body
  | None => raise TypeError
  end.

(** [rows[0]["id"]] *)
Definition first_id (rows : Body) : M pystr :=
  match rows with
  | r :: _ => mret (row_id r)
  | [] => raise IndexError
  end.

(** [Path(image_path).read_bytes()] (line 73); what is read is not
    looked at. *)
Definition do_read_bytes (img : Image) : M unit :=
  fun _ t => if read_bytes w t img then (Ok tt, t) else (Raise OSError, t).

(** Lines 90-92: the request, the decoding of the body and
    [json.loads(body)]. *)
Definition vision_request (img : Image) : M json :=
  fun pg t =>
    let o := vision w t img in
    let t' := t ++ [(pg, EvVision img o)] in
    match o with
    | Responded (Some data) => (Ok data, t')
    | Responded None => (Raise JSONDecodeError, t')
    | Failed f => (Raise (exn_of_net f), t')
    end.

(** [d[key]] in a [dict] built from [members]: the last member with that
    key. *)
Fixpoint members_get (key : pystr) (members : list (pystr * json))
  : option json :=
  match members with
  | [] => None
  | (k, v) :: rest =>
      match members_get key rest with
      | Some v' => Some v'
      | None => if bool_decide (k = key) then Some v else None
      end
  end.

(** [value[key]] for a string [key]: a list and a string take integers
    only, the other values no subscript. *)
Definition subscript (value : json) (key : pystr) : M json :=
  match value with
  | JObject members =>
      match members_get key members with
      | Some v => mret v
      | None => raise KeyError
      end
  | _ => raise TypeError
  end.

(** [value[0]]: the keys of a decoded object are strings, so an object
    has no key [0]; the first character of a string is a string. *)
Definition subscript_0 (value : json) : M json :=
  match value with
  | JArray (v :: _) => mret v
  | JString (c :: _) => mret (JString [c])
  | JArray [] | JString [] => raise IndexError
  | JObject _ => raise KeyError
  | _ => raise TypeError
  end.

Definition is_HTTPError (e : exn) : bool :=
  match e with HTTPError _ => true | _ => false end.

(** [except (KeyError, IndexError, TypeError)] *)
Definition is_lookup_error (e : exn) : bool :=
  match e with KeyError | IndexError | TypeError => true | _ => false end.

(** [call_vision] (lines 72-100 of the image script). *)
Definition call_vision (img : Image) : M pystr :=
  do_read_bytes img;;
  data ← try_except_of is_HTTPError (vision_request img)
           (fun exc => raise RuntimeError);
  text ← try_except_of is_lookup_error
           (responses ← subscript data (lit "responses");
            response ← subscript_0 responses;
            annotation ← subscript response (lit "fullTextAnnotation");
            subscript annotation (lit "text"))
           (fun _ => mret (JString []));
  match text with
  | JString s => mret (sanitize_text (Some (strip s)))
  | _ => raise AttributeError
  end.

End Executor.

End Remote.

Import Remote.

(** ** The drivers ([main] of both scripts, from the loaded configuration on) *)

(** The settings both drivers read from the environment. *)
Record Material := {
  subject_name : pystr;
  subject_description : pystr;
  chapter : option pystr;
  paragraph : option pystr;
  title : pystr;
  source_uri : pystr
}.

Module Driver.

(** [{row["page_no"]: row for row in existing_pages}]: a later row replaces
    an earlier one with the same key. *)
Definition index_by_page (rows : Body) : gmap Z Row :=
  foldl (fun m row => <[row_page_no row := row]> m) ∅ rows.

(** [{row["image_uri"]: row for row in existing_pages if row["image_uri"]}] *)
Definition index_by_uri (rows : Body) : gmap pystr Row :=
  foldl (fun m row =>
           match row_image_uri row with
           | Some uri => if truthy uri then <[uri := row]> m else m
           | None => m
           end) ∅ rows.

(** [existing and int(existing.get("chunk_count", 0)) > 0] *)
Definition has_chunks (existing : option Row) : bool :=
  match existing with
  | Some row => 0 <? row_chunk_count row
  | None => false
  end.

Section Drivers.
Variable w : World.
Variable mat : Material.

(** Lines 194-241 of the image script and 123-165 of the PDF script:
    resolve the subject and the material, then read the stored pages.
    [source_type] is ['image'] or ['pdf'] and [count] the number of inputs. *)
Definition resolve (source_type : pystr) (count : Z) : M (pystr * Body) :=
  subject_res ← query_rows w (QSubject (subject_name mat) (subject_description mat));
  subject_id ← first_id subject_res;
  material_select_res ← query_rows w (QMaterialSelect (source_uri mat));
  material_id ←
    match material_select_res with
    | _ :: _ => first_id material_select_res
    | [] =>
        material_res ← query_rows w
          (QMaterialInsert subject_id (chapter mat) (paragraph mat) (title mat)
             source_type (source_uri mat) count);
        first_id material_res
    end;
  existing_pages ← query_rows w (QExistingPages material_id);
  mret (material_id, existing_pages).

(** *** The image driver *)

Section Images.
Variable fuel : nat.
Variable force_pages : gset Z.
Variables chunk_max chunk_overlap : Z.

(** [chunk.encode("ascii", "ignore").decode("ascii").strip()] *)
Definition ascii_fallback (chunk : pystr) : pystr :=
  strip (filter (fun c => (c <? 128)%N) chunk).

(** Lines 278-308: the body of the chunk loop. *)
Definition insert_chunk_images (material_id page_id : pystr) (idx : Z)
    (c_idx : Z) (chunk : pystr) : M unit :=
  chunk_lit ← lift (sql_literal_images fuel (Some chunk));
  try_except
    (sql_query_default w (QInsertChunk material_id page_id c_idx chunk_lit);;
     sleep 0.1)
    (fun exc =>
       let preview := replace [10%N] [32%N] (slice chunk 0 200) in
       print w (MsgChunkFailed idx c_idx exc);;
       print w (MsgPreview preview);;
       let fallback := ascii_fallback chunk in
       if truthy fallback && bool_decide (fallback ≠ chunk) then
         try_except
           (fallback_lit ← lift (sql_literal_images fuel (Some fallback));
            sql_query_default w
              (QInsertChunk material_id page_id c_idx fallback_lit);;
            sleep 0.1;;
            print w (MsgFallbackOk idx c_idx))
           (fun fallback_exc => print w (MsgFallbackFailed idx c_idx fallback_exc))
       else mret tt).

(** Line 246: [existing_by_page.get(idx) or existing_by_uri.get(image_uri)];
    a row object is never empty, hence always true in a condition. *)
Definition existing_images (by_page : gmap Z Row) (by_uri : gmap pystr Row)
    (idx : Z) (image_uri : pystr) : option Row :=
  match by_page !! idx with
  | Some row => Some row
  | None => by_uri !! image_uri
  end.

(** The condition of line 247. *)
Definition skip_images (by_page : gmap Z Row) (by_uri : gmap pystr Row)
    (idx : Z) (image_uri : pystr) : bool :=
  has_chunks (existing_images by_page by_uri idx image_uri)
  && bool_decide (idx ∉ force_pages).

(** Lines 244-308: the body of the page loop. *)
Definition page_body_images (material_id : pystr) (by_page : gmap Z Row)
    (by_uri : gmap pystr Row) (total : Z) (idx : Z) (image_path : Image)
  : M unit :=
  in_page idx (
    print w (MsgOcr idx total (img_name image_path));;
    let image_uri := lit "file://" ++ img_posix image_path in
    if skip_images by_page by_uri idx image_uri then
      print w (MsgSkip idx (img_name image_path))
    else
      text ← call_vision w image_path;
      sleep 0.3;;
      text_lit ← lift (sql_literal_images fuel (Some text));
      page_res ← query_rows w (QUpsertPage material_id idx image_uri text_lit);
      page_id ← first_id page_res;
      sql_query_default w (QDeleteChunks page_id);;
      sleep 0.2;;
      chunks ← lift (chunk_text_images fuel text chunk_max chunk_overlap);
      for_enumerate 1 chunks (insert_chunk_images material_id page_id idx)).

(** Lines 243-308: the reconciliation loop over the stored pages read. *)
Definition reconcile_images (material_id : pystr) (existing_pages : Body)
    (images : list Image) : M unit :=
  let existing_by_page := index_by_page existing_pages in
  let existing_by_uri := index_by_uri existing_pages in
  for_enumerate 1 images
    (page_body_images material_id existing_by_page existing_by_uri
       (Z.of_nat (length images))).

(** [main] of the image script from line 188 on; [images] is what
    [select_images] returned. *)
Definition main_images (images : list Image) : M unit :=
  match images with
  | [] => raise (SystemExit "No images found.")
  | _ :: _ =>
      print w (MsgImages (Z.of_nat (length images)));;
      '(material_id, existing_pages) ←
        resolve (lit "image") (Z.of_nat (length images));
      reconcile_images material_id existing_pages images;;
      print w MsgDone
  end.

End Images.

(** *** The PDF driver *)

Section Pdf.
Variable fuel : nat.

(** Lines 193-203: the body of the chunk loop; no handler surrounds the
    insert. *)
Definition insert_chunk_pdf (material_id page_id : pystr) (c_idx : Z)
    (chunk : pystr) : M unit :=
  sql_query_default w
    (QInsertChunk material_id page_id c_idx (sql_literal_pdf chunk));;
  sleep 0.1.

(** Lines 168-203: the body of the page loop. *)
Definition page_body_pdf (material_id : pystr) (by_page : gmap Z Row)
    (idx : Z) (text : pystr) : M unit :=
  in_page idx (
    if has_chunks (by_page !! idx) then mret tt
    else
      page_res ← query_rows w
        (QUpsertPage material_id idx (source_uri mat) (sql_literal_pdf text));
      page_id ← first_id page_res;
      sql_query_default w (QDeleteChunks page_id);;
      sleep 0.2;;
      chunks ← lift (chunk_text_pdf fuel text 1200 200);
      for_enumerate 1 chunks (insert_chunk_pdf material_id page_id)).

(** Lines 167-203. *)
Definition reconcile_pdf (material_id : pystr) (existing_pages : Body)
    (page_texts : list pystr) : M unit :=
  let existing_by_page := index_by_page existing_pages in
  for_enumerate 1 page_texts (page_body_pdf material_id existing_by_page).

(** Lines 115-118: [page.extract_text() or ""], stripped, for every page of
    the reader in order.  [pages] holds what [extract_text] returns for
    each page. *)
Fixpoint extract_pages (page_no : Z) (pages : list (option pystr))
  : M (list pystr) :=
  match pages with
  | [] => mret []
  | page :: rest =>
      emit (EvExtract page_no);;
      let text := match page with Some t => t | None => [] end in
      texts ← extract_pages (page_no + 1) rest;
      mret (strip text :: texts)
  end.

(** [main] of the PDF script from line 114 on. *)
Definition main_pdf (pages : list (option pystr)) : M unit :=
  page_texts ← extract_pages 1 pages;
  if negb (existsb truthy page_texts) then
    raise (SystemExit "PDF has no extractable text.")
  else
    '(material_id, existing_pages) ←
      resolve (lit "pdf") (Z.of_nat (length page_texts));
    reconcile_pdf material_id existing_pages page_texts;;
    print w MsgDone.

End Pdf.
End Drivers.
End Driver.

Import Driver.

(** ** The environment file and the quoting of short values *)

Module Config.

(** [sql_escape] (lines 34-35 of the image script, 27-28 of the PDF
    script): [value.replace("'", "''")]. *)
Definition sql_escape (value : pystr) : pystr :=
  replace [39%N] [39; 39]%N value.

(** [line.split("=", 1)] on a line that holds an [=]: what stands before
    the first [=] and what stands after it ([None] without [=]). *)
Fixpoint split_first (sep : N) (s : pystr) : option (pystr * pystr) :=
  match s with
  | [] => None
  | c :: r =>
      if (c =? sep)%N then Some ([], r)
      else match split_first sep r with
           | Some (a, b) => Some (c :: a, b)
           | None => None
           end
  end.

(** The body of the loop of [load_env] (lines 26-30 / 19-23) for one line:
    the entry the line adds, if it adds one. *)
Definition parse_env_line (line : pystr) : option (pystr * pystr) :=
  let line := strip line in
  if negb (truthy line) || starts_with (lit "#") line
     || negb (contains (lit "=") line)
  then None
  else
    match split_first 61 line with
    | Some (key, value) => Some (strip key, strip value)
    | None => None
    end.

(** The loop [for line in ...] of [load_env] over the lines of the file. *)
Definition load_env_lines (lines : list pystr) : gmap pystr pystr :=
  foldl (fun env line =>
           match parse_env_line line with
           | Some (key, value) => <[key := value]> env
           | None => env
           end) ∅ lines.

(** [load_env] (lines 23-31 / 16-24) on the text of the file, as
    [read_text] returns it. *)
Definition load_env (content : pystr) : gmap pystr pystr :=
  load_env_lines (splitlines content).

End Config.

Import Config.

(** ** Predicates and sample inputs used in the statements *)

Module Props.

(** A chunk that is neither empty nor longer than [max_len]. *)
Definition good_chunk (max_len : Z) (c : pystr) : Prop :=
  1 <= len c <= max_len.

(** The invariant of the paragraph loop. *)
Definition loop_inv (max_len : Z) (st : list pystr * pystr) : Prop :=
  Forall (good_chunk max_len) (fst st) /\ len (snd st) <= max_len.

(** The 3000 characters [a..z a..z ...] used to run the chunker. *)
Definition sample_paragraph : pystr :=
  map (fun i => (97 + N.of_nat i mod 26)%N) (seq 0 3000).

(** The control characters of ASCII: [0x00 .. 0x1F] and DEL, [0x7F]. *)
Definition is_ascii_control (c : N) : bool := (c <=? 31)%N || (c =? 127)%N.

(** Line-ending normalisation in the words of the specification, as one
    pass: each [\r\n], and each [\r] left, becomes one [\n]. *)
Fixpoint normalize_line_endings_spec (s : pystr) : pystr :=
  match s with
  | [] => []
  | 13%N :: (10%N :: r) => 10%N :: normalize_line_endings_spec r
  | 13%N :: r => 10%N :: normalize_line_endings_spec r
  | c :: r => c :: normalize_line_endings_spec r
  end.

(** The position of the first occurrence of [old] in [s] (the length of
    [s] when there is none). *)
Fixpoint find_pos (old s : pystr) : nat :=
  if starts_with old s then O
  else match s with
       | [] => O
       | _ :: r => S (find_pos old r)
       end.

(** A page text that holds the three delimiters of the PDF script. *)
Definition three_tags_text : pystr :=
  lit "$adamus$ $adamus_text$ $adamus_chunk$".

(** The product [backoff * (attempt + 1)] of line 67 / 59, in floating
    point. *)
Definition retry_seconds (backoff : float) (attempt : Z) : float :=
  (backoff * float_of_int (attempt + 1))%float.

(** The sleeps of the retries of a call with [retries] and [backoff] are
    sleeps that [time.sleep] takes: no product overflows, is negative or is
    NaN. *)
Definition sleeps_accepted (retries : Z) (backoff : float) : Prop :=
  forall attempt, 0 <= attempt < retries ->
    is_finite (float_of_int (attempt + 1)) = true
    /\ sleep_error (retry_seconds backoff attempt) = None.

(** What [sql_query] records for the attempts that failed with the status
    codes [codes] and were retried, the first of them being attempt number
    [attempt]: each request is followed by a sleep of
    [backoff * (attempt + 1)] seconds, the product taken in floating
    point. *)
Fixpoint retry_events (pg : option Z) (q : Query) (backoff : float)
    (attempt : Z) (codes : list Z) : trace :=
  match codes with
  | [] => []
  | code :: codes' =>
      (pg, EvUrlopen q (Failed (NetHTTP code)))
      :: (pg, EvSleep (retry_seconds backoff attempt))
      :: retry_events pg q backoff (attempt + 1) codes'
  end.

(** What a call of [sql_query] gives for the outcome of its last request. *)
Definition result_of_outcome (o : outcome Body) : result (option Body) :=
  match o with
  | Responded body => Ok (Some body)
  | Failed f => Raise (exn_of_net f)
  end.

(** A failure that line 66 / 58 selects for a retry. *)
Definition retryable_failure (o : outcome Body) : bool :=
  match o with
  | Failed (NetHTTP code) => retryable code
  | _ => false
  end.

(** A service whose every request fails in the same way; the image files
    can be read and every line is written. *)
Definition failing_world (f : net_failure) : World :=
  {| urlopen := fun _ _ => Failed f;
     read_bytes := fun _ _ => true;
     vision := fun _ _ => Failed f;
     stdout := fun _ _ => None |}.

(** A standard output that takes every line. *)
Definition stdout_accepts (w : World) : Prop :=
  forall t m, stdout w t m = None.

(** The statements a stretch of a run has passed to [sql_query]. *)
Fixpoint calls_of (t : trace) : list Query :=
  match t with
  | [] => []
  | (_, EvSqlQuery q) :: t' => q :: calls_of t'
  | _ :: t' => calls_of t'
  end.

Definition raised {A} (r : result A) : bool :=
  match r with Raise _ => true | _ => false end.

Definition is_print (e : event) : bool :=
  match e with EvPrint _ => true | _ => false end.

(** The condition of line 294: the ASCII fallback is tried. *)
Definition fallback_wanted (chunk : pystr) : bool :=
  truthy (ascii_fallback chunk) && bool_decide (ascii_fallback chunk <> chunk).

(** A computation that only adds events to the trace, all of them recorded
    for the page it was given. *)
Definition own {A} (m : M A) : Prop :=
  forall pg t, exists new,
    snd (m pg t) = t ++ new /\ Forall (fun ev => fst ev = pg) new.

(** The two lines printed when the insert of a chunk raised [exc] (lines
    289-292). *)
Definition failure_lines (pg : option Z) (idx c_idx : Z) (chunk : pystr)
    (exc : exn) : trace :=
  [(pg, EvPrint (MsgChunkFailed idx c_idx exc));
   (pg, EvPrint (MsgPreview (replace [10%N] [32%N] (slice chunk 0 200))))].

(** What one iteration of the chunk loop of the image driver is proved to
    add to the trace [t], for the chunk [chunk] with index [c_idx]: the
    chunk is passed to [sql_query] once.  When that call returns, a sleep
    follows and nothing else.  When it raises [exc], the two lines of
    [failure_lines] are printed, with [exc]; then, exactly when line 294
    lets the fallback through, the ASCII fallback is passed to [sql_query]
    once, and the line printed last tells how that call ended: "ok" after
    it returned, "failed" with the exception it raised. *)
Inductive chunk_inserted (w : World) (fuel : nat)
    (material_id page_id : pystr) (idx : Z) (pg : option Z) (c_idx : Z)
    (chunk : pystr) (t : trace) : trace -> Prop :=
| chunk_accepted chunk_lit body sent :
    sql_literal_images fuel (Some chunk) = Some chunk_lit ->
    sql_query_default w (QInsertChunk material_id page_id c_idx chunk_lit) pg t
    = (Ok body, t ++ sent) ->
    chunk_inserted w fuel material_id page_id idx pg c_idx chunk t
      (sent ++ [(pg, EvSleep 0.1)])
| chunk_failed chunk_lit exc sent :
    sql_literal_images fuel (Some chunk) = Some chunk_lit ->
    sql_query_default w (QInsertChunk material_id page_id c_idx chunk_lit) pg t
    = (Raise exc, t ++ sent) ->
    fallback_wanted chunk = false ->
    chunk_inserted w fuel material_id page_id idx pg c_idx chunk t
      (sent ++ failure_lines pg idx c_idx chunk exc)
| fallback_accepted chunk_lit exc sent fallback_lit body sent' :
    sql_literal_images fuel (Some chunk) = Some chunk_lit ->
    sql_query_default w (QInsertChunk material_id page_id c_idx chunk_lit) pg t
    = (Raise exc, t ++ sent) ->
    fallback_wanted chunk = true ->
    sql_literal_images fuel (Some (ascii_fallback chunk)) = Some fallback_lit ->
    sql_query_default w (QInsertChunk material_id page_id c_idx fallback_lit)
      pg (t ++ sent ++ failure_lines pg idx c_idx chunk exc)
    = (Ok body, (t ++ sent ++ failure_lines pg idx c_idx chunk exc) ++ sent') ->
    chunk_inserted w fuel material_id page_id idx pg c_idx chunk t
      (sent ++ failure_lines pg idx c_idx chunk exc ++ sent'
       ++ [(pg, EvSleep 0.1); (pg, EvPrint (MsgFallbackOk idx c_idx))])
| fallback_failed chunk_lit exc sent fallback_lit exc' sent' :
    sql_literal_images fuel (Some chunk) = Some chunk_lit ->
    sql_query_default w (QInsertChunk material_id page_id c_idx chunk_lit) pg t
    = (Raise exc, t ++ sent) ->
    fallback_wanted chunk = true ->
    sql_literal_images fuel (Some (ascii_fallback chunk)) = Some fallback_lit ->
    sql_query_default w (QInsertChunk material_id page_id c_idx fallback_lit)
      pg (t ++ sent ++ failure_lines pg idx c_idx chunk exc)
    = (Raise exc',
       (t ++ sent ++ failure_lines pg idx c_idx chunk exc) ++ sent') ->
    chunk_inserted w fuel material_id page_id idx pg c_idx chunk t
      (sent ++ failure_lines pg idx c_idx chunk exc ++ sent'
       ++ [(pg, EvPrint (MsgFallbackFailed idx c_idx exc'))]).

(** What the chunk loop of the image driver is proved to do, from trace
    [t] to trace [t']: each chunk in turn, with the indices counting up,
    adds what [chunk_inserted] says. *)
Inductive chunks_inserted (w : World) (fuel : nat) (material_id page_id : pystr)
    (idx : Z) (pg : option Z) : Z -> list pystr -> trace -> trace -> Prop :=
| chunks_inserted_nil c_idx t :
    chunks_inserted w fuel material_id page_id idx pg c_idx [] t t
| chunks_inserted_cons c_idx chunk chunks t new t' :
    chunk_inserted w fuel material_id page_id idx pg c_idx chunk t new ->
    chunks_inserted w fuel material_id page_id idx pg (c_idx + 1) chunks
      (t ++ new) t' ->
    chunks_inserted w fuel material_id page_id idx pg c_idx (chunk :: chunks)
      t t'.

(** What the chunk loop of the PDF driver is proved to do from trace [t]:
    the chunks are passed to [sql_query] in turn, with the indices counting
    up, each call followed by a sleep, as long as the calls return; the
    first call that raises ends the loop with what it raised, and no later
    chunk is sent. *)
Inductive pdf_chunks_inserted (w : World) (material_id page_id : pystr)
    (pg : option Z)
  : Z -> list pystr -> trace -> result unit * trace -> Prop :=
| pdf_chunks_done c_idx t :
    pdf_chunks_inserted w material_id page_id pg c_idx [] t (Ok tt, t)
| pdf_chunk_accepted c_idx chunk chunks t body sent r :
    sql_query_default w
      (QInsertChunk material_id page_id c_idx (sql_literal_pdf chunk)) pg t
    = (Ok body, t ++ sent) ->
    pdf_chunks_inserted w material_id page_id pg (c_idx + 1) chunks
      (t ++ sent ++ [(pg, EvSleep 0.1)]) r ->
    pdf_chunks_inserted w material_id page_id pg c_idx (chunk :: chunks) t r
| pdf_chunk_failed c_idx chunk chunks t exc sent :
    sql_query_default w
      (QInsertChunk material_id page_id c_idx (sql_literal_pdf chunk)) pg t
    = (Raise exc, t ++ sent) ->
    pdf_chunks_inserted w material_id page_id pg c_idx (chunk :: chunks) t
      (Raise exc, t ++ sent).

(** A service that rejects every request with status 400. *)
Definition rejecting_world : World := failing_world (NetHTTP 400).

(** The same service, with a standard output that takes ASCII only: a
    preview with another character cannot be encoded. *)
Definition ascii_stdout_world : World :=
  {| urlopen := fun _ _ => Failed (NetHTTP 400);
     read_bytes := fun _ _ => true;
     vision := fun _ _ => Failed (NetHTTP 400);
     stdout := fun _ m =>
       match m with
       | MsgPreview preview =>
           if forallb (fun c => (c <? 128)%N) preview then None
           else Some WriteEncode
       | _ => None
       end |}.

(** A service that accepts every request; it reports one stored page,
    page 1, with three chunks. *)
Definition stored_row : Row :=
  {| row_id := lit "id-1"; row_page_no := 1;
     row_image_uri := Some (lit "file:///scans/IMG_1.jpg");
     row_chunk_count := 3 |}.

(** A reply of the Vision service with a full-text annotation. *)
Definition sample_reply : json :=
  JObject
    [(lit "responses",
      JArray
        [JObject
           [(lit "fullTextAnnotation",
             JObject [(lit "text", JString (lit "text of the page"))])]])].

Definition accepting_world : World :=
  {| urlopen := fun _ _ => Responded [stored_row];
     read_bytes := fun _ _ => true;
     vision := fun _ _ => Responded (Some sample_reply);
     stdout := fun _ _ => None |}.

Definition sample_material : Material :=
  {| subject_name := lit "Biologie"; subject_description := lit "H4";
     chapter := None; paragraph := None; title := lit "scans";
     source_uri := lit "local://vakken/biologie-h4" |}.

Definition sample_image : Image :=
  {| img_name := lit "IMG_1.jpg"; img_posix := lit "/scans/IMG_1.jpg" |}.

End Props.

Import Props.

(** ** Further predicates used in statements *)

Module MoreProps.

(** The text a sequence of hard-split windows stands for: the first window,
    then every later window without its first [overlap] characters. *)
Definition unoverlap (overlap : Z) (ws : list pystr) : pystr :=
  match ws with
  | [] => []
  | w :: rest => w ++ concat (map (drop (Z.to_nat overlap)) rest)
  end.

(** [sep.join(parts)] *)
Fixpoint join (sep : pystr) (parts : list pystr) : pystr :=
  match parts with
  | [] => []
  | [p] => p
  | p :: rest => p ++ sep ++ join sep rest
  end.

(** A paragraph as [chunk_text] keeps it: not empty, nothing to strip. *)
Definition kept_paragraph (p : pystr) : Prop := p <> [] /\ strip p = p.

(** Each window shares its first [overlap] characters with the end of the
    window before it. *)
Fixpoint overlapping (overlap : nat) (ws : list pystr) : Prop :=
  match ws with
  | w1 :: ((w2 :: _) as rest) =>
      take overlap w2 = drop (length w1 - overlap) w1
      /\ overlapping overlap rest
  | _ => True
  end.

(** The statements that insert the literals [literals] as the chunks
    [c_idx], [c_idx + 1], ... of a page. *)
Fixpoint insert_queries (material_id page_id : pystr) (c_idx : Z)
    (literals : list pystr) : list Query :=
  match literals with
  | [] => []
  | l :: ls =>
      QInsertChunk material_id page_id c_idx l
      :: insert_queries material_id page_id (c_idx + 1) ls
  end.

(** A computation that only adds events to the trace, and whose calls of
    [sql_query] all send statements in [R]. *)
Definition sends_only {A} (R : Query -> Prop) (m : M A) : Prop :=
  forall pg t, exists new,
    snd (m pg t) = t ++ new /\ Forall R (calls_of new).

(** A service that answers every lookup of a material with a row. *)
Definition material_known (w : World) : Prop :=
  forall t uri, exists row rows,
    urlopen w t (QMaterialSelect uri) = Responded (row :: rows).

Definition is_material_insert (q : Query) : bool :=
  match q with QMaterialInsert _ _ _ _ _ _ _ => true | _ => false end.

(** The page indices under which the events of a stretch of a run were
    recorded, in order. *)
Definition pages_of (t : trace) : list Z := omap fst t.

Fixpoint nondecreasing (l : list Z) : Prop :=
  match l with
  | a :: ((b :: _) as rest) => a <= b /\ nondecreasing rest
  | _ => True
  end.

End MoreProps.

Import MoreProps.

(** * Properties *)

(** ** Facts about the string operations *)

Section StringFacts.

Lemma len_nonneg (s : pystr) : 0 <= len s.
Proof. unfold len. lia. Qed.

Lemma truthy_true (s : pystr) : truthy s = true <-> s <> [].
Proof. destruct s; simpl; split; congruence. Qed.

Lemma truthy_len (s : pystr) : truthy s = true <-> 1 <= len s.
Proof. unfold len. destruct s; simpl; split; intros; try lia; congruence. Qed.

Lemma dropwhile_length f (s : pystr) :
  (length (dropwhile f s) <= length s)%nat.
Proof. induction s as [|c r IH]; simpl; [lia|]. destruct (f c); simpl; lia. Qed.

Lemma dropwhile_all f (s : pystr) :
  Forall (fun c => f c = true) s -> dropwhile f s = [].
Proof.
  induction 1 as [|c r Hc _ IH]; simpl; [reflexivity|]. now rewrite Hc.
Qed.

Lemma dropwhile_id f c (s : pystr) :
  f c = false -> dropwhile f (c :: s) = c :: s.
Proof. intros H. simpl. now rewrite H. Qed.

Lemma strip_length (s : pystr) : len (strip s) <= len s.
Proof.
  unfold len, strip, rstrip, lstrip.
  rewrite length_rev.
  pose proof (dropwhile_length is_space (rev (dropwhile is_space s))) as H1.
  pose proof (dropwhile_length is_space s) as H2.
  rewrite length_rev in H1. lia.
Qed.

Lemma strip_all_space (s : pystr) :
  Forall (fun c => is_space c = true) s -> strip s = [].
Proof.
  intros H. unfold strip, lstrip, rstrip.
  now rewrite (dropwhile_all _ _ H).
Qed.

(** A string whose first and last characters are not white space is left
    alone by [strip]. *)
Lemma strip_fixed (s : pystr) :
  (forall c, head s = Some c -> is_space c = false) ->
  (forall c, last s = Some c -> is_space c = false) ->
  strip s = s.
Proof.
  intros Hh Hl. unfold strip, lstrip, rstrip.
  assert (E1 : dropwhile is_space s = s).
  { destruct s as [|c r]; [reflexivity|]. apply dropwhile_id, Hh. reflexivity. }
  rewrite E1.
  destruct (rev s) as [|c r] eqn:E.
  - simpl. apply (f_equal (@rev N)) in E. rewrite rev_involutive in E. now subst.
  - rewrite dropwhile_id.
    + rewrite <- E. apply rev_involutive.
    + apply Hl. apply (f_equal (@rev N)) in E. rewrite rev_involutive in E.
      subst s. simpl. now rewrite last_snoc.
Qed.

Lemma slice_inner_length (s : pystr) (a b : Z) :
  0 <= a -> a <= b -> b <= len s -> len (slice s a b) = b - a.
Proof.
  intros Ha Hab Hb. unfold slice, slice_bound, len in *.
  destruct (Z.ltb_spec a 0); [lia|].
  destruct (Z.ltb_spec b 0); [lia|].
  rewrite length_take, length_drop. lia.
Qed.

(** Without a newline there is nothing for [re.split] to split at. *)
Lemma re_split_blank_from_plain (cur s : pystr) :
  Forall (fun c => c <> 10%N) s ->
  re_split_blank_from cur 0 s = [rev cur ++ s].
Proof.
  intros H. revert cur. induction H as [|c r Hc _ IH]; intros cur; simpl.
  - now rewrite app_nil_r.
  - destruct (N.eqb_spec c 10); [contradiction|].
    rewrite IH. simpl. now rewrite <- app_assoc.
Qed.

Lemma splitlines_from_plain (cur s : pystr) :
  Forall (fun c => is_linebreak c = false) s ->
  rev cur ++ s <> [] ->
  splitlines_from cur false s = [rev cur ++ s].
Proof.
  intros H. revert cur. induction H as [|c r Hc _ IH]; intros cur Hne; simpl.
  - rewrite app_nil_r in *. destruct cur; [contradiction|reflexivity].
  - rewrite Hc. rewrite IH; simpl; rewrite <- app_assoc; [reflexivity|].
    simpl. intros E. now apply app_eq_nil in E as [_ ?].
Qed.

(** Every piece that [re.split] returns is made of characters of the text
    (the newlines kept inside a piece included). *)
Lemma re_split_blank_from_Forall (P : N -> Prop) (cur : pystr) nl (s : pystr) :
  P 10%N -> Forall P cur -> Forall P s ->
  Forall (Forall P) (re_split_blank_from cur nl s).
Proof.
  intros H10 Hcur Hs. revert cur nl Hcur.
  induction Hs as [|c r Hc _ IH]; intros cur nl Hcur; simpl.
  - destruct nl as [|[|nl]].
    + constructor; [now apply Forall_rev|constructor].
    + constructor; [|constructor].
      apply Forall_app; split; [now apply Forall_rev|now repeat constructor].
    + constructor; [now apply Forall_rev|]. repeat constructor.
  - destruct (c =? 10)%N; [now apply IH|].
    destruct nl as [|[|nl]].
    + apply IH. now constructor.
    + apply IH. repeat constructor; auto.
    + constructor; [now apply Forall_rev|]. apply IH. now constructor.
Qed.

Lemma splitlines_from_Forall (P : N -> Prop) (cur : pystr) b (s : pystr) :
  Forall P cur -> Forall P s -> Forall (Forall P) (splitlines_from cur b s).
Proof.
  intros Hcur Hs. revert cur b Hcur.
  induction Hs as [|c r Hc _ IH]; intros cur b Hcur; simpl.
  - destruct cur; [constructor|]. repeat constructor. now apply Forall_rev.
  - destruct (is_linebreak c).
    + destruct (b && (c =? 10)%N); [now apply IH|].
      constructor; [now apply Forall_rev|]. now apply IH.
    + apply IH. now constructor.
Qed.

(** No piece is longer than the text. *)
Lemma re_split_blank_from_length (cur : pystr) nl (s : pystr) :
  Forall (fun piece : pystr => (length piece <= length cur + nl + length s)%nat)
    (re_split_blank_from cur nl s).
Proof.
  revert cur nl. induction s as [|c r IH]; intros cur nl; simpl.
  - destruct nl as [|[|nl]];
      repeat (apply Forall_cons; split); try apply Forall_nil; simpl;
      rewrite ?length_app, ?length_rev; simpl; lia.
  - destruct (c =? 10)%N.
    + eapply Forall_impl; [apply IH|]. simpl. intros; lia.
    + destruct nl as [|[|nl]].
      * eapply Forall_impl; [apply IH|]. simpl. intros; lia.
      * eapply Forall_impl; [apply IH|]. simpl. intros; lia.
      * constructor; [rewrite length_rev; lia|].
        eapply Forall_impl; [apply IH|]. simpl. intros; lia.
Qed.

Lemma splitlines_from_length (cur : pystr) b (s : pystr) :
  Forall (fun piece : pystr => (length piece <= length cur + length s)%nat)
    (splitlines_from cur b s).
Proof.
  revert cur b. induction s as [|c r IH]; intros cur b; simpl.
  - destruct cur; [constructor|]. constructor; [|constructor].
    rewrite length_rev. simpl. lia.
  - destruct (is_linebreak c).
    + destruct (b && (c =? 10)%N).
      * eapply Forall_impl; [apply IH|]. simpl. intros; lia.
      * constructor; [rewrite length_rev; lia|].
        eapply Forall_impl; [apply IH|]. simpl. intros; lia.
    + eapply Forall_impl; [apply IH|]. simpl. intros; lia.
Qed.

End StringFacts.

(** ** The chunker *)

Section ChunkerFacts.

Lemma next_start_progress (p : pystr) (max_len overlap start : Z) :
  1 <= max_len -> 0 <= start < len p ->
  start < next_start (window_end p max_len start) overlap start.
Proof.
  intros Hm Hs. unfold next_start, window_end.
  destruct (Z.gtb_spec (Z.min (start + max_len) (len p) - overlap) start); lia.
Qed.

Lemma window_end_bounds (p : pystr) (max_len start : Z) :
  1 <= max_len -> 0 <= start < len p ->
  start < window_end p max_len start <= len p
  /\ window_end p max_len start - start <= max_len.
Proof. intros Hm Hs. unfold window_end. lia. Qed.

Lemma hard_split_total (fuel : nat) (p : pystr) (max_len overlap start : Z) :
  1 <= max_len -> 0 <= start -> len p - start <= Z.of_nat fuel ->
  exists ws, hard_split fuel p max_len overlap start = Some ws
             /\ Forall (good_chunk max_len) ws.
Proof.
  intros Hm. revert start.
  induction fuel as [|fuel IH]; intros start Hs Hf; simpl.
  - destruct (Z.ltb_spec start (len p)); [lia|]. eexists; split; eauto.
  - destruct (Z.ltb_spec start (len p)) as [Hlt|]; [|eexists; split; eauto].
    pose proof (next_start_progress p max_len overlap start Hm (conj Hs Hlt)) as Hn.
    pose proof (window_end_bounds p max_len start Hm (conj Hs Hlt)) as [Hw1 Hw2].
    destruct (IH (next_start (window_end p max_len start) overlap start))
      as (ws & E & Hws); [lia|lia|].
    rewrite E. simpl. eexists; split; [reflexivity|].
    constructor; [|assumption].
    unfold good_chunk. rewrite slice_inner_length; lia.
Qed.

(** More fuel does not change a result already obtained. *)
Lemma hard_split_more_fuel (fuel fuel' : nat) (p : pystr)
    (max_len overlap start : Z) ws :
  hard_split fuel p max_len overlap start = Some ws -> (fuel <= fuel')%nat ->
  hard_split fuel' p max_len overlap start = Some ws.
Proof.
  revert fuel' start ws.
  induction fuel as [|fuel IH]; intros fuel' start ws; simpl.
  - destruct (start <? len p) eqn:E; [discriminate|].
    intros H _. destruct fuel'; simpl; now rewrite E.
  - destruct (start <? len p) eqn:E.
    + destruct (hard_split fuel p max_len overlap _) as [ws'|] eqn:E';
        [|discriminate].
      simpl. intros H Hle. destruct fuel' as [|fuel']; [lia|]. simpl.
      rewrite E. erewrite IH; [exact H|exact E'|lia].
    + intros H _. destruct fuel'; simpl; now rewrite E.
Qed.

Lemma flush_good (max_len : Z) (chunks : list pystr) (current : pystr) :
  Forall (good_chunk max_len) chunks -> len current <= max_len ->
  Forall (good_chunk max_len) (flush chunks current).
Proof.
  intros Hc Hl. unfold flush. destruct (truthy current) eqn:E; [|assumption].
  apply Forall_app; split; [assumption|]. constructor; [|constructor].
  apply truthy_len in E. unfold good_chunk. lia.
Qed.

Lemma chunk_step_total (fuel : nat) (max_len overlap : Z) st (p : pystr) :
  1 <= max_len -> (length p <= fuel)%nat -> loop_inv max_len st ->
  exists st', chunk_step fuel max_len overlap st p = Some st'
              /\ loop_inv max_len st'.
Proof.
  intros Hm Hp [Hc Hl]. destruct st as [chunks current]. simpl in *.
  destruct (Z.leb_spec (len current + len p + 1) max_len) as [Hfit|Hover].
  - eexists; split; [reflexivity|]. split; [assumption|]. simpl.
    pose proof (strip_length (current ++ 10%N :: p)) as Hs.
    unfold len in *. rewrite length_app in Hs. simpl in Hs. lia.
  - destruct (Z.leb_spec (len p) max_len) as [Hsmall|Hbig].
    + eexists; split; [reflexivity|]. split; simpl; [|assumption].
      now apply flush_good.
    + destruct (hard_split_total fuel p max_len overlap 0) as (ws & E & Hws);
        [lia|lia|unfold len; lia|].
      rewrite E. simpl. eexists; split; [reflexivity|]. split; simpl.
      * apply Forall_app; split; [now apply flush_good|assumption].
      * unfold len; simpl; lia.
Qed.

Lemma chunk_loop_total (fuel : nat) (max_len overlap : Z) st
    (paragraphs : list pystr) :
  1 <= max_len ->
  Forall (fun p : pystr => (length p <= fuel)%nat) paragraphs ->
  loop_inv max_len st ->
  exists st', chunk_loop fuel max_len overlap st paragraphs = Some st'
              /\ loop_inv max_len st'.
Proof.
  intros Hm Hps. revert st.
  induction Hps as [|p ps Hp _ IH]; intros st Hst; simpl.
  - eexists; split; eauto.
  - destruct (chunk_step_total fuel max_len overlap st p Hm Hp Hst)
      as (st1 & E & Hst1).
    rewrite E. simpl. now apply IH.
Qed.

Lemma chunk_paragraphs_total (fuel : nat) (paragraphs : list pystr)
    (max_len overlap : Z) :
  1 <= max_len ->
  Forall (fun p : pystr => (length p <= fuel)%nat) paragraphs ->
  exists chunks, chunk_paragraphs fuel paragraphs max_len overlap = Some chunks
                 /\ Forall (good_chunk max_len) chunks.
Proof.
  intros Hm Hps. unfold chunk_paragraphs.
  destruct (chunk_loop_total fuel max_len overlap ([], []) paragraphs Hm Hps)
    as ([chunks current] & E & Hc & Hl).
  { split; simpl; [constructor|unfold len; simpl; lia]. }
  rewrite E. simpl. eexists; split; [reflexivity|]. now apply flush_good.
Qed.

Lemma chunk_step_more_fuel (fuel fuel' : nat) (max_len overlap : Z) st p st' :
  chunk_step fuel max_len overlap st p = Some st' -> (fuel <= fuel')%nat ->
  chunk_step fuel' max_len overlap st p = Some st'.
Proof.
  destruct st as [chunks current]. unfold chunk_step.
  destruct (_ <=? max_len); [auto|].
  destruct (len p <=? max_len); [auto|].
  destruct (hard_split fuel p max_len overlap 0) as [ws|] eqn:E; [|discriminate].
  intros H Hle. now rewrite (hard_split_more_fuel _ _ _ _ _ _ _ E Hle).
Qed.

Lemma chunk_loop_more_fuel (fuel fuel' : nat) (max_len overlap : Z) st ps st' :
  chunk_loop fuel max_len overlap st ps = Some st' -> (fuel <= fuel')%nat ->
  chunk_loop fuel' max_len overlap st ps = Some st'.
Proof.
  revert st. induction ps as [|p ps IH]; intros st; simpl; [auto|].
  destruct (chunk_step fuel max_len overlap st p) as [st1|] eqn:E;
    [|discriminate].
  simpl. intros H Hle.
  rewrite (chunk_step_more_fuel _ _ _ _ _ _ _ E Hle). simpl. now apply IH.
Qed.

Lemma chunk_paragraphs_more_fuel (fuel fuel' : nat) ps (max_len overlap : Z) r :
  chunk_paragraphs fuel ps max_len overlap = Some r -> (fuel <= fuel')%nat ->
  chunk_paragraphs fuel' ps max_len overlap = Some r.
Proof.
  unfold chunk_paragraphs.
  destruct (chunk_loop fuel max_len overlap ([], []) ps) as [st|] eqn:E;
    [|discriminate].
  intros H Hle. now rewrite (chunk_loop_more_fuel _ _ _ _ _ _ _ E Hle).
Qed.

Lemma paragraphs_of_length (bound : nat) (pieces : list pystr) :
  Forall (fun p : pystr => (length p <= bound)%nat) pieces ->
  Forall (fun p : pystr => (length p <= bound)%nat) (paragraphs_of pieces).
Proof.
  unfold paragraphs_of. induction 1 as [|p ps Hp _ IH]; [constructor|].
  rewrite filter_cons. destruct (decide _); [|assumption].
  simpl. constructor; [|assumption].
  pose proof (strip_length p). unfold len in *. lia.
Qed.

Lemma paragraphs_of_blank (pieces : list pystr) :
  Forall (Forall (fun c => is_space c = true)) pieces ->
  paragraphs_of pieces = [].
Proof.
  unfold paragraphs_of. induction 1 as [|p ps Hp _ IH]; [reflexivity|].
  rewrite filter_cons. destruct (decide _) as [Ht|]; [|assumption].
  rewrite (strip_all_space p Hp) in Ht. destruct Ht.
Qed.

Lemma paragraphs_images_length (text : pystr) :
  Forall (fun p : pystr => (length p <= length text)%nat)
    (paragraphs_of (re_split_blank text)).
Proof.
  apply paragraphs_of_length.
  eapply Forall_impl; [apply re_split_blank_from_length|].
  simpl. intros; lia.
Qed.

Lemma paragraphs_pdf_length (text : pystr) :
  Forall (fun p : pystr => (length p <= length text)%nat)
    (paragraphs_of (splitlines text)).
Proof.
  apply paragraphs_of_length.
  eapply Forall_impl; [apply splitlines_from_length|].
  simpl. intros; lia.
Qed.

Lemma Forall_length_le (bound bound' : nat) (ps : list pystr) :
  (bound <= bound')%nat ->
  Forall (fun p : pystr => (length p <= bound)%nat) ps ->
  Forall (fun p : pystr => (length p <= bound')%nat) ps.
Proof.
  intros Hb H. eapply Forall_impl; [exact H|]. simpl. intros; lia.
Qed.

(** Both variants return, with enough fuel, chunks that are not empty and
    not longer than [max_len]. *)
Lemma chunk_text_images_total (fuel : nat) (text : pystr) (max_len overlap : Z) :
  1 <= max_len -> (length text <= fuel)%nat ->
  exists chunks, chunk_text_images fuel text max_len overlap = Some chunks
                 /\ Forall (good_chunk max_len) chunks.
Proof.
  intros Hm Hf. unfold chunk_text_images.
  destruct (negb (truthy text)); [eexists; split; eauto|].
  apply chunk_paragraphs_total; [assumption|].
  eapply Forall_length_le; [exact Hf|apply paragraphs_images_length].
Qed.

Lemma chunk_text_pdf_total (fuel : nat) (text : pystr) (max_len overlap : Z) :
  1 <= max_len -> (length text <= fuel)%nat ->
  exists chunks, chunk_text_pdf fuel text max_len overlap = Some chunks
                 /\ Forall (good_chunk max_len) chunks.
Proof.
  intros Hm Hf. unfold chunk_text_pdf.
  destruct (negb (truthy text)); [eexists; split; eauto|].
  apply chunk_paragraphs_total; [assumption|].
  eapply Forall_length_le; [exact Hf|apply paragraphs_pdf_length].
Qed.

End ChunkerFacts.

Section ChunkerClaims.

(** C9.  For every text and every overlap, [chunk_text] terminates whenever
    [max_len >= 1].  In the hard-split loop the start index strictly
    increases on every iteration, so the loop ends within [len(p)]
    iterations: with fuel for [len(text)] iterations both variants return a
    result, and more fuel does not change it. *)
Theorem chunk_text_terminates (text : pystr) (max_len overlap : Z) :
  1 <= max_len ->
  (forall (p : pystr) (start : Z), 0 <= start < len p ->
     start < next_start (window_end p max_len start) overlap start)
  /\ (forall fuel : nat, (length text <= fuel)%nat ->
        is_Some (chunk_text_images fuel text max_len overlap)
        /\ chunk_text_images fuel text max_len overlap
           = chunk_text_images (length text) text max_len overlap
        /\ is_Some (chunk_text_pdf fuel text max_len overlap)
        /\ chunk_text_pdf fuel text max_len overlap
           = chunk_text_pdf (length text) text max_len overlap).
Proof.
  intros Hm. split.
  - intros p start Hs. now apply next_start_progress.
  - intros fuel Hf.
    destruct (chunk_text_images_total (length text) text max_len overlap Hm)
      as (ci & Ei & _); [lia|].
    destruct (chunk_text_pdf_total (length text) text max_len overlap Hm)
      as (cp & Ep & _); [lia|].
    assert (Ei' : chunk_text_images fuel text max_len overlap = Some ci).
    { revert Ei. unfold chunk_text_images. destruct (negb (truthy text)); [auto|].
      intros E. now apply (chunk_paragraphs_more_fuel _ _ _ _ _ _ E). }
    assert (Ep' : chunk_text_pdf fuel text max_len overlap = Some cp).
    { revert Ep. unfold chunk_text_pdf. destruct (negb (truthy text)); [auto|].
      intros E. now apply (chunk_paragraphs_more_fuel _ _ _ _ _ _ E). }
    rewrite Ei', Ep', Ei, Ep. repeat split; eauto.
Qed.

Lemma chunk_text_terminates_witness :
  1 <= 1200
  /\ ((forall (p : pystr) (start : Z), 0 <= start < len p ->
         start < next_start (window_end p 1200 start) 200 start)
      /\ (forall fuel : nat, (length sample_paragraph <= fuel)%nat ->
            is_Some (chunk_text_images fuel sample_paragraph 1200 200)
            /\ chunk_text_images fuel sample_paragraph 1200 200
               = chunk_text_images (length sample_paragraph) sample_paragraph 1200 200
            /\ is_Some (chunk_text_pdf fuel sample_paragraph 1200 200)
            /\ chunk_text_pdf fuel sample_paragraph 1200 200
               = chunk_text_pdf (length sample_paragraph) sample_paragraph 1200 200)).
Proof.
  split; [lia|]. apply (chunk_text_terminates sample_paragraph 1200 200). lia.
Defined.

(** C4.  For every text, every [max_len >= 1] and every [overlap >= 0],
    [chunk_text] returns (given fuel for [len(text)] iterations) and each
    chunk returned has at most [max_len] characters.  Both variants. *)
Theorem chunk_text_max_len (fuel : nat) (text : pystr) (max_len overlap : Z) :
  1 <= max_len -> 0 <= overlap -> (length text <= fuel)%nat ->
  (exists chunks, chunk_text_images fuel text max_len overlap = Some chunks
                  /\ Forall (fun c => len c <= max_len) chunks)
  /\ (exists chunks, chunk_text_pdf fuel text max_len overlap = Some chunks
                     /\ Forall (fun c => len c <= max_len) chunks).
Proof.
  intros Hm _ Hf. split.
  - destruct (chunk_text_images_total fuel text max_len overlap Hm Hf)
      as (chunks & E & Hg).
    exists chunks. split; [assumption|].
    eapply Forall_impl; [exact Hg|]. unfold good_chunk. simpl. intros; lia.
  - destruct (chunk_text_pdf_total fuel text max_len overlap Hm Hf)
      as (chunks & E & Hg).
    exists chunks. split; [assumption|].
    eapply Forall_impl; [exact Hg|]. unfold good_chunk. simpl. intros; lia.
Qed.

Lemma chunk_text_max_len_witness :
  1 <= 1200 /\ 0 <= 200 /\ (length sample_paragraph <= 3000)%nat
  /\ ((exists chunks, chunk_text_images 3000 sample_paragraph 1200 200 = Some chunks
                      /\ Forall (fun c => len c <= 1200) chunks)
      /\ (exists chunks, chunk_text_pdf 3000 sample_paragraph 1200 200 = Some chunks
                         /\ Forall (fun c => len c <= 1200) chunks)).
Proof.
  assert (H : (length sample_paragraph <= 3000)%nat) by (vm_compute; lia).
  split; [lia|]. split; [lia|]. split; [exact H|].
  apply (chunk_text_max_len 3000 sample_paragraph 1200 200); [lia|lia|exact H].
Defined.

(** C10.  For every text and every [max_len >= 1], every chunk that
    [chunk_text] returns is a non-empty string.  Both variants. *)
Theorem chunk_text_nonempty (fuel : nat) (text : pystr) (max_len overlap : Z) :
  1 <= max_len -> (length text <= fuel)%nat ->
  (exists chunks, chunk_text_images fuel text max_len overlap = Some chunks
                  /\ Forall (fun c => c <> []) chunks)
  /\ (exists chunks, chunk_text_pdf fuel text max_len overlap = Some chunks
                     /\ Forall (fun c => c <> []) chunks).
Proof.
  intros Hm Hf.
  assert (Hne : forall c : pystr, good_chunk max_len c -> c <> []).
  { intros c [H _] ->. unfold len in H. simpl in H. lia. }
  split.
  - destruct (chunk_text_images_total fuel text max_len overlap Hm Hf)
      as (chunks & E & Hg).
    exists chunks. split; [assumption|]. eapply Forall_impl; [exact Hg|exact Hne].
  - destruct (chunk_text_pdf_total fuel text max_len overlap Hm Hf)
      as (chunks & E & Hg).
    exists chunks. split; [assumption|]. eapply Forall_impl; [exact Hg|exact Hne].
Qed.

Lemma chunk_text_nonempty_witness :
  1 <= 1 /\ (length (lit "ab cd") <= 5)%nat
  /\ ((exists chunks, chunk_text_images 5 (lit "ab cd") 1 0 = Some chunks
                      /\ Forall (fun c => c <> []) chunks)
      /\ (exists chunks, chunk_text_pdf 5 (lit "ab cd") 1 0 = Some chunks
                         /\ Forall (fun c => c <> []) chunks)).
Proof.
  assert (H : (length (lit "ab cd") <= 5)%nat) by (vm_compute; lia).
  split; [lia|]. split; [exact H|].
  apply (chunk_text_nonempty 5 (lit "ab cd") 1 0); [lia|exact H].
Defined.

(** C8.  For every text that is empty or consists of white space only,
    [chunk_text] returns the empty sequence, whatever [max_len], [overlap]
    (and the fuel) are.  Both variants. *)
Theorem chunk_text_blank (fuel : nat) (text : pystr) (max_len overlap : Z) :
  Forall (fun c => is_space c = true) text ->
  chunk_text_images fuel text max_len overlap = Some []
  /\ chunk_text_pdf fuel text max_len overlap = Some [].
Proof.
  intros Hs. unfold chunk_text_images, chunk_text_pdf.
  destruct (negb (truthy text)); [split; reflexivity|].
  rewrite !paragraphs_of_blank; [split; reflexivity| |].
  - now apply splitlines_from_Forall.
  - apply re_split_blank_from_Forall; [reflexivity|constructor|assumption].
Qed.

Lemma chunk_text_blank_witness :
  Forall (fun c => is_space c = true) [32; 10; 10; 9; 13; 10; 160]%N
  /\ chunk_text_images 0 [32; 10; 10; 9; 13; 10; 160]%N 0 (-5) = Some []
  /\ chunk_text_pdf 0 [32; 10; 10; 9; 13; 10; 160]%N 0 (-5) = Some [].
Proof.
  assert (H : Forall (fun c => is_space c = true) [32; 10; 10; 9; 13; 10; 160]%N)
    by (repeat constructor).
  split; [exact H|]. now apply chunk_text_blank.
Defined.

(** The first literal scenario of the specification. *)
Example chunk_two_paragraphs :
  chunk_text_images 0 (lit "Para one." ++ [10; 10]%N ++ lit "Para two.")
    1200 200
  = Some [lit "Para one." ++ [10%N] ++ lit "Para two."].
Proof. reflexivity. Qed.

End ChunkerClaims.

Section LiteralScenario.

Lemma hard_split_step (fuel : nat) (p : pystr) (max_len overlap start : Z) :
  start < len p ->
  hard_split (S fuel) p max_len overlap start
  = (ws ← hard_split fuel p max_len overlap
            (next_start (window_end p max_len start) overlap start);
     Some (slice p start (window_end p max_len start) :: ws)).
Proof. intros H. simpl. destruct (Z.ltb_spec start (len p)); [reflexivity|lia]. Qed.

Lemma hard_split_done (fuel : nat) (p : pystr) (max_len overlap start : Z) :
  len p <= start -> hard_split fuel p max_len overlap start = Some [].
Proof.
  intros H. destruct fuel; simpl;
    destruct (Z.ltb_spec start (len p)); try reflexivity; lia.
Qed.

(** The hard split of a paragraph of 3000 characters with the default
    parameters: after the window that reaches the end of the paragraph the
    loop steps back once more and appends the last 200 characters again. *)
Lemma hard_split_3000 (p : pystr) :
  len p = 3000 ->
  hard_split 4 p 1200 200 0
  = Some [slice p 0 1200; slice p 1000 2200; slice p 2000 3000;
          slice p 2800 3000].
Proof.
  intros Hl.
  rewrite hard_split_step by lia.
  replace (window_end p 1200 0) with 1200 by (unfold window_end; lia).
  change (next_start 1200 200 0) with 1000.
  rewrite hard_split_step by lia.
  replace (window_end p 1200 1000) with 2200 by (unfold window_end; lia).
  change (next_start 2200 200 1000) with 2000.
  rewrite hard_split_step by lia.
  replace (window_end p 1200 2000) with 3000 by (unfold window_end; lia).
  change (next_start 3000 200 2000) with 2800.
  rewrite hard_split_step by lia.
  replace (window_end p 1200 2800) with 3000 by (unfold window_end; lia).
  change (next_start 3000 200 2800) with 3000.
  rewrite hard_split_done by lia. reflexivity.
Qed.

Lemma chunk_paragraphs_3000 (fuel : nat) (p : pystr) :
  len p = 3000 -> (4 <= fuel)%nat ->
  chunk_paragraphs fuel [p] 1200 200
  = Some [slice p 0 1200; slice p 1000 2200; slice p 2000 3000;
          slice p 2800 3000].
Proof.
  intros Hl Hf.
  apply (chunk_paragraphs_more_fuel 4); [|assumption].
  assert (E1 : (len [] + len p + 1 <=? 1200) = false)
    by (apply Z.leb_gt; rewrite Hl; reflexivity).
  assert (E2 : (len p <=? 1200) = false)
    by (apply Z.leb_gt; rewrite Hl; reflexivity).
  unfold chunk_paragraphs, chunk_loop, chunk_step.
  rewrite E1, E2, (hard_split_3000 p Hl). reflexivity.
Qed.

Lemma paragraphs_of_single (p : pystr) :
  p <> [] -> strip p = p -> paragraphs_of [p] = [p].
Proof.
  intros Hne Hs. unfold paragraphs_of.
  rewrite filter_cons. rewrite filter_nil.
  destruct (decide _) as [|Hn]; simpl; [now rewrite Hs|].
  exfalso. apply Hn. rewrite Hs. destruct p; [contradiction|exact I].
Qed.

Lemma chunk_text_single_3000 (fuel : nat) (p : pystr) :
  len p = 3000 ->
  Forall (fun c => is_linebreak c = false) p ->
  strip p = p ->
  (4 <= fuel)%nat ->
  chunk_text_images fuel p 1200 200
  = Some [slice p 0 1200; slice p 1000 2200; slice p 2000 3000;
          slice p 2800 3000]
  /\ chunk_text_pdf fuel p 1200 200
     = Some [slice p 0 1200; slice p 1000 2200; slice p 2000 3000;
             slice p 2800 3000].
Proof.
  intros Hl Hlb Hs Hf.
  assert (Hne : p <> []) by (intros ->; discriminate Hl).
  unfold chunk_text_images, chunk_text_pdf.
  destruct p as [|c r] eqn:Ep; [contradiction|]. simpl negb. cbv iota.
  rewrite <- Ep in *. clear Ep c r.
  unfold re_split_blank, splitlines.
  rewrite re_split_blank_from_plain, splitlines_from_plain; simpl;
    try assumption.
  - rewrite (paragraphs_of_single p Hne Hs).
    split; now apply chunk_paragraphs_3000.
  - eapply Forall_impl; [exact Hlb|]. simpl. intros c H ->. discriminate H.
Qed.

Lemma sample_paragraph_len : len sample_paragraph = 3000.
Proof. vm_compute. reflexivity. Qed.

Lemma sample_paragraph_no_linebreak :
  Forall (fun c => is_linebreak c = false) sample_paragraph.
Proof.
  apply Forall_forall. intros c Hc. apply list_elem_of_In in Hc.
  assert (E : forallb (fun c => negb (is_linebreak c)) sample_paragraph = true)
    by (vm_compute; reflexivity).
  rewrite forallb_forall in E. specialize (E c Hc).
  now destruct (is_linebreak c).
Qed.

Lemma sample_paragraph_strip : strip sample_paragraph = sample_paragraph.
Proof. vm_compute. reflexivity. Qed.

(** C2, on the code.  A single paragraph of exactly 3000 characters
    (no line boundary inside, nothing for [strip] to remove) chunked with
    [max_len=1200, overlap=200] gives FOUR windows, starting at offsets 0,
    1000, 2000 and 2800: after the window [p[2000:3000]] has reached the
    end of the paragraph, [start] becomes [3000 - 200 = 2800 < len(p)] and
    the loop runs once more, appending [p[2800:3000]].  Both variants. *)
Theorem chunk_text_3000 (fuel : nat) (p : pystr) :
  len p = 3000 ->
  Forall (fun c => is_linebreak c = false) p ->
  strip p = p ->
  (4 <= fuel)%nat ->
  chunk_text_images fuel p 1200 200
  = Some [slice p 0 1200; slice p 1000 2200; slice p 2000 3000;
          slice p 2800 3000]
  /\ chunk_text_pdf fuel p 1200 200
     = Some [slice p 0 1200; slice p 1000 2200; slice p 2000 3000;
             slice p 2800 3000].
Proof. apply chunk_text_single_3000. Qed.

Lemma chunk_text_3000_witness :
  len sample_paragraph = 3000
  /\ Forall (fun c => is_linebreak c = false) sample_paragraph
  /\ strip sample_paragraph = sample_paragraph
  /\ (4 <= 4)%nat
  /\ chunk_text_images 4 sample_paragraph 1200 200
     = Some [slice sample_paragraph 0 1200; slice sample_paragraph 1000 2200;
             slice sample_paragraph 2000 3000; slice sample_paragraph 2800 3000]
  /\ chunk_text_pdf 4 sample_paragraph 1200 200
     = Some [slice sample_paragraph 0 1200; slice sample_paragraph 1000 2200;
             slice sample_paragraph 2000 3000; slice sample_paragraph 2800 3000].
Proof.
  split; [exact sample_paragraph_len|].
  split; [exact sample_paragraph_no_linebreak|].
  split; [exact sample_paragraph_strip|]. split; [lia|].
  apply (chunk_text_3000 4 sample_paragraph sample_paragraph_len
           sample_paragraph_no_linebreak sample_paragraph_strip). lia.
Defined.

(** The chunker returns four windows there, not the three of offsets 0,
    1000 and 2000. *)
Lemma chunk_text_sample_not_three :
  chunk_text_images 4 sample_paragraph 1200 200
  <> Some [slice sample_paragraph 0 1200; slice sample_paragraph 1000 2200;
           slice sample_paragraph 2000 3000]
  /\ chunk_text_pdf 4 sample_paragraph 1200 200
     <> Some [slice sample_paragraph 0 1200; slice sample_paragraph 1000 2200;
              slice sample_paragraph 2000 3000].
Proof.
  destruct (chunk_text_single_3000 4 sample_paragraph sample_paragraph_len
              sample_paragraph_no_linebreak sample_paragraph_strip) as [E1 E2];
    [lia|].
  rewrite E1, E2. split; intros H; inversion H.
Qed.

(** The hard-split loop does not terminate for [max_len = 0]: no amount of
    fuel gives a result. *)
Example hard_split_zero_diverges (fuel : nat) :
  hard_split fuel [97; 98]%N 0 0 0 = None.
Proof.
  induction fuel as [|fuel IH]; [reflexivity|].
  rewrite hard_split_step by reflexivity.
  change (window_end [97; 98]%N 0 0) with 0.
  change (next_start 0 0 0) with 0. now rewrite IH.
Qed.

End LiteralScenario.

(** ** The sanitizer *)

Section SanitizerFacts.

Lemma normalize_cr_lf (r : pystr) :
  normalize_line_endings_spec (13%N :: 10%N :: r)
  = 10%N :: normalize_line_endings_spec r.
Proof. reflexivity. Qed.

Lemma normalize_cr (r : pystr) :
  head r <> Some 10%N ->
  normalize_line_endings_spec (13%N :: r)
  = 10%N :: normalize_line_endings_spec r.
Proof.
  destruct r as [|b r]; [reflexivity|]. simpl head. intros Hb.
  assert (Hn : b <> 10%N) by (intros ->; apply Hb; reflexivity). clear Hb.
  destruct b as [|[[[[]|[]|]|[[]|[]|]|]|[[[]|[]|]|[[]|[]|]|]|]];
    try reflexivity; congruence.
Qed.

Lemma normalize_other (c : N) (r : pystr) :
  c <> 13%N ->
  normalize_line_endings_spec (c :: r) = c :: normalize_line_endings_spec r.
Proof.
  intros Hc.
  destruct c as [|[[[[]|[]|]|[[]|[]|]|]|[[[]|[]|]|[[]|[]|]|]|]];
    try reflexivity; congruence.
Qed.

Lemma replace_crlf_hit (r : pystr) :
  replace [13; 10]%N [10%N] (13%N :: 10%N :: r)
  = 10%N :: replace [13; 10]%N [10%N] r.
Proof. reflexivity. Qed.

Lemma replace_crlf_lone_cr (r : pystr) :
  head r <> Some 10%N ->
  replace [13; 10]%N [10%N] (13%N :: r) = 13%N :: replace [13; 10]%N [10%N] r.
Proof.
  intros Hr. destruct r as [|b r]; [reflexivity|].
  assert (E : (10 =? b)%N = false)
    by (apply N.eqb_neq; intros <-; apply Hr; reflexivity).
  unfold replace. cbn -[N.eqb]. rewrite E. reflexivity.
Qed.

Lemma replace_crlf_other (c : N) (r : pystr) :
  c <> 13%N ->
  replace [13; 10]%N [10%N] (c :: r) = c :: replace [13; 10]%N [10%N] r.
Proof.
  intros Hc.
  assert (E : (13 =? c)%N = false) by (apply N.eqb_neq; congruence).
  unfold replace. cbn -[N.eqb]. rewrite E. reflexivity.
Qed.

Lemma replace_cr_cons (c : N) (r : pystr) :
  replace [13%N] [10%N] (c :: r)
  = (if (c =? 13)%N then 10%N else c) :: replace [13%N] [10%N] r.
Proof.
  unfold replace. cbn -[N.eqb]. rewrite (N.eqb_sym 13 c).
  destruct (c =? 13)%N; reflexivity.
Qed.

(** The two [replace] calls of line 19 do what the one-pass normalisation
    of the specification does. *)
Lemma replace_twice_normalizes (s : pystr) :
  replace [13%N] [10%N] (replace [13; 10]%N [10%N] s)
  = normalize_line_endings_spec s.
Proof.
  remember (length s) as n eqn:Hn.
  assert (Hle : (length s <= n)%nat) by lia. clear Hn.
  revert s Hle. induction n as [|n IH]; intros s Hle.
  - destruct s; [reflexivity|simpl in Hle; lia].
  - destruct s as [|c r]; [reflexivity|]. simpl in Hle.
    destruct (N.eq_dec c 13%N) as [->|Hc].
    + destruct r as [|b r].
      * reflexivity.
      * destruct (N.eq_dec b 10%N) as [->|Hb].
        -- rewrite replace_crlf_hit, replace_cr_cons, normalize_cr_lf.
           simpl in Hle. rewrite IH by lia. reflexivity.
        -- rewrite replace_crlf_lone_cr, replace_cr_cons, normalize_cr
             by (simpl; congruence).
           rewrite IH by lia. reflexivity.
    + rewrite replace_crlf_other, replace_cr_cons, normalize_other by assumption.
      rewrite IH by lia.
      destruct (N.eqb_spec c 13%N); [contradiction|reflexivity].
Qed.

Lemma normalize_no_cr (s : pystr) : 13%N ∉ normalize_line_endings_spec s.
Proof.
  remember (length s) as n eqn:Hn.
  assert (Hle : (length s <= n)%nat) by lia. clear Hn.
  revert s Hle. induction n as [|n IH]; intros s Hle.
  - destruct s; [apply not_elem_of_nil|simpl in Hle; lia].
  - destruct s as [|c r]; [apply not_elem_of_nil|]. simpl in Hle.
    destruct (N.eq_dec c 13%N) as [->|Hc].
    + destruct r as [|b r].
      * simpl. intros H. apply list_elem_of_singleton in H. discriminate.
      * destruct (N.eq_dec b 10%N) as [->|Hb].
        -- rewrite normalize_cr_lf. simpl in Hle.
           intros H. apply elem_of_cons in H as [H|H]; [discriminate|].
           revert H. apply IH. lia.
        -- rewrite normalize_cr by (simpl; congruence).
           intros H. apply elem_of_cons in H as [H|H]; [discriminate|].
           revert H. apply IH. simpl in *. lia.
    + rewrite normalize_other by assumption.
      intros H. apply elem_of_cons in H as [H|H]; [congruence|].
      revert H. apply IH. lia.
Qed.

Lemma filter_bool_cons (f : N -> bool) (c : N) (l : pystr) :
  filter (fun c => f c) (c :: l)
  = if f c then c :: filter (fun c => f c) l else filter (fun c => f c) l.
Proof.
  rewrite filter_cons. destruct (f c) eqn:E; destruct (decide _) as [H|H];
    try reflexivity.
  - exfalso. apply H. exact I.
  - destruct H.
Qed.

(** Normalising the line endings touches no character from U+0020 on. *)
Lemma normalize_keeps_printable (s : pystr) :
  filter (fun c => (32 <=? c)%N) (normalize_line_endings_spec s)
  = filter (fun c => (32 <=? c)%N) s.
Proof.
  remember (length s) as n eqn:Hn.
  assert (Hle : (length s <= n)%nat) by lia. clear Hn.
  revert s Hle. induction n as [|n IH]; intros s Hle.
  - destruct s; [reflexivity|simpl in Hle; lia].
  - destruct s as [|c r]; [reflexivity|]. simpl in Hle.
    destruct (N.eq_dec c 13%N) as [->|Hc].
    + destruct r as [|b r]; [reflexivity|].
      destruct (N.eq_dec b 10%N) as [->|Hb].
      * rewrite normalize_cr_lf. simpl in Hle.
        rewrite !filter_bool_cons.
        change (32 <=? 10)%N with false. change (32 <=? 13)%N with false.
        cbv iota. apply IH. lia.
      * rewrite normalize_cr by (simpl; congruence).
        rewrite (filter_bool_cons _ 10%N), (filter_bool_cons _ 13%N).
        change (32 <=? 10)%N with false. change (32 <=? 13)%N with false.
        cbv iota. apply IH. simpl in *. lia.
    + rewrite normalize_other by assumption.
      rewrite !filter_bool_cons. rewrite IH by lia. reflexivity.
Qed.

Lemma kept_control (c : N) :
  is_stripped_control c = false ->
  c = 9%N \/ c = 10%N \/ c = 13%N \/ (32 <= c)%N.
Proof.
  unfold is_stripped_control, in_range. intros H.
  destruct (N.leb_spec 0 c), (N.leb_spec c 8), (N.eqb_spec c 11),
    (N.eqb_spec c 12), (N.leb_spec 14 c), (N.leb_spec c 31);
    simpl in H; try discriminate; lia.
Qed.

Lemma printable_not_stripped (c : N) :
  (32 <=? c)%N = true -> is_stripped_control c = false.
Proof.
  unfold is_stripped_control, in_range. intros H%N.leb_le.
  destruct (N.leb_spec 0 c), (N.leb_spec c 8), (N.eqb_spec c 11),
    (N.eqb_spec c 12), (N.leb_spec 14 c), (N.leb_spec c 31);
    simpl; try reflexivity; lia.
Qed.

(** [sanitize_text] in terms of the one-pass normalisation. *)
Lemma sanitize_text_spec_form (v : pystr) :
  sanitize_text (Some v)
  = filter (fun c => negb (is_stripped_control c))
      (normalize_line_endings_spec
         (filter (fun c => negb (is_surrogate c)) v)).
Proof.
  unfold sanitize_text. destruct v as [|c r]; [reflexivity|].
  simpl negb. cbv iota. now rewrite replace_twice_normalizes.
Qed.

End SanitizerFacts.

Section SanitizerClaims.

Lemma filter_printable_kept (l : pystr) :
  filter (fun c => (32 <=? c)%N)
    (filter (fun c => negb (is_stripped_control c)) l)
  = filter (fun c => (32 <=? c)%N) l.
Proof.
  induction l as [|c l IH]; [reflexivity|].
  rewrite (filter_bool_cons (fun c => negb (is_stripped_control c))).
  rewrite (filter_bool_cons (fun c => (32 <=? c)%N) c l).
  destruct (32 <=? c)%N eqn:E.
  - rewrite (printable_not_stripped c E). simpl.
    rewrite (filter_bool_cons (fun c => (32 <=? c)%N)), E. now rewrite IH.
  - destruct (negb (is_stripped_control c)); [|assumption].
    rewrite (filter_bool_cons (fun c => (32 <=? c)%N)), E. assumption.
Qed.

(** C7 as stated fails on DEL: U+007F is a control character of ASCII,
    and [sanitize_text] keeps it. *)
Lemma sanitize_text_keeps_del :
  sanitize_text (Some [65; 127; 66]%N) = [65; 127; 66]%N
  /\ is_ascii_control 127 = true /\ 127%N <> 10%N /\ 127%N <> 9%N.
Proof. repeat split; discriminate. Qed.

(** C7, amended.  For every input, [None] included, [sanitize_text] returns
    a string, the empty one when the input is [None] or empty.  In it
    every [\r\n], and every [\r] left, has been replaced by [\n], and every
    control character in [U+0000 .. U+001F] except newline and tab has been
    removed: what is returned is the one-pass normalisation of the input
    (after the code points UTF-8 cannot encode are dropped) without the
    characters of the class of line 20, it holds no character below U+0020
    other than tab and newline, and it keeps every character from U+0020
    on, DEL (U+007F) included. *)
Theorem sanitize_text_amended :
  sanitize_text None = []
  /\ sanitize_text (Some []) = []
  /\ forall s : pystr,
       sanitize_text (Some s)
       = filter (fun c => negb (is_stripped_control c))
           (normalize_line_endings_spec
              (filter (fun c => negb (is_surrogate c)) s))
       /\ Forall (fun c => c = 9%N \/ c = 10%N \/ (32 <= c)%N)
            (sanitize_text (Some s))
       /\ filter (fun c => (32 <=? c)%N) (sanitize_text (Some s))
          = filter (fun c => (32 <=? c)%N)
              (filter (fun c => negb (is_surrogate c)) s).
Proof.
  split; [reflexivity|]. split; [reflexivity|]. intros s.
  rewrite sanitize_text_spec_form. split; [reflexivity|]. split.
  - apply Forall_forall. intros c Hc.
    apply list_elem_of_filter in Hc as [Hk Hin].
    destruct (is_stripped_control c) eqn:E; [destruct Hk|].
    destruct (kept_control c E) as [?|[?|[->|?]]]; auto.
    exfalso. exact (normalize_no_cr _ Hin).
  - now rewrite filter_printable_kept, normalize_keeps_printable.
Qed.

End SanitizerClaims.

(** ** The remote query executor *)

Section ExecutorFacts.
Variable w : World.

Lemma sleep_accepted (seconds : float) (pg : option Z) (t : trace) :
  sleep_error seconds = None ->
  sleep seconds pg t = (Ok tt, t ++ [(pg, EvSleep seconds)]).
Proof. intros H. unfold sleep. now rewrite H. Qed.

(** The sleeps between the steps of the drivers are sleeps that
    [time.sleep] takes. *)
Lemma sleep_01 : sleep 0.1 = emit (EvSleep 0.1).
Proof. reflexivity. Qed.

Lemma sleep_02 : sleep 0.2 = emit (EvSleep 0.2).
Proof. reflexivity. Qed.

Lemma sleep_03 : sleep 0.3 = emit (EvSleep 0.3).
Proof. reflexivity. Qed.

Lemma int_to_float_finite (n : Z) :
  is_finite (float_of_int n) = true -> int_to_float n = Some (float_of_int n).
Proof. intros H. unfold int_to_float. now rewrite H. Qed.

(** The default [retries=5, backoff=1.5] sleeps 1.5, 3, 4.5, 6 and 7.5
    seconds. *)
Lemma default_sleeps_accepted : sleeps_accepted 5 1.5.
Proof.
  intros attempt H.
  assert (attempt = 0 \/ attempt = 1 \/ attempt = 2 \/ attempt = 3
          \/ attempt = 4) as [->|[->|[->|[->| ->]]]] by lia;
    split; vm_compute; reflexivity.
Qed.

Lemma sql_query_attempts_shape (q : Query) (retries : Z) (backoff : float)
    (n : nat) (attempt : Z) (pg : option Z) (t : trace) :
  sleeps_accepted retries backoff -> 0 <= attempt ->
  attempt + Z.of_nat n = retries + 1 -> (0 < n)%nat ->
  exists codes o,
    (length codes < n)%nat
    /\ Forall (fun code => retryable code = true) codes
    /\ o = urlopen w (t ++ retry_events pg q backoff attempt codes) q
    /\ snd (sql_query_attempts w q retries backoff
              (seqZ attempt (Z.of_nat n)) pg t)
       = t ++ retry_events pg q backoff attempt codes ++ [(pg, EvUrlopen q o)]
    /\ fst (sql_query_attempts w q retries backoff
              (seqZ attempt (Z.of_nat n)) pg t)
       = result_of_outcome o
    /\ (retryable_failure o = true -> S (length codes) = n).
Proof.
  intros Hacc. revert attempt t.
  induction n as [|n IH]; intros attempt t H0 Hsum Hn; [lia|].
  rewrite seqZ_cons by lia.
  replace (Z.pred (Z.of_nat (S n))) with (Z.of_nat n) by lia.
  cbn [sql_query_attempts]. unfold mbind, M_bind, do_urlopen. cbv zeta.
  destruct (urlopen w t q) as [body|f] eqn:Eo.
  { exists [], (Responded body). simpl. rewrite app_nil_r.
    repeat split; auto; try lia; discriminate. }
  destruct f as [code| | |];
    try (eexists [], (Failed _); simpl; rewrite app_nil_r;
         repeat split; auto; try lia; discriminate).
  destruct (retryable code) eqn:Er; cbn [andb].
  - destruct (Z.ltb_spec attempt retries) as [Hlt|Hge].
    + destruct (Hacc attempt ltac:(lia)) as [Hfin Hsleep].
      rewrite (int_to_float_finite _ Hfin).
      fold (retry_seconds backoff attempt).
      rewrite (sleep_accepted _ _ _ Hsleep).
      destruct (IH (Z.succ attempt)
                  ((t ++ [(pg, EvUrlopen q (Failed (NetHTTP code)))])
                     ++ [(pg, EvSleep (retry_seconds backoff attempt))]))
        as (codes & o' & Hlen & Hall & Ho & Htr & Hres & Hex); [lia|lia|lia|].
      exists (code :: codes), o'.
      split; [simpl; lia|]. split; [now constructor|].
      split; [|split; [|split]].
      * rewrite Ho. cbn [retry_events]. rewrite <- !app_assoc. reflexivity.
      * rewrite Htr. cbn [retry_events]. rewrite <- !app_assoc. reflexivity.
      * exact Hres.
      * intros H. simpl. now rewrite (Hex H).
    + exists [], (Failed (NetHTTP code)). simpl. rewrite app_nil_r.
      repeat split; auto; lia.
  - exists [], (Failed (NetHTTP code)). simpl. rewrite Er, app_nil_r.
    repeat split; auto; try lia; discriminate.
Qed.

End ExecutorFacts.

Lemma sql_query_shape (w : World) (q : Query) (retries : Z)
    (backoff : float) (pg : option Z) (t : trace) :
  0 <= retries -> sleeps_accepted retries backoff ->
  exists codes o,
    Z.of_nat (length codes) <= retries
    /\ Forall (fun code => retryable code = true) codes
    /\ o = urlopen w
             (t ++ (pg, EvSqlQuery q) :: retry_events pg q backoff 0 codes) q
    /\ snd (sql_query w q retries backoff pg t)
       = t ++ (pg, EvSqlQuery q) :: retry_events pg q backoff 0 codes
           ++ [(pg, EvUrlopen q o)]
    /\ fst (sql_query w q retries backoff pg t) = result_of_outcome o
    /\ (retryable_failure o = true -> Z.of_nat (length codes) = retries).
Proof.
  intros Hr Hacc. unfold sql_query, mbind, M_bind, emit.
  destruct (sql_query_attempts_shape w q retries backoff
              (Z.to_nat (retries + 1)) 0 pg (t ++ [(pg, EvSqlQuery q)]))
    as (codes & o & Hlen & Hall & Ho & Htr & Hres & Hex);
    [assumption|lia|lia|lia|].
  rewrite Z2Nat.id in Htr, Hres by lia.
  exists codes, o. split; [lia|]. split; [assumption|].
  rewrite <- !app_assoc in *. simpl in *.
  repeat split; auto. intros H. specialize (Hex H). lia.
Qed.

Section ExecutorClaims.


Example sql_query_503_exhausts :
  sql_query (failing_world (NetHTTP 503)) (QDeleteChunks []) 5 1.5 None []
  = (Raise (HTTPError 503),
     [(None, EvSqlQuery (QDeleteChunks []));
      (None, EvUrlopen (QDeleteChunks []) (Failed (NetHTTP 503)));
      (None, EvSleep 1.5);
      (None, EvUrlopen (QDeleteChunks []) (Failed (NetHTTP 503)));
      (None, EvSleep 3);
      (None, EvUrlopen (QDeleteChunks []) (Failed (NetHTTP 503)));
      (None, EvSleep 4.5);
      (None, EvUrlopen (QDeleteChunks []) (Failed (NetHTTP 503)));
      (None, EvSleep 6);
      (None, EvUrlopen (QDeleteChunks []) (Failed (NetHTTP 503)));
      (None, EvSleep 7.5);
      (None, EvUrlopen (QDeleteChunks []) (Failed (NetHTTP 503)))]).
Proof. vm_compute. reflexivity. Qed.

(** The product of line 67 / 59 is a product of floating-point numbers:
    with [backoff=0.1] the third sleep is not the sleep of 0.3 seconds. *)
Example retry_seconds_rounds :
  retry_seconds 0.1 2 = 0.30000000000000004%float
  /\ retry_seconds 0.1 2 <> 0.3%float.
Proof. split; [reflexivity|]. vm_compute. discriminate. Qed.

(** The durations [time.sleep] refuses, and two it takes. *)
Example sleep_error_cases :
  sleep_error nan = Some ValueError
  /\ sleep_error infinity = Some OverflowError
  /\ sleep_error (-1.5) = Some ValueError
  /\ sleep_error 1e10 = Some OverflowError
  /\ sleep_error (-1e300) = Some OverflowError
  /\ sleep_error 9223372036.854776 = Some ValueError
  /\ sleep_error neg_zero = None
  /\ sleep_error 7.5 = None.
Proof. repeat split. Qed.

(** A sleep that [time.sleep] refuses ends the call: with a negative
    [backoff] the first retry raises [ValueError] instead of sleeping, and
    no second request is made. *)
Example sql_query_negative_backoff :
  sql_query (failing_world (NetHTTP 503)) (QDeleteChunks []) 5 (-1.5) None []
  = (Raise ValueError,
     [(None, EvSqlQuery (QDeleteChunks []));
      (None, EvUrlopen (QDeleteChunks []) (Failed (NetHTTP 503)))]).
Proof. vm_compute. reflexivity. Qed.



End ExecutorClaims.

(** ** The SQL literal quoting *)

Section QuotingFacts.

Lemma starts_with_prefix (old s : pystr) :
  starts_with old s = true <-> exists r, s = old ++ r.
Proof.
  revert s. induction old as [|a old IH]; intros s; simpl.
  - split; [intros _; now exists s|reflexivity].
  - destruct s as [|b s].
    + split; [discriminate|intros [r Hr]; discriminate].
    + rewrite andb_true_iff, N.eqb_eq, IH. split.
      * intros [-> [r ->]]. now exists r.
      * intros [r Hr]. injection Hr as -> ->. split; [reflexivity|now exists r].
Qed.

Lemma find_pos_found (old s : pystr) :
  old <> [] -> contains old s = true ->
  (find_pos old s < length s)%nat
  /\ starts_with old (drop (find_pos old s) s) = true.
Proof.
  intros Hold. induction s as [|c r IH]; simpl.
  - rewrite orb_false_r. destruct old; [contradiction|discriminate].
  - destruct (starts_with old (c :: r)) eqn:E.
    + intros _. split; [lia|exact E].
    + simpl. intros H. destruct (IH H) as [H1 H2]. split; [lia|exact H2].
Qed.

Lemma uint_codes_inj (u u' : Decimal.uint) :
  uint_codes u = uint_codes u' -> u = u'.
Proof.
  revert u'. induction u; intros [] H; simpl in H; try discriminate;
    try reflexivity; injection H as H; f_equal; auto.
Qed.

Lemma decimal_inj (a b : N) : decimal a = decimal b -> a = b.
Proof. intros H. now apply Unsigned.to_uint_inj, uint_codes_inj. Qed.

Lemma uint_codes_digits (u : Decimal.uint) :
  Forall (fun c => c <> 36%N) (uint_codes u).
Proof. induction u; simpl; constructor; auto; discriminate. Qed.

(** Two digit strings that are both followed by [$] at the same place are
    the same string. *)
Lemma digits_then_dollar (da db r1 r2 : pystr) :
  Forall (fun c => c <> 36%N) da -> Forall (fun c => c <> 36%N) db ->
  da ++ 36%N :: r1 = db ++ 36%N :: r2 -> da = db.
Proof.
  intros Ha. revert db. induction Ha as [|a da Hne _ IH]; intros db Hb E.
  - destruct Hb as [|b db Hb _]; [reflexivity|].
    simpl in E. injection E as E _. congruence.
  - destruct Hb as [|b db Hb Hdb].
    + simpl in E. injection E as E _. congruence.
    + simpl in E. injection E as -> E. f_equal. now apply IH.
Qed.

(** At one place of a text at most one numbered tag starts. *)
Lemma numbered_tag_unique (a b : N) (x : pystr) :
  starts_with (numbered_tag a) x = true ->
  starts_with (numbered_tag b) x = true -> a = b.
Proof.
  rewrite !starts_with_prefix. unfold numbered_tag.
  intros [r1 ->] [r2 E].
  rewrite <- !app_assoc in E. apply app_inv_head in E.
  apply decimal_inj.
  apply (digits_then_dollar _ _ r1 r2); try apply uint_codes_digits.
  exact E.
Qed.

Lemma numbered_tag_nonempty (a : N) : numbered_tag a <> [].
Proof. discriminate. Qed.

(** Numbered tags with [n] successive counters, all of which occur in
    [safe], start at [n] different places of [safe]. *)
Lemma numbered_tags_bounded (safe : pystr) (c : N) (n : nat) :
  (forall k, (1 <= k <= n)%nat ->
     contains (numbered_tag (c + N.of_nat k)) safe = true) ->
  (n <= length safe)%nat.
Proof.
  intros Hall.
  set (f := fun k => find_pos (numbered_tag (c + N.of_nat k)) safe).
  assert (Hnd : NoDup (f <$> seq 1 n)).
  { apply NoDup_fmap_2_strong; [|apply NoDup_seq].
    intros k1 k2 H1%elem_of_seq H2%elem_of_seq E. unfold f in E.
    assert (H1' : (1 <= k1 <= n)%nat) by lia.
    assert (H2' : (1 <= k2 <= n)%nat) by lia.
    destruct (find_pos_found _ safe (numbered_tag_nonempty _) (Hall k1 H1'))
      as [_ S1].
    destruct (find_pos_found _ safe (numbered_tag_nonempty _) (Hall k2 H2'))
      as [_ S2].
    rewrite E in S1.
    pose proof (numbered_tag_unique _ _ _ S1 S2). lia. }
  assert (Hsub : f <$> seq 1 n ⊆+ seq 0 (length safe)).
  { apply NoDup_submseteq; [exact Hnd|].
    intros x Hx. apply list_elem_of_fmap in Hx as (k & -> & Hk%elem_of_seq).
    apply elem_of_seq. unfold f.
    assert (Hk' : (1 <= k <= n)%nat) by lia.
    destruct (find_pos_found _ safe (numbered_tag_nonempty _) (Hall k Hk'))
      as [Hlt _]. lia. }
  apply submseteq_length in Hsub.
  rewrite length_fmap, !length_seq in Hsub. exact Hsub.
Qed.

Lemma pick_tag_fresh (fuel : nat) (safe tag : pystr) (c : N) (tag' : pystr) :
  pick_tag fuel safe tag c = Some tag' -> contains tag' safe = false.
Proof.
  revert tag c. induction fuel as [|fuel IH]; intros tag c; simpl;
    destruct (contains tag safe) eqn:E; try discriminate;
    try (intros [= <-]; exact E).
  apply IH.
Qed.

Lemma pick_tag_starved (fuel : nat) (safe tag : pystr) (c : N) :
  pick_tag fuel safe tag c = None ->
  forall k, (1 <= k <= fuel)%nat ->
    contains (numbered_tag (c + N.of_nat k)) safe = true.
Proof.
  revert tag c. induction fuel as [|fuel IH]; intros tag c; simpl.
  - intros _ k Hk. lia.
  - destruct (contains tag safe); [|discriminate].
    intros H k Hk.
    destruct (Nat.eq_dec k 1%nat) as [->|Hne].
    + change (c + N.of_nat 1)%N with (c + 1)%N.
      destruct fuel; simpl in H;
        destruct (contains (numbered_tag (c + 1)) safe) eqn:E;
        try discriminate; reflexivity.
    + replace (c + N.of_nat k)%N with (c + 1 + N.of_nat (k - 1))%N by lia.
      apply (IH _ _ H). lia.
Qed.

(** The tag loop of the image script ends within [len(safe) + 1]
    iterations, on a tag that does not occur in [safe]. *)
Lemma pick_tag_total (fuel : nat) (safe : pystr) :
  (length safe < fuel)%nat ->
  exists tag, pick_tag fuel safe base_tag 0 = Some tag
              /\ contains tag safe = false.
Proof.
  intros Hf. destruct (pick_tag fuel safe base_tag 0) as [tag|] eqn:E.
  - exists tag. split; [reflexivity|]. exact (pick_tag_fresh _ _ _ _ _ E).
  - pose proof (numbered_tags_bounded safe 0 fuel
                  (pick_tag_starved _ _ _ _ E)). lia.
Qed.

End QuotingFacts.

Section QuotingClaims.

Lemma normalize_length (s : pystr) :
  (length (normalize_line_endings_spec s) <= length s)%nat.
Proof.
  remember (length s) as n eqn:Hn.
  assert (Hle : (length s <= n)%nat) by lia.
  rewrite Hn. clear Hn.
  revert s Hle. induction n as [|n IH]; intros s Hle.
  - destruct s; [simpl; lia|simpl in Hle; lia].
  - destruct s as [|c r]; [simpl; lia|]. simpl in Hle.
    destruct (N.eq_dec c 13%N) as [->|Hc].
    + destruct r as [|b r]; [simpl; lia|].
      destruct (N.eq_dec b 10%N) as [->|Hb].
      * rewrite normalize_cr_lf. simpl in *.
        pose proof (IH r ltac:(lia)). lia.
      * rewrite normalize_cr by (simpl; congruence).
        pose proof (IH (b :: r) ltac:(simpl in *; lia)). simpl in *. lia.
    + rewrite normalize_other by assumption.
      pose proof (IH r ltac:(lia)). simpl. lia.
Qed.

Lemma sanitize_text_length (v : pystr) :
  (length (sanitize_text (Some v)) <= length v)%nat.
Proof.
  rewrite sanitize_text_spec_form.
  etransitivity; [apply length_filter|].
  etransitivity; [apply normalize_length|]. apply length_filter.
Qed.

(** The image script: with fuel for [len(safe) + 1] iterations
    [sql_literal] returns, and its tag does not occur in the content. *)
Lemma sql_literal_images_total (fuel : nat) (value : option pystr) :
  (length (sanitize_text value) < fuel)%nat ->
  exists tag,
    sql_literal_images_parts fuel value = Some (tag, sanitize_text value)
    /\ sql_literal_images fuel value
       = Some (tag ++ sanitize_text value ++ tag)
    /\ contains tag (sanitize_text value) = false.
Proof.
  intros Hf. unfold sql_literal_images, sql_literal_images_parts.
  destruct (pick_tag_total fuel (sanitize_text value) Hf) as (tag & E & Hfresh).
  exists tag. rewrite E. simpl. auto.
Qed.

(** C1, on the code.  The image script does what the claim says: for
    every input its loop ends, on a tag that does not occur in the
    sanitized content.  The PDF script does not: it tries [$adamus$], then
    [$adamus_text$], and takes [$adamus_chunk$] without looking for it in
    the content; on a text that holds all three the literal is wrapped in
    a tag that occurs inside it. *)
Theorem sql_literal_pdf_collision :
  (forall value : option pystr,
     exists tag,
       sql_literal_images_parts (S (length (sanitize_text value))) value
       = Some (tag, sanitize_text value)
       /\ contains tag (sanitize_text value) = false)
  /\ sql_literal_pdf_parts three_tags_text
     = (lit "$adamus_chunk$", three_tags_text)
  /\ contains (lit "$adamus_chunk$") three_tags_text = true
  /\ sql_literal_pdf three_tags_text
     = lit "$adamus_chunk$" ++ three_tags_text ++ lit "$adamus_chunk$".
Proof.
  split; [|repeat split].
  intros value.
  destruct (sql_literal_images_total (S (length (sanitize_text value))) value)
    as (tag & E & _ & Hfresh); [lia|].
  now exists tag.
Qed.

Example sql_literal_images_escalates :
  sql_literal_images 3 (Some (lit "a $adamus$ b $adamus_1$ c"))
  = Some (lit "$adamus_2$" ++ lit "a $adamus$ b $adamus_1$ c" ++ lit "$adamus_2$").
Proof. reflexivity. Qed.

End QuotingClaims.

(** ** The drivers *)

Section DriverFacts.
Variable w : World.

Lemma calls_of_app (t1 t2 : trace) :
  calls_of (t1 ++ t2) = calls_of t1 ++ calls_of t2.
Proof.
  induction t1 as [|[pg e] t1 IH]; [reflexivity|].
  destruct e; simpl; now rewrite IH.
Qed.

Lemma retry_events_calls pg q backoff attempt codes :
  calls_of (retry_events pg q backoff attempt codes) = [].
Proof.
  revert attempt. induction codes as [|c codes IH]; intros attempt; simpl; auto.
Qed.

Lemma retry_events_own pg q backoff attempt codes :
  Forall (fun ev => fst ev = pg) (retry_events pg q backoff attempt codes).
Proof.
  revert attempt. induction codes as [|c codes IH]; intros attempt; simpl;
    repeat constructor; auto.
Qed.

Lemma exn_of_net_caught (f : net_failure) : is_Exception (exn_of_net f) = true.
Proof. now destruct f. Qed.

Lemma exn_of_write_caught (f : write_failure) :
  is_Exception (exn_of_write f) = true.
Proof. now destruct f. Qed.

(** A call of [sql_query] with the defaults returns a body or raises an
    [Exception]; it records one call and only events of the current page. *)
Lemma sql_query_default_result (q : Query) (pg : option Z) (t : trace) :
  exists r new,
    sql_query_default w q pg t = (r, t ++ new)
    /\ calls_of new = [q]
    /\ Forall (fun ev => fst ev = pg) new
    /\ ((exists body, r = Ok (Some body))
        \/ (exists e, r = Raise e /\ is_Exception e = true)).
Proof.
  destruct (sql_query_shape w q 5 1.5 pg t)
    as (codes & o & _ & _ & _ & Htr & Hres & _);
    [lia|apply default_sleeps_accepted|].
  fold (sql_query_default w q) in Htr, Hres.
  destruct (sql_query_default w q pg t) as [r t'] eqn:E. simpl in Htr, Hres.
  subst t' r.
  exists (result_of_outcome o),
    ((pg, EvSqlQuery q) :: retry_events pg q 1.5 0 codes
       ++ [(pg, EvUrlopen q o)]).
  split; [reflexivity|]. split; [|split].
  - simpl. now rewrite calls_of_app, retry_events_calls.
  - constructor; [reflexivity|]. apply Forall_app. split.
    + apply retry_events_own.
    + now repeat constructor.
  - destruct o as [body|f]; simpl; [left; eauto|right].
    eexists; split; [reflexivity|apply exn_of_net_caught].
Qed.

Lemma ascii_fallback_length (chunk : pystr) :
  (length (ascii_fallback chunk) <= length chunk)%nat.
Proof.
  unfold ascii_fallback.
  pose proof (strip_length (filter (fun c => (c <? 128)%N) chunk)) as H.
  pose proof (length_filter (fun c => (c <? 128)%N) chunk) as H'.
  unfold len in H. lia.
Qed.

Lemma sql_literal_images_some (fuel : nat) (v : pystr) :
  (length v < fuel)%nat -> exists l, sql_literal_images fuel (Some v) = Some l.
Proof.
  intros Hf.
  destruct (sql_literal_images_total fuel (Some v)) as (tag & _ & E & _).
  - pose proof (sanitize_text_length v). lia.
  - eauto.
Qed.

Lemma print_accepted (m : Msg) (pg : option Z) (t : trace) :
  stdout_accepts w -> print w m pg t = (Ok tt, t ++ [(pg, EvPrint m)]).
Proof. intros H. unfold print. now rewrite H. Qed.

(** One iteration of the chunk loop of the image driver, on a standard
    output that takes every line, never raises. *)
Lemma insert_chunk_images_step (fuel : nat) (material_id page_id : pystr)
    (idx c_idx : Z) (chunk : pystr) (pg : option Z) (t : trace) :
  stdout_accepts w -> (length chunk < fuel)%nat ->
  exists new,
    insert_chunk_images w fuel material_id page_id idx c_idx chunk pg t
    = (Ok tt, t ++ new)
    /\ Forall (fun ev => fst ev = pg) new
    /\ chunk_inserted w fuel material_id page_id idx pg c_idx chunk t new.
Proof.
  intros Hout Hf.
  destruct (sql_literal_images_some fuel chunk Hf) as [chunk_lit Hl].
  destruct (sql_literal_images_some fuel (ascii_fallback chunk)) as [fb_lit Hfb].
  { pose proof (ascii_fallback_length chunk). lia. }
  unfold insert_chunk_images. rewrite Hl.
  change (sleep 0.1) with (emit (EvSleep 0.1)).
  unfold mbind, M_bind, lift, try_except, emit.
  destruct (sql_query_default_result
              (QInsertChunk material_id page_id c_idx chunk_lit) pg t)
    as (r1 & new1 & E1 & Hc1 & Ho1 & Hr1).
  rewrite E1.
  destruct Hr1 as [[body ->]|(e & -> & He)].
  - exists (new1 ++ [(pg, EvSleep 0.1)]). rewrite <- app_assoc.
    split; [reflexivity|]. split.
    + apply Forall_app. split; [exact Ho1|now repeat constructor].
    + eapply chunk_accepted; eauto.
  - rewrite He. rewrite !(print_accepted _ _ _ Hout).
    fold (failure_lines pg idx c_idx chunk e).
    assert (Hlines : Forall (fun ev : option Z * event => fst ev = pg)
                       (failure_lines pg idx c_idx chunk e))
      by (now repeat constructor).
    destruct (truthy (ascii_fallback chunk)
              && bool_decide (ascii_fallback chunk <> chunk)) eqn:G.
    + rewrite Hfb.
      match goal with
      | |- context [sql_query_default w ?q pg ?t0] =>
          destruct (sql_query_default_result q pg t0)
            as (r2 & new2 & E2 & Hc2 & Ho2 & Hr2)
      end.
      rewrite E2.
      assert (Ht : ((t ++ new1) ++ [(pg, EvPrint (MsgChunkFailed idx c_idx e))])
                     ++ [(pg, EvPrint (MsgPreview
                                         (replace [10%N] [32%N]
                                            (slice chunk 0 200))))]
                   = t ++ new1 ++ failure_lines pg idx c_idx chunk e)
        by (unfold failure_lines; now rewrite <- !app_assoc).
      rewrite Ht in E2 |- *.
      destruct Hr2 as [[body ->]|(e2 & -> & He2)].
      * rewrite (print_accepted _ _ _ Hout).
        exists (new1 ++ failure_lines pg idx c_idx chunk e ++ new2
                ++ [(pg, EvSleep 0.1); (pg, EvPrint (MsgFallbackOk idx c_idx))]).
        split; [|split].
        -- f_equal. rewrite <- !app_assoc. reflexivity.
        -- repeat (apply Forall_app; split); try assumption.
           now repeat constructor.
        -- eapply fallback_accepted; eauto.
      * rewrite He2. rewrite (print_accepted _ _ _ Hout).
        exists (new1 ++ failure_lines pg idx c_idx chunk e ++ new2
                ++ [(pg, EvPrint (MsgFallbackFailed idx c_idx e2))]).
        split; [|split].
        -- f_equal. rewrite <- !app_assoc. reflexivity.
        -- repeat (apply Forall_app; split); try assumption.
           now repeat constructor.
        -- eapply fallback_failed; eauto.
    + exists (new1 ++ failure_lines pg idx c_idx chunk e).
      split; [|split].
      * unfold mret, M_ret. f_equal. unfold failure_lines.
        rewrite <- !app_assoc. reflexivity.
      * apply Forall_app. now split.
      * eapply chunk_failed; eauto.
Qed.

Lemma insert_chunks_images_loop (fuel : nat) (material_id page_id : pystr)
    (idx : Z) (chunks : list pystr) (c_idx : Z) (pg : option Z) (t : trace) :
  stdout_accepts w ->
  Forall (fun chunk : pystr => (length chunk < fuel)%nat) chunks ->
  exists new,
    for_enumerate c_idx chunks
      (insert_chunk_images w fuel material_id page_id idx) pg t
    = (Ok tt, t ++ new)
    /\ Forall (fun ev => fst ev = pg) new
    /\ chunks_inserted w fuel material_id page_id idx pg c_idx chunks t
         (t ++ new).
Proof.
  intros Hout Hall. revert c_idx t.
  induction Hall as [|chunk chunks Hc _ IH]; intros c_idx t.
  - exists []. rewrite app_nil_r. repeat split; constructor.
  - cbn [for_enumerate]. unfold mbind, M_bind.
    destruct (insert_chunk_images_step fuel material_id page_id idx c_idx
                chunk pg t Hout Hc)
      as (new1 & E & Ho & Hins1).
    rewrite E.
    destruct (IH (c_idx + 1) (t ++ new1)) as (new2 & E2 & Ho2 & Hins).
    rewrite E2. exists (new1 ++ new2). rewrite app_assoc.
    split; [reflexivity|]. split; [now apply Forall_app|].
    econstructor; eauto.
Qed.

End DriverFacts.

Section ChunkInsertClaims.

(** C3 as stated fails.  In the PDF driver nothing surrounds the insert:
    the first failure ends the chunk loop (and the run); the second chunk
    is never sent.  In the image driver a failed chunk whose text is ASCII
    already is not retried: one call, no fallback.  And in the image driver
    the failure of an insert does end the run when the lines that report
    it cannot be printed: lines 291-292 stand in the handler, outside the
    inner [try]; here the standard output takes ASCII only, the preview of
    the chunk cannot be encoded, and the second chunk is never sent. *)
Lemma chunk_insert_no_retry :
  for_enumerate 1 [lit "a"; lit "b"]
    (insert_chunk_pdf rejecting_world (lit "m") (lit "p")) None []
  = (Raise (HTTPError 400),
     [(None, EvSqlQuery (QInsertChunk (lit "m") (lit "p") 1
                           (sql_literal_pdf (lit "a"))));
      (None, EvUrlopen (QInsertChunk (lit "m") (lit "p") 1
                          (sql_literal_pdf (lit "a")))
               (Failed (NetHTTP 400)))])
  /\ fst (insert_chunk_images rejecting_world 4 (lit "m") (lit "p") 1 1
            (lit "abc") None [])
     = Ok tt
  /\ calls_of (snd (insert_chunk_images rejecting_world 4 (lit "m") (lit "p")
                      1 1 (lit "abc") None []))
     = [QInsertChunk (lit "m") (lit "p") 1
          (lit "$adamus$" ++ lit "abc" ++ lit "$adamus$")]
  /\ for_enumerate 1 [[233; 116; 233]%N; lit "b"]
       (insert_chunk_images ascii_stdout_world 6 (lit "m") (lit "p") 1) None []
     = (Raise UnicodeEncodeError,
        [(None, EvSqlQuery (QInsertChunk (lit "m") (lit "p") 1
                              (lit "$adamus$" ++ [233; 116; 233]%N
                               ++ lit "$adamus$")));
         (None, EvUrlopen (QInsertChunk (lit "m") (lit "p") 1
                             (lit "$adamus$" ++ [233; 116; 233]%N
                              ++ lit "$adamus$"))
                  (Failed (NetHTTP 400)));
         (None, EvPrint (MsgChunkFailed 1 1 (HTTPError 400)))]).
Proof. repeat split. Qed.

(** C3, amended (image driver).  On a standard output that takes every
    line, whatever the services answer, the chunk loop of the image driver
    runs to its end and returns normally: every chunk in turn is passed to
    [sql_query], and a chunk whose insert raised is passed once more, with
    its content reduced to ASCII and stripped, exactly when that content is
    not empty and differs from the chunk (line 294).  A failure of the
    insert is caught and printed with its exception; after a fallback the
    line printed last reports how the fallback ended: "ok" when its call
    returned, "failed", with the exception, when its call raised.  No
    failure of an insert ends the loop. *)
Theorem chunk_insert_failure_is_local (w : World) (fuel : nat)
    (material_id page_id : pystr) (idx : Z) (chunks : list pystr)
    (pg : option Z) (t : trace) :
  stdout_accepts w ->
  Forall (fun chunk : pystr => (length chunk < fuel)%nat) chunks ->
  exists t',
    for_enumerate 1 chunks
      (insert_chunk_images w fuel material_id page_id idx) pg t
    = (Ok tt, t')
    /\ chunks_inserted w fuel material_id page_id idx pg 1 chunks t t'.
Proof.
  intros Hout Hall.
  destruct (insert_chunks_images_loop w fuel material_id page_id idx chunks 1
              pg t Hout Hall) as (new & E & _ & Hins).
  eauto.
Qed.

Lemma chunk_insert_failure_is_local_witness :
  stdout_accepts rejecting_world
  /\ Forall (fun chunk : pystr => (length chunk < 6)%nat)
       [lit "abc"; [233; 116; 233]%N]
  /\ exists t',
       for_enumerate 1 [lit "abc"; [233; 116; 233]%N]
         (insert_chunk_images rejecting_world 6 (lit "m") (lit "p") 1) None []
       = (Ok tt, t')
       /\ chunks_inserted rejecting_world 6 (lit "m") (lit "p") 1 None 1
            [lit "abc"; [233; 116; 233]%N] [] t'.
Proof.
  assert (H0 : stdout_accepts rejecting_world) by (intros t m; reflexivity).
  assert (H : Forall (fun chunk : pystr => (length chunk < 6)%nat)
                [lit "abc"; [233; 116; 233]%N])
    by (repeat constructor).
  split; [exact H0|]. split; [exact H|].
  exact (chunk_insert_failure_is_local rejecting_world 6 (lit "m") (lit "p")
           1 [lit "abc"; [233; 116; 233]%N] None [] H0 H).
Defined.

(** The events of the second chunk of the run above: the insert fails, the
    two lines are printed, the fallback ["t"] is sent and fails, and that
    failure is printed. *)
Example chunk_insert_fallback_tried :
  insert_chunk_images rejecting_world 6 (lit "m") (lit "p") 1 2
    [233; 116; 233]%N None []
  = (Ok tt,
     [(None, EvSqlQuery (QInsertChunk (lit "m") (lit "p") 2
                           (lit "$adamus$" ++ [233; 116; 233]%N
                            ++ lit "$adamus$")));
      (None, EvUrlopen (QInsertChunk (lit "m") (lit "p") 2
                          (lit "$adamus$" ++ [233; 116; 233]%N
                           ++ lit "$adamus$"))
               (Failed (NetHTTP 400)));
      (None, EvPrint (MsgChunkFailed 1 2 (HTTPError 400)));
      (None, EvPrint (MsgPreview [233; 116; 233]%N));
      (None, EvSqlQuery (QInsertChunk (lit "m") (lit "p") 2
                           (lit "$adamus$" ++ lit "t" ++ lit "$adamus$")));
      (None, EvUrlopen (QInsertChunk (lit "m") (lit "p") 2
                          (lit "$adamus$" ++ lit "t" ++ lit "$adamus$"))
               (Failed (NetHTTP 400)));
      (None, EvPrint (MsgFallbackFailed 1 2 (HTTPError 400)))]).
Proof. reflexivity. Qed.

End ChunkInsertClaims.

Section OwnEvents.
Variable w : World.

Lemma own_ret {A} (a : A) : own (mret a).
Proof. intros pg t. exists []. now rewrite app_nil_r. Qed.

Lemma own_raise {A} (e : exn) : own (@raise A e).
Proof. intros pg t. exists []. now rewrite app_nil_r. Qed.

Lemma own_lift {A} (o : option A) : own (lift o).
Proof. intros pg t. exists []. rewrite app_nil_r. now destruct o. Qed.

Lemma own_emit (e : event) : own (emit e).
Proof. intros pg t. exists [(pg, e)]. now repeat constructor. Qed.

Lemma own_print (m : Msg) : own (print w m).
Proof.
  intros pg t. unfold print. destruct (stdout w t m).
  - exists []. now rewrite app_nil_r.
  - exists [(pg, EvPrint m)]. now repeat constructor.
Qed.

Lemma own_sleep (seconds : float) : own (sleep seconds).
Proof.
  unfold sleep. destruct (sleep_error seconds);
    [apply own_raise|apply own_emit].
Qed.

Lemma own_bind {A B} (m : M A) (f : A -> M B) :
  own m -> (forall a, own (f a)) -> own (m ≫= f).
Proof.
  intros Hm Hf pg t. unfold mbind, M_bind.
  destruct (Hm pg t) as (new1 & E1 & H1).
  destruct (m pg t) as [[a|e|] t1]; simpl in E1; subst t1;
    try (exists new1; now split).
  destruct (Hf a pg (t ++ new1)) as (new2 & E2 & H2).
  exists (new1 ++ new2). rewrite E2, app_assoc.
  split; [reflexivity|now apply Forall_app].
Qed.

Lemma own_try_except {A} (body : M A) (handler : exn -> M A) :
  own body -> (forall e, own (handler e)) -> own (try_except body handler).
Proof.
  intros Hb Hh pg t. unfold try_except.
  destruct (Hb pg t) as (new1 & E1 & H1).
  destruct (body pg t) as [[a|e|] t1]; simpl in E1; subst t1;
    try (exists new1; now split).
  destruct (is_Exception e); [|exists new1; now split].
  destruct (Hh e pg (t ++ new1)) as (new2 & E2 & H2).
  exists (new1 ++ new2). rewrite E2, app_assoc.
  split; [reflexivity|now apply Forall_app].
Qed.

Lemma own_try_except_of {A} (caught : exn -> bool) (body : M A)
    (handler : exn -> M A) :
  own body -> (forall e, own (handler e)) ->
  own (try_except_of caught body handler).
Proof.
  intros Hb Hh pg t. unfold try_except_of.
  destruct (Hb pg t) as (new1 & E1 & H1).
  destruct (body pg t) as [[a|e|] t1]; simpl in E1; subst t1;
    try (exists new1; now split).
  destruct (caught e); [|exists new1; now split].
  destruct (Hh e pg (t ++ new1)) as (new2 & E2 & H2).
  exists (new1 ++ new2). rewrite E2, app_assoc.
  split; [reflexivity|now apply Forall_app].
Qed.

Lemma own_for_enumerate {A} (body : Z -> A -> M unit) (l : list A) (start : Z) :
  (forall i x, own (body i x)) -> own (for_enumerate start l body).
Proof.
  intros Hb. revert start. induction l as [|x l IH]; intros start; simpl.
  - apply own_ret.
  - apply own_bind; [apply Hb|]. intros _. apply IH.
Qed.

Lemma own_sql_query_default (q : Query) : own (sql_query_default w q).
Proof.
  intros pg t.
  destruct (sql_query_default_result w q pg t) as (r & new & E & _ & Ho & _).
  exists new. now rewrite E.
Qed.

Lemma own_query_rows (q : Query) : own (query_rows w q).
Proof.
  apply own_bind; [apply own_sql_query_default|].
  intros [body|]; [apply own_ret|apply own_raise].
Qed.

Lemma own_first_id (rows : Body) : own (first_id rows).
Proof. destruct rows; [apply own_raise|apply own_ret]. Qed.

Lemma own_subscript (value : json) (key : pystr) : own (subscript value key).
Proof.
  destruct value; try apply own_raise. simpl.
  destruct (members_get key members); [apply own_ret|apply own_raise].
Qed.

Lemma own_subscript_0 (value : json) : own (subscript_0 value).
Proof.
  destruct value as [| | |[|c s]|[|v items]|members];
    first [apply own_raise|apply own_ret].
Qed.

Lemma own_vision_request (img : Image) : own (vision_request w img).
Proof.
  intros pg t. unfold vision_request. cbv zeta.
  exists [(pg, EvVision img (vision w t img))].
  split; [|now repeat constructor].
  destruct (vision w t img) as [[data|]|f]; reflexivity.
Qed.

Lemma own_call_vision (img : Image) : own (call_vision w img).
Proof.
  unfold call_vision.
  apply own_bind.
  { intros pg t. exists []. rewrite app_nil_r. unfold do_read_bytes.
    now destruct (read_bytes w t img). }
  intros _. apply own_bind.
  { apply own_try_except_of; [apply own_vision_request|].
    intros e. apply own_raise. }
  intros data. apply own_bind.
  { apply own_try_except_of; [|intros e; apply own_ret].
    apply own_bind; [apply own_subscript|]. intros responses.
    apply own_bind; [apply own_subscript_0|]. intros response.
    apply own_bind; [apply own_subscript|]. intros annotation.
    apply own_subscript. }
  intros text. destruct text; first [apply own_raise|apply own_ret].
Qed.

Lemma own_insert_chunk_images fuel material_id page_id idx c_idx chunk :
  own (insert_chunk_images w fuel material_id page_id idx c_idx chunk).
Proof.
  unfold insert_chunk_images.
  apply own_bind; [apply own_lift|]. intros chunk_lit.
  apply own_try_except.
  - apply own_bind; [apply own_sql_query_default|]. intros _. apply own_sleep.
  - intros exc. apply own_bind; [apply own_print|]. intros _.
    apply own_bind; [apply own_print|]. intros _.
    destruct (_ && _); [|apply own_ret].
    apply own_try_except; [|intros e; apply own_print].
    apply own_bind; [apply own_lift|]. intros fallback_lit.
    apply own_bind; [apply own_sql_query_default|]. intros _.
    apply own_bind; [apply own_sleep|]. intros _. apply own_print.
Qed.

Lemma own_insert_chunk_pdf material_id page_id c_idx chunk :
  own (insert_chunk_pdf w material_id page_id c_idx chunk).
Proof.
  unfold insert_chunk_pdf.
  apply own_bind; [apply own_sql_query_default|]. intros _. apply own_sleep.
Qed.

(** The events of a loop are the events of its iterations. *)
Lemma for_enumerate_events {A} (R : Z -> A -> option Z * event -> Prop)
    (body : Z -> A -> M unit) :
  (forall i x pg t, exists new,
      snd (body i x pg t) = t ++ new /\ Forall (R i x) new) ->
  forall (l : list A) (start : Z) pg t, exists new,
    snd (for_enumerate start l body pg t) = t ++ new
    /\ Forall (fun ev => exists (k : nat) x,
                 l !! k = Some x /\ R (start + Z.of_nat k) x ev) new.
Proof.
  intros Hb l. induction l as [|x l IH]; intros start pg t; simpl.
  - exists []. rewrite app_nil_r. split; [reflexivity|constructor].
  - unfold mbind, M_bind.
    destruct (Hb start x pg t) as (new1 & E1 & H1).
    assert (H1' : Forall (fun ev => exists (k : nat) x0,
                            (x :: l) !! k = Some x0
                            /\ R (start + Z.of_nat k) x0 ev) new1).
    { eapply Forall_impl; [exact H1|]. intros ev Hev. exists 0%nat, x.
      split; [reflexivity|]. now rewrite Z.add_0_r. }
    destruct (body start x pg t) as [[[]|e|] t1]; simpl in E1; subst t1;
      try (exists new1; now split).
    destruct (IH (start + 1) pg (t ++ new1)) as (new2 & E2 & H2).
    exists (new1 ++ new2). rewrite E2, app_assoc. split; [reflexivity|].
    apply Forall_app. split; [exact H1'|].
    eapply Forall_impl; [exact H2|]. intros ev (k & x0 & Hk & Hev).
    exists (S k), x0. split; [exact Hk|].
    replace (start + Z.of_nat (S k)) with (start + 1 + Z.of_nat k) by lia.
    exact Hev.
Qed.

End OwnEvents.

Section ReconcileFacts.
Variable w : World.
Variable mat : Material.
Variable fuel : nat.

Lemma page_body_images_events (force_pages : gset Z) (chunk_max chunk_overlap : Z)
    (material_id : pystr) (by_page : gmap Z Row) (by_uri : gmap pystr Row)
    (total idx : Z) (img : Image) (pg : option Z) (t : trace) :
  exists new,
    snd (page_body_images w fuel force_pages chunk_max chunk_overlap
           material_id by_page by_uri total idx img pg t) = t ++ new
    /\ Forall (fun ev =>
                 fst ev = Some idx
                 /\ (skip_images force_pages by_page by_uri idx
                       (lit "file://" ++ img_posix img) = true ->
                     is_print (snd ev) = true)) new.
Proof.
  unfold page_body_images, in_page.
  destruct (skip_images force_pages by_page by_uri idx
              (lit "file://" ++ img_posix img)) eqn:Es.
  - unfold mbind, M_bind, print.
    destruct (stdout w t _).
    { exists []. rewrite app_nil_r. split; [reflexivity|constructor]. }
    destruct (stdout w _ _).
    { eexists. split; [reflexivity|now repeat constructor]. }
    eexists. rewrite <- app_assoc. split; [reflexivity|now repeat constructor].
  - match goal with
    | |- context [snd (?m (Some idx) t)] =>
        assert (Hown : own m)
    end.
    { apply own_bind; [apply own_print|]. intros _.
      apply own_bind; [apply own_call_vision|]. intros text.
      apply own_bind; [apply own_sleep|]. intros _.
      apply own_bind; [apply own_lift|]. intros text_lit.
      apply own_bind; [apply own_query_rows|]. intros page_res.
      apply own_bind; [apply own_first_id|]. intros page_id.
      apply own_bind; [apply own_sql_query_default|]. intros _.
      apply own_bind; [apply own_sleep|]. intros _.
      apply own_bind; [apply own_lift|]. intros chunks.
      apply own_for_enumerate. intros i x. apply own_insert_chunk_images. }
    destruct (Hown (Some idx) t) as (new & E & Hnew).
    exists new. split; [exact E|].
    eapply Forall_impl; [exact Hnew|]. simpl. intros ev ->. split; [reflexivity|].
    discriminate.
Qed.

Lemma page_body_pdf_events (material_id : pystr) (by_page : gmap Z Row)
    (idx : Z) (text : pystr) (pg : option Z) (t : trace) :
  exists new,
    snd (page_body_pdf w mat fuel material_id by_page idx text pg t) = t ++ new
    /\ Forall (fun ev =>
                 fst ev = Some idx /\ has_chunks (by_page !! idx) = false) new.
Proof.
  unfold page_body_pdf, in_page.
  destruct (has_chunks (by_page !! idx)) eqn:Es.
  - exists []. rewrite app_nil_r. split; [reflexivity|constructor].
  - match goal with
    | |- context [snd (?m (Some idx) t)] =>
        assert (Hown : own m)
    end.
    { apply own_bind; [apply own_query_rows|]. intros page_res.
      apply own_bind; [apply own_first_id|]. intros page_id.
      apply own_bind; [apply own_sql_query_default|]. intros _.
      apply own_bind; [apply own_sleep|]. intros _.
      apply own_bind; [apply own_lift|]. intros chunks.
      apply own_for_enumerate. intros i x. apply own_insert_chunk_pdf. }
    destruct (Hown (Some idx) t) as (new & E & Hnew).
    exists new. split; [exact E|].
    eapply Forall_impl; [exact Hnew|]. simpl. intros ev ->. now split.
Qed.

(** In the image driver the iteration of a page that line 247 skips adds
    two printed lines and nothing else; no other iteration adds an event
    under that page's index. *)
Lemma reconcile_images_skips (force_pages : gset Z) (chunk_max chunk_overlap : Z)
    (material_id : pystr) (existing_pages : Body) (images : list Image)
    (idx : Z) (img : Image) (pg : option Z) (t : trace) :
  1 <= idx -> images !! Z.to_nat (idx - 1) = Some img ->
  skip_images force_pages (index_by_page existing_pages)
    (index_by_uri existing_pages) idx (lit "file://" ++ img_posix img) = true ->
  exists new,
    snd (reconcile_images w fuel force_pages chunk_max chunk_overlap
           material_id existing_pages images pg t) = t ++ new
    /\ forall e, (Some idx, e) ∈ new -> is_print e = true.
Proof.
  intros Hidx Himg Hskip. unfold reconcile_images. cbv zeta.
  destruct (for_enumerate_events
              (fun i (x : Image) ev =>
                 fst ev = Some i
                 /\ (skip_images force_pages (index_by_page existing_pages)
                       (index_by_uri existing_pages) i
                       (lit "file://" ++ img_posix x) = true ->
                     is_print (snd ev) = true))
              (page_body_images w fuel force_pages chunk_max chunk_overlap
                 material_id (index_by_page existing_pages)
                 (index_by_uri existing_pages) (Z.of_nat (length images)))
              ltac:(intros; apply page_body_images_events)
              images 1 pg t) as (new & E & Hnew).
  exists new. split; [exact E|]. intros e He.
  rewrite Forall_forall in Hnew.
  destruct (Hnew _ He) as (k & x & Hk & Hst & Hpr). simpl in Hst, Hpr.
  assert (k = Z.to_nat (idx - 1)) as -> by (injection Hst; lia).
  rewrite Himg in Hk. injection Hk as <-.
  apply Hpr. replace (1 + Z.of_nat (Z.to_nat (idx - 1))) with idx by lia.
  exact Hskip.
Qed.

(** In the PDF driver a page with stored chunks adds no event at all. *)
Lemma reconcile_pdf_skips (material_id : pystr) (existing_pages : Body)
    (page_texts : list pystr) (idx : Z) (pg : option Z) (t : trace) :
  has_chunks (index_by_page existing_pages !! idx) = true ->
  exists new,
    snd (reconcile_pdf w mat fuel material_id existing_pages page_texts pg t)
    = t ++ new
    /\ forall e, (Some idx, e) ∉ new.
Proof.
  intros Hdone. unfold reconcile_pdf. cbv zeta.
  destruct (for_enumerate_events
              (fun i (x : pystr) ev =>
                 fst ev = Some i
                 /\ has_chunks (index_by_page existing_pages !! i) = false)
              (page_body_pdf w mat fuel material_id
                 (index_by_page existing_pages))
              ltac:(intros; apply page_body_pdf_events)
              page_texts 1 pg t) as (new & E & Hnew).
  exists new. split; [exact E|]. intros e He.
  rewrite Forall_forall in Hnew.
  destruct (Hnew _ He) as (k & x & Hk & Hst & Hno). simpl in Hst.
  injection Hst as Hst. rewrite <- Hst in Hno. congruence.
Qed.

(** The PDF driver extracts the text of every page before it looks at the
    stored pages. *)
Lemma extract_pages_events (pages : list (option pystr)) (page_no : Z)
    (pg : option Z) (t : trace) :
  snd (extract_pages page_no pages pg t)
  = t ++ map (fun i => (pg, EvExtract i))
         (seqZ page_no (Z.of_nat (length pages)))
  /\ exists texts, fst (extract_pages page_no pages pg t) = Ok texts
                   /\ length texts = length pages.
Proof.
  revert page_no t. induction pages as [|page pages IH]; intros page_no t.
  - simpl. rewrite app_nil_r. split; [reflexivity|]. now exists [].
  - cbn [extract_pages]. unfold mbind, M_bind, emit.
    destruct (IH (page_no + 1) (t ++ [(pg, EvExtract page_no)]))
      as (E & texts & Er & Hl).
    destruct (extract_pages (page_no + 1) pages pg
                (t ++ [(pg, EvExtract page_no)])) as [r t'].
    cbn [fst snd] in E, Er. subst r t'. cbn [fst snd mret M_ret]. split.
    + change (length (page :: pages)) with (S (length pages)).
      rewrite (seqZ_cons page_no) by lia. rewrite <- app_assoc.
      replace (Z.pred (Z.of_nat (S (length pages))))
        with (Z.of_nat (length pages)) by lia.
      reflexivity.
    + eexists. split; [reflexivity|]. simpl. now rewrite Hl.
Qed.

End ReconcileFacts.

Section ReconcileClaims.

(** C5 as stated fails for the PDF driver: it extracts the text of every
    page (lines 115-118) before it reads the stored pages.  Here the
    service reports page 1 with three chunks; the run skips the page (it
    sends no statement for it) but has called [extract_text] on it. *)
Lemma pdf_extracts_skipped_page :
  has_chunks (index_by_page [stored_row] !! 1) = true
  /\ fst (main_pdf accepting_world sample_material 0
            [Some (lit " page one ")] None [])
     = Ok tt
  /\ head (snd (main_pdf accepting_world sample_material 0
                  [Some (lit " page one ")] None []))
     = Some (None, EvExtract 1)
  /\ calls_of (snd (main_pdf accepting_world sample_material 0
                      [Some (lit " page one ")] None []))
     = [QSubject (lit "Biologie") (lit "H4");
        QMaterialSelect (lit "local://vakken/biologie-h4");
        QExistingPages (lit "id-1")].
Proof. repeat split; vm_compute; reflexivity. Qed.

(** The record found by page number is the one line 247 looks at, also
    when it has no chunks and the record found by [image_uri] has some: the
    page is then processed. *)
Example existing_by_page_wins :
  let rows :=
    [ {| row_id := lit "a"; row_page_no := 1; row_image_uri := None;
         row_chunk_count := 0 |};
      {| row_id := lit "b"; row_page_no := 7;
         row_image_uri := Some (lit "file:///scans/IMG_1.jpg");
         row_chunk_count := 2 |} ] in
  has_chunks (index_by_uri rows !! lit "file:///scans/IMG_1.jpg") = true
  /\ skip_images ∅ (index_by_page rows) (index_by_uri rows) 1
       (lit "file:///scans/IMG_1.jpg") = false.
Proof. split; vm_compute; reflexivity. Qed.

Lemma skip_images_true (force_pages : gset Z) (by_page : gmap Z Row)
    (by_uri : gmap pystr Row) (idx : Z) (image_uri : pystr) :
  has_chunks (existing_images by_page by_uri idx image_uri) = true ->
  idx ∉ force_pages ->
  skip_images force_pages by_page by_uri idx image_uri = true.
Proof.
  intros H1 H2. unfold skip_images. rewrite H1. simpl.
  now apply bool_decide_eq_true.
Qed.

(** C5, amended.  Image driver: for every input page whose stored record
    (the one found by [page_no], or else the one found by [image_uri]) has
    [chunk_count > 0] and whose index is not in the force set, the
    reconciliation loop makes no OCR call and sends no statement for that
    page; all it does for the page is print two lines.  PDF driver (which
    has no force set and looks up by [page_no] only): for every page whose
    stored record has [chunk_count > 0] the loop does nothing at all; the
    text of the page, like that of every page, was extracted before the
    loop. *)
Theorem skipped_page_untouched :
  (forall (w : World) (fuel : nat) (force_pages : gset Z)
          (chunk_max chunk_overlap : Z) (material_id : pystr)
          (existing_pages : Body) (images : list Image) (idx : Z)
          (img : Image) (pg : option Z) (t : trace),
     1 <= idx -> images !! Z.to_nat (idx - 1) = Some img ->
     has_chunks (existing_images (index_by_page existing_pages)
                   (index_by_uri existing_pages) idx
                   (lit "file://" ++ img_posix img)) = true ->
     idx ∉ force_pages ->
     exists new,
       snd (reconcile_images w fuel force_pages chunk_max chunk_overlap
              material_id existing_pages images pg t) = t ++ new
       /\ forall e, (Some idx, e) ∈ new -> is_print e = true)
  /\ (forall (w : World) (mat : Material) (fuel : nat) (material_id : pystr)
             (existing_pages : Body) (page_texts : list pystr) (idx : Z)
             (pg : option Z) (t : trace),
        has_chunks (index_by_page existing_pages !! idx) = true ->
        exists new,
          snd (reconcile_pdf w mat fuel material_id existing_pages page_texts
                 pg t) = t ++ new
          /\ forall e, (Some idx, e) ∉ new)
  /\ (forall (pages : list (option pystr)) (pg : option Z) (t : trace),
        snd (extract_pages 1 pages pg t)
        = t ++ map (fun i => (pg, EvExtract i))
               (seqZ 1 (Z.of_nat (length pages)))).
Proof.
  split; [|split].
  - intros w fuel force_pages chunk_max chunk_overlap material_id
      existing_pages images idx img pg t Hidx Himg Hdone Hforce.
    apply reconcile_images_skips with (img := img); try assumption.
    now apply skip_images_true.
  - intros. now apply reconcile_pdf_skips.
  - intros. apply extract_pages_events.
Qed.

Lemma skipped_page_untouched_witness :
  (1 <= 1
   /\ [sample_image] !! Z.to_nat (1 - 1) = Some sample_image
   /\ has_chunks (existing_images (index_by_page [stored_row])
                    (index_by_uri [stored_row]) 1
                    (lit "file://" ++ img_posix sample_image)) = true
   /\ (1 ∉ (∅ : gset Z))
   /\ exists new,
        snd (reconcile_images accepting_world 100 ∅ 1200 200 (lit "id-1")
               [stored_row] [sample_image] None []) = [] ++ new
        /\ forall e, (Some 1, e) ∈ new -> is_print e = true)
  /\ (has_chunks (index_by_page [stored_row] !! 1) = true
      /\ exists new,
           snd (reconcile_pdf accepting_world sample_material 0 (lit "id-1")
                  [stored_row] [lit "page one"] None []) = [] ++ new
           /\ forall e, (Some 1, e) ∉ new).
Proof.
  assert (H1 : [sample_image] !! Z.to_nat (1 - 1) = Some sample_image)
    by reflexivity.
  assert (H2 : has_chunks (existing_images (index_by_page [stored_row])
                             (index_by_uri [stored_row]) 1
                             (lit "file://" ++ img_posix sample_image)) = true)
    by (vm_compute; reflexivity).
  assert (H3 : 1 ∉ (∅ : gset Z)) by apply not_elem_of_empty.
  assert (H4 : has_chunks (index_by_page [stored_row] !! 1) = true)
    by (vm_compute; reflexivity).
  destruct skipped_page_untouched as (Himages & Hpdf & _).
  split.
  - split; [lia|]. split; [exact H1|]. split; [exact H2|]. split; [exact H3|].
    apply (Himages accepting_world 100%nat ∅ 1200 200 (lit "id-1")
             [stored_row] [sample_image] 1 sample_image None []);
      [lia|exact H1|exact H2|exact H3].
  - split; [exact H4|].
    apply (Hpdf accepting_world sample_material 0%nat (lit "id-1")
             [stored_row] [lit "page one"] 1 None [] H4).
Defined.

End ReconcileClaims.

(** * Further properties of the code *)

(** ** [strip] *)

Section StripFacts.

Lemma dropwhile_head f (s : pystr) c :
  head (dropwhile f s) = Some c -> f c = false.
Proof.
  induction s as [|a r IH]; simpl; [discriminate|].
  destruct (f a) eqn:E; [exact IH|]. simpl. now intros [= <-].
Qed.

Lemma dropwhile_last f (s : pystr) c :
  last (dropwhile f s) = Some c -> last s = Some c.
Proof.
  induction s as [|a r IH]; simpl; [discriminate|].
  destruct (f a) eqn:E; [|auto]. intros H. specialize (IH H).
  destruct r; [discriminate|exact IH].
Qed.

Lemma dropwhile_elem f (s : pystr) c : c ∈ dropwhile f s -> c ∈ s.
Proof.
  induction s as [|a r IH]; simpl; [auto|].
  destruct (f a); [|auto]. intros H. apply elem_of_cons. right. auto.
Qed.

Lemma last_rev_head (s : pystr) : last (rev s) = head s.
Proof. destruct s as [|a r]; [reflexivity|]. simpl. apply last_snoc. Qed.

Lemma head_rev_last (s : pystr) : head (rev s) = last s.
Proof. rewrite <- (rev_involutive s) at 2. now rewrite last_rev_head. Qed.

(** A stripped string neither starts nor ends with white space. *)
Lemma strip_ends (s : pystr) :
  (forall c, head (strip s) = Some c -> is_space c = false)
  /\ (forall c, last (strip s) = Some c -> is_space c = false).
Proof.
  unfold strip, rstrip, lstrip. split; intros c H.
  - rewrite head_rev_last in H. apply dropwhile_last in H.
    rewrite last_rev_head in H. now apply dropwhile_head in H.
  - rewrite last_rev_head in H. now apply dropwhile_head in H.
Qed.

Lemma strip_idempotent (s : pystr) : strip (strip s) = strip s.
Proof. destruct (strip_ends s). now apply strip_fixed. Qed.

Lemma strip_elem (s : pystr) c : c ∈ strip s -> c ∈ s.
Proof.
  unfold strip, rstrip, lstrip. intros H.
  apply list_elem_of_In, in_rev, list_elem_of_In in H.
  apply dropwhile_elem in H.
  apply list_elem_of_In, in_rev, list_elem_of_In in H.
  now apply dropwhile_elem in H.
Qed.

Lemma strip_Forall (P : N -> Prop) (s : pystr) :
  Forall P s -> Forall P (strip s).
Proof.
  rewrite !Forall_forall. intros H c Hc. apply H. now apply strip_elem.
Qed.

(** [strip] keeps the first character of a string that does not start
    with white space. *)
Lemma strip_head (s : pystr) c :
  head s = Some c -> is_space c = false -> head (strip s) = Some c.
Proof.
  destruct s as [|a r]; [discriminate|]. simpl. intros [= ->] Hc.
  unfold strip, lstrip, rstrip. rewrite dropwhile_id by assumption.
  assert (E : forall l : pystr,
             dropwhile is_space (l ++ [c]) = dropwhile is_space l ++ [c]).
  { induction l as [|b l IH]; simpl; [now rewrite Hc|].
    destruct (is_space b); [exact IH|reflexivity]. }
  simpl rev. rewrite E, rev_app_distr. reflexivity.
Qed.

End StripFacts.

(** ** The environment file *)

Section LoadEnvFacts.

Lemma split_first_spec (sep : N) (s a b : pystr) :
  split_first sep s = Some (a, b) -> s = a ++ sep :: b /\ sep ∉ a.
Proof.
  revert a. induction s as [|c r IH]; intros a; simpl; [discriminate|].
  destruct (N.eqb_spec c sep) as [->|Hne].
  - intros [= <- <-]. split; [reflexivity|apply not_elem_of_nil].
  - destruct (split_first sep r) as [[a' b']|]; [|discriminate].
    intros [= <- <-]. destruct (IH a' eq_refl) as [-> Hn].
    split; [reflexivity|]. intros [?|?]%elem_of_cons; [congruence|auto].
Qed.

(** What a line of the file can add: a stripped key without [=] that does
    not start with [#], and a stripped value. *)
Lemma parse_env_line_entry (line key value : pystr) :
  parse_env_line line = Some (key, value) ->
  strip key = key /\ strip value = value /\ (61%N ∉ key)
  /\ head key <> Some 35%N.
Proof.
  unfold parse_env_line.
  destruct (truthy (strip line)) eqn:Et; [|discriminate]. simpl negb.
  destruct (starts_with (lit "#") (strip line)) eqn:Eh; [discriminate|].
  destruct (contains (lit "=") (strip line)); [|discriminate]. simpl.
  destruct (split_first 61 (strip line)) as [[a b]|] eqn:Es; [|discriminate].
  intros [= <- <-].
  destruct (split_first_spec _ _ _ _ Es) as [El Hn].
  split; [apply strip_idempotent|]. split; [apply strip_idempotent|].
  split; [intros H; apply Hn; now apply strip_elem|].
  destruct a as [|c a'] eqn:Ea; [discriminate|]. intros Hk.
  assert (Hc : is_space c = false).
  { apply (proj1 (strip_ends line)). now rewrite El. }
  rewrite (strip_head (c :: a') c eq_refl Hc) in Hk. injection Hk as ->.
  rewrite El in Eh. discriminate Eh.
Qed.

Lemma load_env_lines_snoc (lines : list pystr) (line : pystr) :
  load_env_lines (lines ++ [line])
  = match parse_env_line line with
    | Some (key, value) => <[key := value]> (load_env_lines lines)
    | None => load_env_lines lines
    end.
Proof. unfold load_env_lines. now rewrite foldl_app. Qed.

Lemma load_env_lines_entries (lines : list pystr) (key value : pystr) :
  load_env_lines lines !! key = Some value ->
  strip key = key /\ strip value = value /\ (61%N ∉ key)
  /\ head key <> Some 35%N.
Proof.
  induction lines as [|line lines IH] using rev_ind.
  - unfold load_env_lines. simpl. now rewrite lookup_empty.
  - rewrite load_env_lines_snoc.
    destruct (parse_env_line line) as [[k v]|] eqn:Ep; [|exact IH].
    destruct (decide (k = key)) as [->|Hne].
    + rewrite lookup_insert_eq. intros [= <-].
      now apply (parse_env_line_entry line).
    + now rewrite lookup_insert_ne.
Qed.

(** Every entry of the environment [load_env] returns has a key and a
    value without white space at either end; the key holds no [=] and does
    not start with [#]. *)
Theorem load_env_entries (content key value : pystr) :
  load_env content !! key = Some value ->
  strip key = key /\ strip value = value /\ (61%N ∉ key)
  /\ head key <> Some 35%N.
Proof. apply load_env_lines_entries. Qed.

(** The last line that defines a key gives its value; a key no line
    defines is absent. *)
Theorem load_env_last_wins (before after : list pystr) (line key value : pystr) :
  parse_env_line line = Some (key, value) ->
  Forall (fun l => forall v, parse_env_line l <> Some (key, v)) after ->
  load_env_lines (before ++ line :: after) !! key = Some value.
Proof.
  intros Hp. induction after as [|l after IH] using rev_ind; intros Hafter.
  - rewrite load_env_lines_snoc, Hp. apply lookup_insert_eq.
  - apply Forall_app in Hafter as [Hafter Hl].
    apply Forall_inv in Hl. specialize (IH Hafter).
    rewrite app_comm_cons, app_assoc, load_env_lines_snoc.
    destruct (parse_env_line l) as [[k v]|] eqn:Ep; [|exact IH].
    rewrite lookup_insert_ne; [exact IH|]. intros ->. now apply (Hl v).
Qed.

End LoadEnvFacts.

Section LoadEnvWitnesses.

Lemma load_env_entries_witness :
  load_env (lit "# keys" ++ [10%N] ++ lit " A = 1 " ++ [10%N] ++ lit "B=x=y")
    !! lit "B" = Some (lit "x=y")
  /\ (strip (lit "B") = lit "B" /\ strip (lit "x=y") = lit "x=y"
      /\ (61%N ∉ lit "B") /\ head (lit "B") <> Some 35%N).
Proof.
  assert (H : load_env (lit "# keys" ++ [10%N] ++ lit " A = 1 " ++ [10%N]
                          ++ lit "B=x=y")
                !! lit "B" = Some (lit "x=y")) by (vm_compute; reflexivity).
  split; [exact H|]. exact (load_env_entries _ _ _ H).
Defined.

Lemma load_env_last_wins_witness :
  parse_env_line (lit "A = 2") = Some (lit "A", lit "2")
  /\ Forall (fun l => forall v, parse_env_line l <> Some (lit "A", v))
       [lit "#A=3"; lit "B=4"]
  /\ load_env_lines ([lit "A=1"] ++ lit "A = 2" :: [lit "#A=3"; lit "B=4"])
       !! lit "A" = Some (lit "2").
Proof.
  assert (H1 : parse_env_line (lit "A = 2") = Some (lit "A", lit "2"))
    by (vm_compute; reflexivity).
  assert (H2 : Forall (fun l => forall v, parse_env_line l <> Some (lit "A", v))
                 [lit "#A=3"; lit "B=4"]).
  { repeat constructor; intros v; vm_compute; discriminate. }
  split; [exact H1|]. split; [exact H2|].
  exact (load_env_last_wins [lit "A=1"] [lit "#A=3"; lit "B=4"] (lit "A = 2")
           (lit "A") (lit "2") H1 H2).
Defined.

End LoadEnvWitnesses.

(** ** [sql_escape] *)

Section SqlEscapeFacts.

Lemma sql_escape_quote (r : pystr) :
  sql_escape (39%N :: r) = 39%N :: 39%N :: sql_escape r.
Proof. reflexivity. Qed.

Lemma sql_escape_other (c : N) (r : pystr) :
  c <> 39%N -> sql_escape (c :: r) = c :: sql_escape r.
Proof.
  intros Hc.
  assert (E : (39 =? c)%N = false) by (apply N.eqb_neq; congruence).
  unfold sql_escape, replace. cbn -[N.eqb]. rewrite E. reflexivity.
Qed.

Lemma unescape_pair (r : pystr) :
  replace [39; 39]%N [39%N] (39%N :: 39%N :: r)
  = 39%N :: replace [39; 39]%N [39%N] r.
Proof. reflexivity. Qed.

Lemma unescape_other (c : N) (r : pystr) :
  c <> 39%N ->
  replace [39; 39]%N [39%N] (c :: r) = c :: replace [39; 39]%N [39%N] r.
Proof.
  intros Hc.
  assert (E : (39 =? c)%N = false) by (apply N.eqb_neq; congruence).
  unfold replace. cbn -[N.eqb]. rewrite E. reflexivity.
Qed.

(** [sql_escape] doubles every apostrophe and changes nothing else:
    replacing each pair of apostrophes by one gives the value back, and the
    result is longer by the number of apostrophes of the value. *)
Theorem sql_escape_round_trip (value : pystr) :
  replace [39; 39]%N [39%N] (sql_escape value) = value
  /\ length (sql_escape value)
     = (length value + length (filter (fun c => (c =? 39)%N) value))%nat.
Proof.
  induction value as [|c r [IH1 IH2]]; [split; reflexivity|].
  destruct (N.eq_dec c 39%N) as [->|Hc].
  - rewrite sql_escape_quote, unescape_pair, IH1. split; [reflexivity|].
    rewrite filter_bool_cons. simpl. rewrite IH2. lia.
  - rewrite sql_escape_other, unescape_other, IH1 by assumption.
    split; [reflexivity|].
    rewrite filter_bool_cons.
    destruct (N.eqb_spec c 39%N); [contradiction|]. simpl. now rewrite IH2.
Qed.

End SqlEscapeFacts.

(** ** The sanitizer, once more *)

Section SanitizerMore.

Lemma normalize_elem (s : pystr) (c : N) :
  c ∈ normalize_line_endings_spec s -> c ∈ s \/ c = 10%N.
Proof.
  remember (length s) as n eqn:Hn.
  assert (Hle : (length s <= n)%nat) by lia. clear Hn.
  revert s Hle. induction n as [|n IH]; intros s Hle.
  - destruct s; [simpl; auto|simpl in Hle; lia].
  - destruct s as [|a r]; [simpl; auto|]. simpl in Hle.
    destruct (N.eq_dec a 13%N) as [->|Ha].
    + destruct r as [|b r].
      * simpl. intros [->|H]%elem_of_cons; [auto|].
        now apply not_elem_of_nil in H.
      * destruct (N.eq_dec b 10%N) as [->|Hb].
        -- rewrite normalize_cr_lf. simpl in Hle.
           intros [->|H]%elem_of_cons; [auto|].
           destruct (IH r ltac:(lia) H) as [?|?]; [left|auto].
           now do 2 apply list_elem_of_further.
        -- rewrite normalize_cr by (simpl; congruence).
           intros [->|H]%elem_of_cons; [auto|].
           destruct (IH (b :: r) ltac:(simpl in *; lia) H) as [?|?];
             [left|auto].
           now apply list_elem_of_further.
    + rewrite normalize_other by assumption.
      intros [->|H]%elem_of_cons; [left; apply list_elem_of_here|].
      destruct (IH r ltac:(lia) H) as [?|?]; [left|auto].
      now apply list_elem_of_further.
Qed.

Lemma normalize_without_cr (s : pystr) :
  13%N ∉ s -> normalize_line_endings_spec s = s.
Proof.
  induction s as [|a r IH]; [reflexivity|]. intros H.
  rewrite normalize_other.
  - f_equal. apply IH. intros Hr. apply H. now apply list_elem_of_further.
  - intros ->. apply H. apply list_elem_of_here.
Qed.

Lemma filter_bool_all (f : N -> bool) (s : pystr) :
  Forall (fun c => f c = true) s -> filter (fun c => f c) s = s.
Proof.
  induction 1 as [|c r Hc _ IH]; [reflexivity|].
  now rewrite filter_bool_cons, Hc, IH.
Qed.

(** A text without surrogates, carriage returns and the control
    characters of line 20 is left as it is. *)
Lemma sanitize_text_clean (s : pystr) :
  Forall (fun c => is_surrogate c = false /\ c <> 13%N
                   /\ is_stripped_control c = false) s ->
  sanitize_text (Some s) = s.
Proof.
  intros H. rewrite sanitize_text_spec_form.
  rewrite (filter_bool_all (fun c => negb (is_surrogate c))).
  - rewrite normalize_without_cr.
    + apply (filter_bool_all (fun c => negb (is_stripped_control c))).
      eapply Forall_impl; [exact H|]. simpl. now intros c (_ & _ & ->).
    + rewrite Forall_forall in H. intros Hin. now destruct (H _ Hin) as (_ & ? & _).
  - eapply Forall_impl; [exact H|]. simpl. now intros c (-> & _).
Qed.

Lemma sanitize_text_is_clean (value : option pystr) :
  Forall (fun c => is_surrogate c = false /\ c <> 13%N
                   /\ is_stripped_control c = false) (sanitize_text value).
Proof.
  destruct value as [s|]; [|constructor].
  rewrite sanitize_text_spec_form. apply Forall_forall. intros c Hc.
  apply list_elem_of_filter in Hc as [Hk Hin].
  split; [|split].
  - apply normalize_elem in Hin as [Hin| ->]; [|reflexivity].
    apply list_elem_of_filter in Hin as [Hs _].
    now destruct (is_surrogate c).
  - intros ->. exact (normalize_no_cr _ Hin).
  - now destruct (is_stripped_control c).
Qed.

(** [sanitize_text] is idempotent: sanitizing its own result changes
    nothing.  (The drivers do so: [call_vision] returns a sanitized text
    and [sql_literal] sanitizes it again.) *)
Theorem sanitize_text_idempotent (value : option pystr) :
  sanitize_text (Some (sanitize_text value)) = sanitize_text value.
Proof. apply sanitize_text_clean, sanitize_text_is_clean. Qed.

End SanitizerMore.

(** ** The hard split, once more *)

Section HardSplitMore.

Lemma slice_inner (s : pystr) (a b : Z) :
  0 <= a -> a <= b -> b <= len s ->
  slice s a b = take (Z.to_nat (b - a)) (drop (Z.to_nat a) s).
Proof.
  intros Ha Hab Hb. unfold slice, slice_bound.
  destruct (Z.ltb_spec a 0); [lia|]. destruct (Z.ltb_spec b 0); [lia|].
  now rewrite !Z.min_l by lia.
Qed.

Lemma drop_slice (s : pystr) (a b k : Z) :
  0 <= a -> 0 <= k -> a + k <= b -> b <= len s ->
  drop (Z.to_nat k) (slice s a b) = slice s (a + k) b.
Proof.
  intros Ha Hk Hab Hb. rewrite !slice_inner by lia.
  rewrite skipn_firstn_comm, drop_drop.
  f_equal; [lia|]. f_equal. lia.
Qed.

Lemma slice_then_rest (s : pystr) (a b : Z) :
  0 <= a -> a <= b -> b <= len s ->
  slice s a b ++ drop (Z.to_nat b) s = drop (Z.to_nat a) s.
Proof.
  intros Ha Hab Hb. rewrite slice_inner by lia.
  replace (Z.to_nat b) with (Z.to_nat a + Z.to_nat (b - a))%nat by lia.
  rewrite <- drop_drop. apply take_drop.
Qed.

Lemma hard_split_rest (fuel : nat) (p : pystr) (max_len overlap start : Z)
    (ws : list pystr) :
  0 <= overlap < max_len -> 0 <= start -> start + overlap <= len p ->
  hard_split fuel p max_len overlap start = Some ws ->
  concat (map (drop (Z.to_nat overlap)) ws) = drop (Z.to_nat (start + overlap)) p.
Proof.
  intros Hov. revert start ws.
  induction fuel as [|fuel IH]; intros start ws Hs Hso; simpl.
  - destruct (Z.ltb_spec start (len p)); [discriminate|]. intros [= <-].
    simpl. rewrite drop_ge; [reflexivity|]. unfold len in *. lia.
  - destruct (Z.ltb_spec start (len p)) as [Hlt|Hge].
    + destruct (hard_split fuel p max_len overlap _) as [ws'|] eqn:E;
        [|discriminate].
      simpl. intros [= <-]. simpl.
      pose proof (window_end_bounds p max_len start ltac:(lia) (conj Hs Hlt))
        as [[Hw1 Hw2] Hw3].
      assert (Hw4 : start + overlap <= window_end p max_len start)
        by (unfold window_end; lia).
      rewrite drop_slice by lia.
      unfold next_start in E.
      destruct (Z.gtb_spec (window_end p max_len start - overlap) start)
        as [Hadv|Hstay].
      * rewrite (IH (window_end p max_len start - overlap) ws'
                   ltac:(lia) ltac:(lia) E).
        replace (window_end p max_len start - overlap + overlap)
          with (window_end p max_len start) by lia.
        apply slice_then_rest; lia.
      * assert (He : window_end p max_len start = len p)
          by (unfold window_end in *; lia).
        rewrite hard_split_done in E by lia. injection E as <-.
        simpl. rewrite app_nil_r.
        replace (start + overlap) with (len p) by lia.
        rewrite He, slice_inner by lia.
        rewrite Z.sub_diag. simpl. rewrite drop_ge; [reflexivity|].
        unfold len. lia.
    + intros [= <-]. simpl. rewrite drop_ge; [reflexivity|].
      unfold len in *. lia.
Qed.

(** The windows of a hard split cover the paragraph: with
    [0 <= overlap < max_len], the first window followed by every later
    window without its first [overlap] characters is the paragraph. *)
Theorem hard_split_reconstructs (fuel : nat) (p : pystr) (max_len overlap : Z)
    (ws : list pystr) :
  0 <= overlap < max_len ->
  hard_split fuel p max_len overlap 0 = Some ws ->
  unoverlap overlap ws = p.
Proof.
  intros Hov. destruct fuel as [|fuel]; simpl.
  - destruct (Z.ltb_spec 0 (len p)) as [|Hl]; [discriminate|]. intros [= <-].
    destruct p; [reflexivity|]. unfold len in Hl. simpl in Hl. lia.
  - destruct (Z.ltb_spec 0 (len p)) as [Hlt|Hl].
    + destruct (hard_split fuel p max_len overlap _) as [ws'|] eqn:E;
        [|discriminate].
      simpl. intros [= <-]. unfold unoverlap.
      pose proof (window_end_bounds p max_len 0 ltac:(lia) ltac:(lia))
        as [[Hw1 Hw2] Hw3].
      unfold next_start in E.
      destruct (Z.gtb_spec (window_end p max_len 0 - overlap) 0)
        as [Hadv|Hstay].
      * rewrite (hard_split_rest fuel p max_len overlap
                   (window_end p max_len 0 - overlap) ws' Hov
                   ltac:(lia) ltac:(lia) E).
        replace (window_end p max_len 0 - overlap + overlap)
          with (window_end p max_len 0) by lia.
        rewrite slice_then_rest by lia. reflexivity.
      * assert (He : window_end p max_len 0 = len p)
          by (unfold window_end in *; lia).
        rewrite hard_split_done in E by lia. injection E as <-.
        simpl. rewrite app_nil_r, He, slice_inner by lia.
        simpl. rewrite Z.sub_0_r. apply take_ge. unfold len. lia.
    + intros [= <-]. destruct p; [reflexivity|].
      unfold len in Hl. simpl in Hl. lia.
Qed.

Lemma hard_split_reconstructs_witness :
  0 <= 200 < 1200
  /\ hard_split 4 sample_paragraph 1200 200 0
     = Some [slice sample_paragraph 0 1200; slice sample_paragraph 1000 2200;
             slice sample_paragraph 2000 3000; slice sample_paragraph 2800 3000]
  /\ unoverlap 200
       [slice sample_paragraph 0 1200; slice sample_paragraph 1000 2200;
        slice sample_paragraph 2000 3000; slice sample_paragraph 2800 3000]
     = sample_paragraph.
Proof.
  assert (H : hard_split 4 sample_paragraph 1200 200 0
              = Some [slice sample_paragraph 0 1200;
                      slice sample_paragraph 1000 2200;
                      slice sample_paragraph 2000 3000;
                      slice sample_paragraph 2800 3000])
    by (vm_compute; reflexivity).
  split; [lia|]. split; [exact H|].
  apply (hard_split_reconstructs 4 sample_paragraph 1200 200 _ ltac:(lia) H).
Defined.

End HardSplitMore.

(** ** The chunker, once more *)

Section ChunkerMore.
Variable P : N -> Prop.
Hypothesis P_newline : P 10%N.

Lemma slice_Forall (s : pystr) (a b : Z) : Forall P s -> Forall P (slice s a b).
Proof. intros H. unfold slice. now apply Forall_take, Forall_drop. Qed.

Lemma hard_split_Forall (fuel : nat) (p : pystr) (max_len overlap start : Z)
    (ws : list pystr) :
  Forall P p -> hard_split fuel p max_len overlap start = Some ws ->
  Forall (Forall P) ws.
Proof.
  intros Hp. revert start ws. induction fuel as [|fuel IH]; intros start ws;
    simpl; destruct (start <? len p); try discriminate;
    try (intros [= <-]; constructor).
  destruct (hard_split fuel p max_len overlap _) as [ws'|] eqn:E;
    [|discriminate].
  simpl. intros [= <-]. constructor; [now apply slice_Forall|].
  now apply (IH _ _ E).
Qed.

Lemma flush_Forall (chunks : list pystr) (current : pystr) :
  Forall (Forall P) chunks -> Forall P current ->
  Forall (Forall P) (flush chunks current).
Proof.
  intros Hc Hcur. unfold flush. destruct (truthy current); [|assumption].
  apply Forall_app. split; [assumption|now repeat constructor].
Qed.

Lemma chunk_loop_Forall (fuel : nat) (max_len overlap : Z)
    (paragraphs : list pystr) (st st' : list pystr * pystr) :
  Forall (Forall P) paragraphs ->
  Forall (Forall P) (fst st) -> Forall P (snd st) ->
  chunk_loop fuel max_len overlap st paragraphs = Some st' ->
  Forall (Forall P) (fst st') /\ Forall P (snd st').
Proof.
  intros Hps. revert st.
  induction Hps as [|p ps Hp _ IH]; intros [chunks current] Hc Hcur; simpl.
  - intros [= <-]. now split.
  - simpl in Hc, Hcur.
    destruct (len current + len p + 1 <=? max_len).
    + simpl. apply IH; simpl; [assumption|].
      apply strip_Forall, Forall_app. split; [assumption|now constructor].
    + destruct (len p <=? max_len).
      * simpl. apply IH; simpl; [now apply flush_Forall|assumption].
      * destruct (hard_split fuel p max_len overlap 0) as [ws|] eqn:E;
          [|discriminate].
        simpl. apply IH; simpl; [|constructor].
        apply Forall_app. split; [now apply flush_Forall|].
        now apply (hard_split_Forall _ _ _ _ _ _ Hp E).
Qed.

Lemma chunk_paragraphs_Forall (fuel : nat) (paragraphs : list pystr)
    (max_len overlap : Z) (chunks : list pystr) :
  Forall (Forall P) paragraphs ->
  chunk_paragraphs fuel paragraphs max_len overlap = Some chunks ->
  Forall (Forall P) chunks.
Proof.
  intros Hps. unfold chunk_paragraphs.
  destruct (chunk_loop fuel max_len overlap ([], []) paragraphs)
    as [[cs cur]|] eqn:E; [|discriminate].
  simpl. intros [= <-].
  destruct (chunk_loop_Forall fuel max_len overlap paragraphs ([], [])
              (cs, cur) Hps (Forall_nil_2 _) (Forall_nil_2 _) E).
  now apply flush_Forall.
Qed.

Lemma paragraphs_of_Forall (pieces : list pystr) :
  Forall (Forall P) pieces -> Forall (Forall P) (paragraphs_of pieces).
Proof.
  unfold paragraphs_of. induction 1 as [|p ps Hp _ IH]; [constructor|].
  rewrite filter_cons. destruct (decide _); [|assumption].
  simpl. constructor; [now apply strip_Forall|assumption].
Qed.

Lemma chunk_text_Forall (fuel : nat) (text : pystr) (max_len overlap : Z)
    (chunks : list pystr) :
  Forall P text ->
  (chunk_text_images fuel text max_len overlap = Some chunks
   \/ chunk_text_pdf fuel text max_len overlap = Some chunks) ->
  Forall (Forall P) chunks.
Proof.
  intros Ht. unfold chunk_text_images, chunk_text_pdf.
  destruct (negb (truthy text)).
  - intros [[= <-]|[= <-]]; constructor.
  - intros [H|H]; revert H; apply chunk_paragraphs_Forall,
      paragraphs_of_Forall.
    + apply re_split_blank_from_Forall; [exact P_newline|constructor|exact Ht].
    + apply splitlines_from_Forall; [constructor|exact Ht].
Qed.

End ChunkerMore.

Section ChunkerMoreClaims.

(** [chunk_text] invents no character: every character of every chunk is
    a character of the text, or the newline that joins two paragraphs.
    Both variants. *)
Theorem chunk_text_characters (fuel : nat) (text : pystr) (max_len overlap : Z)
    (cs : list pystr) (ch : pystr) (c : N) :
  (chunk_text_images fuel text max_len overlap = Some cs
   \/ chunk_text_pdf fuel text max_len overlap = Some cs) ->
  ch ∈ cs -> c ∈ ch -> c ∈ text \/ c = 10%N.
Proof.
  intros Hrun Hch Hc.
  assert (H : Forall (Forall (fun c => c ∈ text \/ c = 10%N)) cs).
  { apply (chunk_text_Forall (fun c => c ∈ text \/ c = 10%N)
             (or_intror eq_refl) fuel text max_len overlap);
      [|exact Hrun].
    apply Forall_forall. now left. }
  rewrite Forall_forall in H. specialize (H _ Hch).
  rewrite Forall_forall in H. now apply H.
Qed.

End ChunkerMoreClaims.

Section ChunkerMoreWitnesses.

Lemma chunk_text_characters_witness :
  (chunk_text_images 0 (lit "ab" ++ [13; 10; 13; 10]%N ++ lit "cd") 100 0
   = Some [lit "ab" ++ [13; 10; 13; 10]%N ++ lit "cd"]
   \/ chunk_text_pdf 0 (lit "ab" ++ [13; 10; 13; 10]%N ++ lit "cd") 100 0
      = Some [lit "ab" ++ [13; 10; 13; 10]%N ++ lit "cd"])
  /\ (lit "ab" ++ [13; 10; 13; 10]%N ++ lit "cd")
       ∈ [lit "ab" ++ [13; 10; 13; 10]%N ++ lit "cd"]
  /\ 99%N ∈ (lit "ab" ++ [13; 10; 13; 10]%N ++ lit "cd")
  /\ (99%N ∈ (lit "ab" ++ [13; 10; 13; 10]%N ++ lit "cd") \/ 99%N = 10%N).
Proof.
  assert (H1 : chunk_text_images 0 (lit "ab" ++ [13; 10; 13; 10]%N ++ lit "cd")
                 100 0
               = Some [lit "ab" ++ [13; 10; 13; 10]%N ++ lit "cd"]
               \/ chunk_text_pdf 0 (lit "ab" ++ [13; 10; 13; 10]%N ++ lit "cd")
                    100 0
                  = Some [lit "ab" ++ [13; 10; 13; 10]%N ++ lit "cd"])
    by (left; vm_compute; reflexivity).
  assert (H2 : (lit "ab" ++ [13; 10; 13; 10]%N ++ lit "cd")
                 ∈ [lit "ab" ++ [13; 10; 13; 10]%N ++ lit "cd"])
    by apply list_elem_of_here.
  assert (H3 : 99%N ∈ (lit "ab" ++ [13; 10; 13; 10]%N ++ lit "cd"))
    by (vm_compute; repeat (try apply list_elem_of_here;
                            apply list_elem_of_further)).
  split; [exact H1|]. split; [exact H2|]. split; [exact H3|].
  exact (chunk_text_characters 0 _ 100 0 _ _ 99%N H1 H2 H3).
Defined.

End ChunkerMoreWitnesses.

(** ** Paragraphs that fit into one chunk *)

Section OneChunk.

Lemma paragraphs_of_kept (pieces : list pystr) :
  Forall kept_paragraph (paragraphs_of pieces).
Proof.
  unfold paragraphs_of. induction pieces as [|p ps IH]; [constructor|].
  rewrite filter_cons. destruct (decide _) as [Ht|]; [|assumption].
  simpl. constructor; [|assumption]. split; [|apply strip_idempotent].
  intros E. rewrite E in Ht. exact Ht.
Qed.

Lemma strip_newline_first (p : pystr) : strip (10%N :: p) = strip p.
Proof. reflexivity. Qed.

Lemma strip_joined (cur p : pystr) :
  kept_paragraph cur -> kept_paragraph p ->
  strip (cur ++ 10%N :: p) = cur ++ 10%N :: p.
Proof.
  intros [Hc1 Hc2] [Hp1 Hp2]. apply strip_fixed.
  - intros c Hc. apply (proj1 (strip_ends cur)). rewrite Hc2.
    destruct cur; [contradiction|exact Hc].
  - intros c Hc. apply (proj2 (strip_ends p)). rewrite Hp2.
    change (cur ++ 10%N :: p) with (cur ++ [10%N] ++ p) in Hc.
    rewrite app_assoc, last_app in Hc.
    destruct (last p) as [y|] eqn:El; [exact Hc|].
    apply last_None in El. contradiction.
Qed.

Lemma join_cons2 (sep a b : pystr) (rest : list pystr) :
  join sep (a :: b :: rest) = a ++ sep ++ join sep (b :: rest).
Proof. reflexivity. Qed.

Lemma join_merge (a b : pystr) (rest : list pystr) :
  join [10%N] ((a ++ 10%N :: b) :: rest) = join [10%N] (a :: b :: rest).
Proof.
  rewrite join_cons2. destruct rest as [|c rest].
  - reflexivity.
  - rewrite !join_cons2. rewrite <- !app_assoc. reflexivity.
Qed.

Lemma join_first_length (a : pystr) (rest : list pystr) :
  len a <= len (join [10%N] (a :: rest)).
Proof.
  destruct rest; [simpl; lia|]. rewrite join_cons2.
  unfold len. rewrite length_app. lia.
Qed.

Lemma join_kept (a : pystr) (rest : list pystr) :
  kept_paragraph a -> join [10%N] (a :: rest) <> [].
Proof.
  intros [Ha _]. destruct rest; [exact Ha|]. rewrite join_cons2.
  destruct a; [contradiction|discriminate].
Qed.

Lemma chunk_loop_joins (fuel : nat) (max_len overlap : Z) (cur : pystr)
    (rest : list pystr) :
  kept_paragraph cur -> Forall kept_paragraph rest ->
  len (join [10%N] (cur :: rest)) <= max_len ->
  chunk_loop fuel max_len overlap ([], cur) rest
  = Some ([], join [10%N] (cur :: rest)).
Proof.
  intros Hcur Hrest. revert cur Hcur.
  induction Hrest as [|p rest Hp _ IH]; intros cur Hcur Hlen; [reflexivity|].
  cbn [chunk_loop chunk_step].
  assert (Hfit : len cur + len p + 1 <= max_len).
  { rewrite join_cons2 in Hlen. pose proof (join_first_length p rest) as H.
    unfold len in *. rewrite !length_app in Hlen.
    change (length [10%N]) with 1%nat in Hlen. lia. }
  destruct (Z.leb_spec (len cur + len p + 1) max_len); [|lia].
  cbn [mbind option_bind]. rewrite strip_joined by assumption.
  rewrite <- join_merge. apply IH.
  - split; [destruct cur; discriminate|now apply strip_joined].
  - now rewrite join_merge.
Qed.

Lemma chunk_paragraphs_one_chunk (fuel : nat) (p : pystr) (rest : list pystr)
    (max_len overlap : Z) :
  Forall kept_paragraph (p :: rest) ->
  len (join [10%N] (p :: rest)) <= max_len ->
  chunk_paragraphs fuel (p :: rest) max_len overlap
  = Some [join [10%N] (p :: rest)].
Proof.
  intros Hall Hlen. apply Forall_cons in Hall as [Hp Hrest].
  pose proof (join_first_length p rest) as Hfirst.
  unfold chunk_paragraphs. cbn [chunk_loop chunk_step].
  assert (E : (if len [] + len p + 1 <=? max_len
               then Some ([], strip ([] ++ 10%N :: p))
               else if len p <=? max_len then Some (flush [] [], p)
                    else ws ← hard_split fuel p max_len overlap 0;
                         Some (flush [] [] ++ ws, []))
              = Some ([], p)).
  { destruct (_ <=? max_len).
    - simpl app. rewrite strip_newline_first. now destruct Hp as [_ ->].
    - destruct (Z.leb_spec (len p) max_len); [reflexivity|lia]. }
  rewrite E. cbn [mbind option_bind].
  rewrite (chunk_loop_joins fuel max_len overlap p rest Hp Hrest Hlen).
  cbn [mbind option_bind].
  pose proof (join_kept p rest Hp) as Hne. unfold flush.
  destruct (join [10%N] (p :: rest)); [contradiction|reflexivity].
Qed.

End OneChunk.

Section OneChunkClaims.

(** Paragraphs that fit together give one chunk: when the paragraphs of
    the text, joined by single newlines, have at most [max_len]
    characters, [chunk_text] returns that one string (whatever the fuel
    and the overlap).  Both variants. *)
Theorem chunk_text_one_chunk (fuel : nat) (text : pystr) (max_len overlap : Z)
    (p : pystr) (rest : list pystr) :
  len (join [10%N] (p :: rest)) <= max_len ->
  (paragraphs_of (re_split_blank text) = p :: rest ->
   chunk_text_images fuel text max_len overlap
   = Some [join [10%N] (p :: rest)])
  /\ (paragraphs_of (splitlines text) = p :: rest ->
      chunk_text_pdf fuel text max_len overlap
      = Some [join [10%N] (p :: rest)]).
Proof.
  intros Hlen. split; intros Hps.
  - unfold chunk_text_images. destruct text as [|c r]; [discriminate Hps|].
    simpl negb. cbv iota. rewrite Hps.
    apply chunk_paragraphs_one_chunk; [|exact Hlen].
    rewrite <- Hps. apply paragraphs_of_kept.
  - unfold chunk_text_pdf. destruct text as [|c r]; [discriminate Hps|].
    simpl negb. cbv iota. rewrite Hps.
    apply chunk_paragraphs_one_chunk; [|exact Hlen].
    rewrite <- Hps. apply paragraphs_of_kept.
Qed.

Lemma chunk_text_one_chunk_witness :
  len (join [10%N] [lit "Para one."; lit "Para two."]) <= 19
  /\ paragraphs_of (re_split_blank
                      (lit "Para one." ++ [10; 10]%N ++ lit " Para two."))
     = [lit "Para one."; lit "Para two."]
  /\ paragraphs_of (splitlines
                      (lit "Para one." ++ [10; 10]%N ++ lit " Para two."))
     = [lit "Para one."; lit "Para two."]
  /\ chunk_text_images 0 (lit "Para one." ++ [10; 10]%N ++ lit " Para two.")
       19 200
     = Some [join [10%N] [lit "Para one."; lit "Para two."]]
  /\ chunk_text_pdf 0 (lit "Para one." ++ [10; 10]%N ++ lit " Para two.")
       19 200
     = Some [join [10%N] [lit "Para one."; lit "Para two."]].
Proof.
  assert (H0 : len (join [10%N] [lit "Para one."; lit "Para two."]) <= 19)
    by (vm_compute; discriminate).
  assert (H1 : paragraphs_of (re_split_blank
                 (lit "Para one." ++ [10; 10]%N ++ lit " Para two."))
               = [lit "Para one."; lit "Para two."])
    by (vm_compute; reflexivity).
  assert (H2 : paragraphs_of (splitlines
                 (lit "Para one." ++ [10; 10]%N ++ lit " Para two."))
               = [lit "Para one."; lit "Para two."])
    by (vm_compute; reflexivity).
  destruct (chunk_text_one_chunk 0
              (lit "Para one." ++ [10; 10]%N ++ lit " Para two.") 19 200
              (lit "Para one.") [lit "Para two."] H0) as [Hi Hp].
  split; [exact H0|]. split; [exact H1|]. split; [exact H2|].
  split; [exact (Hi H1)|exact (Hp H2)].
Defined.

(** In the image driver the text that is chunked has been sanitized
    ([call_vision] returns [sanitize_text(...)]).  Every chunk of such a
    text is left as it is by the [sanitize_text] inside [sql_literal], so
    what is stored is the chunk itself, between two copies of a tag that
    does not occur in it. *)
Theorem image_chunk_stored_as_is (fuel : nat) (value : option pystr)
    (max_len overlap : Z) (chunks : list pystr) (chunk : pystr) :
  chunk_text_images fuel (sanitize_text value) max_len overlap = Some chunks ->
  chunk ∈ chunks ->
  sanitize_text (Some chunk) = chunk
  /\ exists tag,
       sql_literal_images (S (length chunk)) (Some chunk)
       = Some (tag ++ chunk ++ tag)
       /\ contains tag chunk = false.
Proof.
  intros Hrun Hin.
  assert (Hclean : sanitize_text (Some chunk) = chunk).
  { apply sanitize_text_clean.
    pose proof (chunk_text_Forall
                  (fun c => is_surrogate c = false /\ c <> 13%N
                            /\ is_stripped_control c = false)
                  ltac:(repeat split; discriminate)
                  fuel (sanitize_text value) max_len overlap chunks
                  (sanitize_text_is_clean value) (or_introl Hrun)) as H.
    rewrite Forall_forall in H. now apply H. }
  split; [exact Hclean|].
  destruct (sql_literal_images_total (S (length chunk)) (Some chunk))
    as (tag & _ & E & Hfresh).
  - rewrite Hclean. lia.
  - rewrite Hclean in E, Hfresh. eauto.
Qed.

Lemma image_chunk_stored_as_is_witness :
  chunk_text_images 0 (sanitize_text (Some (lit "a$adamus$" ++ [13; 0; 98]%N)))
    100 0
  = Some [lit "a$adamus$" ++ [10; 98]%N]
  /\ (lit "a$adamus$" ++ [10; 98]%N) ∈ [lit "a$adamus$" ++ [10; 98]%N]
  /\ sanitize_text (Some (lit "a$adamus$" ++ [10; 98]%N))
     = lit "a$adamus$" ++ [10; 98]%N
  /\ exists tag,
       sql_literal_images (S (length (lit "a$adamus$" ++ [10; 98]%N)))
         (Some (lit "a$adamus$" ++ [10; 98]%N))
       = Some (tag ++ (lit "a$adamus$" ++ [10; 98]%N) ++ tag)
       /\ contains tag (lit "a$adamus$" ++ [10; 98]%N) = false.
Proof.
  assert (H1 : chunk_text_images 0
                 (sanitize_text (Some (lit "a$adamus$" ++ [13; 0; 98]%N)))
                 100 0
               = Some [lit "a$adamus$" ++ [10; 98]%N])
    by (vm_compute; reflexivity).
  assert (H2 : (lit "a$adamus$" ++ [10; 98]%N)
                 ∈ [lit "a$adamus$" ++ [10; 98]%N])
    by apply list_elem_of_here.
  split; [exact H1|]. split; [exact H2|].
  exact (image_chunk_stored_as_is 0 _ 100 0 _ _ H1 H2).
Defined.

End OneChunkClaims.

(** ** The ASCII fallback and the literals *)

Section FallbackAndLiterals.

(** The fallback content is ASCII only, with nothing left to strip; and a
    chunk that is ASCII already, with nothing to strip, has no fallback:
    when its insert fails it is not retried. *)
Theorem ascii_fallback_ascii (chunk : pystr) :
  Forall (fun c => (c < 128)%N) (ascii_fallback chunk)
  /\ strip (ascii_fallback chunk) = ascii_fallback chunk
  /\ (Forall (fun c => (c < 128)%N) chunk -> strip chunk = chunk ->
      fallback_wanted chunk = false).
Proof.
  unfold ascii_fallback. split; [|split].
  - apply strip_Forall, Forall_forall. intros c Hc.
    apply list_elem_of_filter in Hc as [Hc _].
    apply N.ltb_lt. now destruct (c <? 128)%N.
  - apply strip_idempotent.
  - intros Hascii Hstrip. unfold fallback_wanted, ascii_fallback.
    rewrite (filter_bool_all (fun c => (c <? 128)%N)).
    + rewrite Hstrip. rewrite bool_decide_eq_false_2 by auto.
      apply andb_false_r.
    + eapply Forall_impl; [exact Hascii|]. simpl. intros c. apply N.ltb_lt.
Qed.

Lemma replace_nul_free (value : pystr) : 0%N ∉ replace [0%N] [] value.
Proof.
  induction value as [|c r IH]; [apply not_elem_of_nil|].
  unfold replace in *. cbn -[N.eqb].
  destruct (N.eqb_spec 0 c) as [<-|Hc]; simpl; [exact IH|].
  intros [?|?]%elem_of_cons; [congruence|auto].
Qed.

Lemma numbered_tag_nul_free (counter : N) : 0%N ∉ numbered_tag counter.
Proof.
  unfold numbered_tag, decimal. rewrite !elem_of_app. intros [H|[H|H]].
  - revert H. vm_compute. intros H.
    repeat (apply elem_of_cons in H as [H|H]; [discriminate|]).
    now apply not_elem_of_nil in H.
  - induction (N.to_uint counter); simpl in H;
      try (now apply not_elem_of_nil in H);
      apply elem_of_cons in H as [H|H]; try discriminate; auto.
  - revert H. vm_compute. intros H.
    repeat (apply elem_of_cons in H as [H|H]; [discriminate|]).
    now apply not_elem_of_nil in H.
Qed.

Lemma pick_tag_nul_free (fuel : nat) (safe tag : pystr) (c : N) (tag' : pystr) :
  0%N ∉ tag -> pick_tag fuel safe tag c = Some tag' -> 0%N ∉ tag'.
Proof.
  revert tag c. induction fuel as [|fuel IH]; intros tag c Ht; simpl;
    destruct (contains tag safe); try discriminate;
    try (now intros [= <-]).
  apply IH, numbered_tag_nul_free.
Qed.

(** No literal holds a NUL character (which the database would reject):
    neither the tag nor the content does.  Both scripts. *)
Theorem sql_literal_nul_free :
  (forall (fuel : nat) (value : option pystr) (literal : pystr),
     sql_literal_images fuel value = Some literal -> 0%N ∉ literal)
  /\ (forall value : pystr, 0%N ∉ sql_literal_pdf value).
Proof.
  split.
  - intros fuel value literal. unfold sql_literal_images,
      sql_literal_images_parts.
    destruct (pick_tag fuel (sanitize_text value) base_tag 0) as [tag|] eqn:E;
      [|discriminate].
    simpl. intros [= <-].
    assert (Ht : 0%N ∉ tag).
    { assert (Hb : 0%N ∉ base_tag).
      { vm_compute. intros H.
        repeat (apply elem_of_cons in H as [H|H]; [discriminate|]).
        now apply not_elem_of_nil in H. }
      exact (pick_tag_nul_free _ _ _ _ _ Hb E). }
    assert (Hs : 0%N ∉ sanitize_text value).
    { intros Hin. pose proof (sanitize_text_is_clean value) as Hc.
      rewrite Forall_forall in Hc. destruct (Hc _ Hin) as (_ & _ & H0).
      discriminate H0. }
    rewrite !elem_of_app. tauto.
  - intros value. unfold sql_literal_pdf, sql_literal_pdf_parts.
    pose proof (replace_nul_free value) as Hs.
    assert (Ht : forall s : string,
               (s = "$adamus$" \/ s = "$adamus_text$" \/ s = "$adamus_chunk$")%string ->
               0%N ∉ lit s).
    { intros s [->|[->| ->]]; vm_compute; intros H;
        repeat (apply elem_of_cons in H as [H|H]; [discriminate|]);
        now apply not_elem_of_nil in H. }
    destruct (contains (lit "$adamus$") _);
      [destruct (contains (lit "$adamus_text$") _)|];
      rewrite !elem_of_app;
      intros [H|[H|H]]; try (now apply Hs);
      revert H; apply Ht; auto.
Qed.

End FallbackAndLiterals.

Section FallbackAndLiteralsWitnesses.

Lemma ascii_fallback_ascii_witness :
  Forall (fun c => (c < 128)%N) (ascii_fallback (lit "abc"))
  /\ strip (ascii_fallback (lit "abc")) = ascii_fallback (lit "abc")
  /\ Forall (fun c => (c < 128)%N) (lit "abc")
  /\ strip (lit "abc") = lit "abc"
  /\ fallback_wanted (lit "abc") = false.
Proof.
  assert (H1 : Forall (fun c => (c < 128)%N) (lit "abc"))
    by (repeat constructor).
  assert (H2 : strip (lit "abc") = lit "abc") by reflexivity.
  destruct (ascii_fallback_ascii (lit "abc")) as (Ha & Hb & Hc).
  split; [exact Ha|]. split; [exact Hb|]. split; [exact H1|].
  split; [exact H2|exact (Hc H1 H2)].
Defined.

Lemma sql_literal_nul_free_witness :
  sql_literal_images 2 (Some [97; 0; 98]%N)
  = Some (lit "$adamus$" ++ lit "ab" ++ lit "$adamus$")
  /\ (0%N ∉ lit "$adamus$" ++ lit "ab" ++ lit "$adamus$")
  /\ (0%N ∉ sql_literal_pdf [97; 0; 98]%N).
Proof.
  assert (H : sql_literal_images 2 (Some [97; 0; 98]%N)
              = Some (lit "$adamus$" ++ lit "ab" ++ lit "$adamus$"))
    by (vm_compute; reflexivity).
  destruct sql_literal_nul_free as [Hi Hp].
  split; [exact H|]. split; [exact (Hi _ _ _ H)|apply Hp].
Defined.

End FallbackAndLiteralsWitnesses.

(** ** Overlapping windows *)

Section Overlap.

Lemma take_slice (s : pystr) (a b k : Z) :
  0 <= a -> 0 <= k -> a + k <= b -> b <= len s ->
  take (Z.to_nat k) (slice s a b) = slice s a (a + k).
Proof.
  intros Ha Hk Hab Hb. rewrite !slice_inner by lia.
  rewrite take_take. f_equal. lia.
Qed.

Lemma hard_split_head (fuel : nat) (p : pystr) (max_len overlap start : Z)
    (w : pystr) (ws : list pystr) :
  hard_split fuel p max_len overlap start = Some (w :: ws) ->
  start < len p /\ w = slice p start (window_end p max_len start).
Proof.
  destruct fuel as [|fuel]; simpl;
    destruct (Z.ltb_spec start (len p)); try discriminate.
  destruct (hard_split fuel p max_len overlap _); [|discriminate].
  simpl. intros [= <- _]. split; [assumption|reflexivity].
Qed.

Lemma hard_split_overlapping (fuel : nat) (p : pystr)
    (max_len overlap start : Z) (ws : list pystr) :
  0 <= overlap < max_len -> 0 <= start ->
  hard_split fuel p max_len overlap start = Some ws ->
  overlapping (Z.to_nat overlap) ws.
Proof.
  intros Hov. revert start ws.
  induction fuel as [|fuel IH]; intros start ws Hs; simpl.
  - destruct (start <? len p); [discriminate|]. now intros [= <-].
  - destruct (Z.ltb_spec start (len p)) as [Hlt|]; [|now intros [= <-]].
    destruct (hard_split fuel p max_len overlap _) as [ws'|] eqn:E;
      [|discriminate].
    simpl. intros [= <-].
    pose proof (window_end_bounds p max_len start ltac:(lia) (conj Hs Hlt))
      as [[Hw1 Hw2] Hw3].
    pose proof (next_start_progress p max_len overlap start ltac:(lia)
                  (conj Hs Hlt)) as Hprog.
    assert (Hrest : overlapping (Z.to_nat overlap) ws').
    { eapply IH; [|exact E]. lia. }
    destruct ws' as [|w2 ws'']; [exact I|].
    split; [|exact Hrest].
    destruct (hard_split_head _ _ _ _ _ _ _ E) as [Hlt2 ->].
    unfold next_start in *.
    destruct (Z.gtb_spec (window_end p max_len start - overlap) start)
      as [Hadv|Hstay].
    + set (e := window_end p max_len start) in *.
      pose proof (window_end_bounds p max_len (e - overlap) ltac:(lia)
                    ltac:(lia)) as [[Hv1 Hv2] Hv3].
      assert (Hv4 : e <= window_end p max_len (e - overlap))
        by (unfold window_end, e in *; lia).
      rewrite take_slice by lia.
      replace (length (slice p start e) - Z.to_nat overlap)%nat
        with (Z.to_nat (e - start - overlap)).
      * rewrite drop_slice by lia. f_equal; lia.
      * pose proof (slice_inner_length p start e ltac:(lia) ltac:(lia)
                      ltac:(lia)) as Hl.
        unfold len in Hl. lia.
    + exfalso. unfold window_end in *. lia.
Qed.

(** Consecutive windows of a hard split overlap by exactly [overlap]
    characters (for [0 <= overlap < max_len]): each window after the first
    starts with the last [overlap] characters of the window before it. *)
Theorem hard_split_windows_overlap (fuel : nat) (p : pystr)
    (max_len overlap : Z) (ws : list pystr) :
  0 <= overlap < max_len ->
  hard_split fuel p max_len overlap 0 = Some ws ->
  overlapping (Z.to_nat overlap) ws.
Proof. intros Hov. apply hard_split_overlapping; [exact Hov|lia]. Qed.

Lemma hard_split_windows_overlap_witness :
  0 <= 200 < 1200
  /\ hard_split 4 sample_paragraph 1200 200 0
     = Some [slice sample_paragraph 0 1200; slice sample_paragraph 1000 2200;
             slice sample_paragraph 2000 3000; slice sample_paragraph 2800 3000]
  /\ overlapping (Z.to_nat 200)
       [slice sample_paragraph 0 1200; slice sample_paragraph 1000 2200;
        slice sample_paragraph 2000 3000; slice sample_paragraph 2800 3000].
Proof.
  assert (H : hard_split 4 sample_paragraph 1200 200 0
              = Some [slice sample_paragraph 0 1200;
                      slice sample_paragraph 1000 2200;
                      slice sample_paragraph 2000 3000;
                      slice sample_paragraph 2800 3000])
    by (vm_compute; reflexivity).
  split; [lia|]. split; [exact H|].
  apply (hard_split_windows_overlap 4 sample_paragraph 1200 200 _
           ltac:(lia) H).
Defined.

End Overlap.

(** ** The drivers, once more *)

Section PdfPrelude.
Variable w : World.
Variable mat : Material.
Variable fuel : nat.

Lemma extract_pages_texts (pages : list (option pystr)) (page_no : Z)
    (pg : option Z) (t : trace) :
  fst (extract_pages page_no pages pg t)
  = Ok (map (fun page => strip (default [] page)) pages).
Proof.
  revert page_no t. induction pages as [|page pages IH]; intros page_no t.
  - reflexivity.
  - cbn [extract_pages]. unfold mbind, M_bind, emit.
    specialize (IH (page_no + 1) (t ++ [(pg, EvExtract page_no)])).
    destruct (extract_pages (page_no + 1) pages pg
                (t ++ [(pg, EvExtract page_no)])) as [r t'].
    simpl in IH. subst r. simpl. now destruct page.
Qed.

(** A PDF without extractable text ends the run with [SystemExit] after
    the extraction: no statement is sent, no request made. *)
Theorem main_pdf_without_text (pages : list (option pystr)) (pg : option Z)
    (t : trace) :
  Forall (fun page => strip (default [] page) = []) pages ->
  main_pdf w mat fuel pages pg t
  = (Raise (SystemExit "PDF has no extractable text."),
     t ++ map (fun i => (pg, EvExtract i))
            (seqZ 1 (Z.of_nat (length pages)))).
Proof.
  intros Hblank. unfold main_pdf, mbind, M_bind.
  pose proof (extract_pages_texts pages 1 pg t) as Hr.
  destruct (extract_pages_events pages 1 pg t) as [Ht _].
  destruct (extract_pages 1 pages pg t) as [r t']. simpl in Hr, Ht.
  subst r t'.
  assert (E : existsb truthy (map (fun page => strip (default [] page)) pages)
              = false).
  { induction Hblank as [|page pages Hp _ IH]; [reflexivity|].
    simpl. now rewrite Hp. }
  now rewrite E.
Qed.

End PdfPrelude.

Section PdfPreludeWitness.

Lemma main_pdf_without_text_witness :
  Forall (fun page => strip (default [] page) = [])
    [None; Some (lit "  "); Some []]
  /\ main_pdf accepting_world sample_material 0
       [None; Some (lit "  "); Some []] None []
     = (Raise (SystemExit "PDF has no extractable text."),
        [] ++ map (fun i => (None, EvExtract i))
                (seqZ 1 (Z.of_nat (length [None; Some (lit "  "); Some []])))).
Proof.
  assert (H : Forall (fun page => strip (default [] page) = [])
                [None; Some (lit "  "); Some []])
    by (repeat constructor).
  split; [exact H|].
  exact (main_pdf_without_text accepting_world sample_material 0 _ None [] H).
Defined.

End PdfPreludeWitness.

Section VisionAndPdfLoop.
Variable w : World.





Example call_vision_sample :
  fst (call_vision accepting_world sample_image None [])
  = Ok (lit "text of the page").
Proof. reflexivity. Qed.

(** A reply without annotation gives the empty text; a reply whose text is
    [null] makes [text.strip()] raise. *)
Example call_vision_odd_replies :
  let reply data :=
    {| urlopen := fun _ _ => Responded [];
       read_bytes := fun _ _ => true;
       vision := fun _ _ => Responded (Some data);
       stdout := fun _ _ => None |} in
  fst (call_vision (reply (JObject [(lit "responses", JArray [JObject []])]))
         sample_image None [])
  = Ok []
  /\ fst (call_vision (reply (JArray [])) sample_image None []) = Ok []
  /\ fst (call_vision
            (reply (JObject
                      [(lit "responses",
                        JArray
                          [JObject
                             [(lit "fullTextAnnotation",
                               JObject [(lit "text", JNull)])]])]))
            sample_image None [])
     = Raise AttributeError.
Proof. repeat split. Qed.

Lemma insert_chunk_pdf_step (material_id page_id : pystr) (c_idx : Z)
    (chunk : pystr) (pg : option Z) (t : trace) :
  insert_chunk_pdf w material_id page_id c_idx chunk pg t
  = match sql_query_default w
            (QInsertChunk material_id page_id c_idx (sql_literal_pdf chunk))
            pg t with
    | (Ok _, t') => (Ok tt, t' ++ [(pg, EvSleep 0.1)])
    | (Raise e, t') => (Raise e, t')
    | (Diverge, t') => (Diverge, t')
    end.
Proof. reflexivity. Qed.

Lemma insert_chunks_pdf_loop (material_id page_id : pystr)
    (chunks : list pystr) (start : Z) (pg : option Z) (t : trace) :
  exists (k : nat) new,
    (k <= length chunks)%nat
    /\ snd (for_enumerate start chunks (insert_chunk_pdf w material_id page_id)
              pg t) = t ++ new
    /\ calls_of new
       = insert_queries material_id page_id start
           (map sql_literal_pdf (take k chunks))
    /\ ((fst (for_enumerate start chunks
                (insert_chunk_pdf w material_id page_id) pg t) = Ok tt
         /\ k = length chunks)
        \/ (exists e, fst (for_enumerate start chunks
                             (insert_chunk_pdf w material_id page_id) pg t)
                      = Raise e
                      /\ (1 <= k)%nat))
    /\ pdf_chunks_inserted w material_id page_id pg start chunks t
         (for_enumerate start chunks (insert_chunk_pdf w material_id page_id)
            pg t).
Proof.
  revert start t. induction chunks as [|chunk chunks IH]; intros start t.
  - exists 0%nat, []. simpl. rewrite app_nil_r.
    repeat split; auto. constructor.
  - cbn [for_enumerate]. unfold mbind, M_bind.
    rewrite insert_chunk_pdf_step.
    destruct (sql_query_default_result w
                (QInsertChunk material_id page_id start (sql_literal_pdf chunk))
                pg t) as (r & new1 & E & Hc & _ & Hr).
    rewrite E.
    destruct Hr as [[body ->]|(e & -> & _)].
    + destruct (IH (start + 1) ((t ++ new1) ++ [(pg, EvSleep 0.1)]))
        as (k & new2 & Hk & Hs & Hcalls & Hres & Hrel).
      exists (S k), (new1 ++ [(pg, EvSleep 0.1)] ++ new2).
      split; [simpl; lia|]. split; [|split; [|split]].
      * rewrite Hs, <- !app_assoc. reflexivity.
      * rewrite !calls_of_app, Hc, Hcalls. reflexivity.
      * destruct Hres as [[H1 H2]|(e & H1 & H2)]; [left|right].
        -- split; [exact H1|simpl; lia].
        -- exists e. split; [exact H1|lia].
      * eapply pdf_chunk_accepted; [exact E|].
        rewrite <- app_assoc in Hrel. rewrite <- app_assoc. exact Hrel.
    + exists 1%nat, new1. split; [simpl; lia|]. split; [reflexivity|].
      split; [now rewrite Hc|]. split.
      * right. exists e. split; [reflexivity|lia].
      * eapply pdf_chunk_failed. exact E.
Qed.

(** The chunk loop of the PDF driver sends the inserts in the order of
    the chunks, with [chunk_index] counting up from the start index, each
    followed by a sleep, as long as the inserts are accepted; it stops at
    the first insert that fails, and raises the failure of that insert.
    The statements sent are those of a prefix of the chunks: of all of
    them when the loop returns, and of one chunk at least when it
    raises. *)
Theorem insert_chunks_pdf_in_order (material_id page_id : pystr)
    (chunks : list pystr) (start : Z) (pg : option Z) (t : trace) :
  pdf_chunks_inserted w material_id page_id pg start chunks t
    (for_enumerate start chunks (insert_chunk_pdf w material_id page_id) pg t)
  /\ exists (k : nat) new,
       (k <= length chunks)%nat
       /\ snd (for_enumerate start chunks
                 (insert_chunk_pdf w material_id page_id) pg t) = t ++ new
       /\ calls_of new
          = insert_queries material_id page_id start
              (map sql_literal_pdf (take k chunks))
       /\ ((fst (for_enumerate start chunks
                   (insert_chunk_pdf w material_id page_id) pg t) = Ok tt
            /\ k = length chunks)
           \/ (exists e, fst (for_enumerate start chunks
                                (insert_chunk_pdf w material_id page_id) pg t)
                         = Raise e
                         /\ (1 <= k)%nat)).
Proof.
  destruct (insert_chunks_pdf_loop material_id page_id chunks start pg t)
    as (k & new & Hk & Hs & Hc & Hr & Hrel).
  split; [exact Hrel|]. exists k, new. auto.
Qed.

End VisionAndPdfLoop.


Section PageOrder.

Lemma nondecreasing_cons (a : Z) (l : list Z) :
  Forall (fun b => a <= b) l -> nondecreasing l -> nondecreasing (a :: l).
Proof. destruct l as [|b l]; [easy|]. intros H%Forall_inv Hl. now split. Qed.

Lemma nondecreasing_tail (a : Z) (l : list Z) :
  nondecreasing (a :: l) -> nondecreasing l.
Proof. destruct l as [|b l]; [easy|]. now intros [_ H]. Qed.

Lemma nondecreasing_app (l1 l2 : list Z) :
  nondecreasing l1 -> nondecreasing l2 ->
  (forall a b, a ∈ l1 -> b ∈ l2 -> a <= b) ->
  nondecreasing (l1 ++ l2).
Proof.
  induction l1 as [|a l1 IH]; intros H1 H2 Hle; [exact H2|].
  simpl. apply nondecreasing_cons.
  - apply Forall_app. split.
    + destruct l1 as [|b l1]; [constructor|]. destruct H1 as [Hab H1].
      clear IH Hle. revert a b Hab H1.
      induction l1 as [|c l1 IHl]; intros a b Hab H1.
      * now repeat constructor.
      * destruct H1 as [Hbc H1]. constructor; [exact Hab|].
        apply (IHl a c); [lia|exact H1].
    + apply Forall_forall. intros b Hb. apply Hle; [apply list_elem_of_here|exact Hb].
  - apply IH; [now apply nondecreasing_tail in H1|exact H2|].
    intros x y Hx Hy. apply Hle; [now apply list_elem_of_further|exact Hy].
Qed.

Lemma pages_of_app (t1 t2 : trace) :
  pages_of (t1 ++ t2) = pages_of t1 ++ pages_of t2.
Proof. apply omap_app. Qed.

Lemma pages_of_own (i : Z) (new : trace) :
  Forall (fun ev => fst ev = Some i) new ->
  Forall (fun j => j = i) (pages_of new).
Proof.
  induction 1 as [|[pg e] new Hev _ IH]; [constructor|].
  simpl in Hev. subst pg. unfold pages_of. simpl. now constructor.
Qed.

Lemma nondecreasing_constant (i : Z) (l : list Z) :
  Forall (fun j => j = i) l -> nondecreasing l.
Proof.
  induction 1 as [|a l -> Hl IH]; [exact I|].
  apply nondecreasing_cons; [|exact IH].
  eapply Forall_impl; [exact Hl|]. simpl. intros; lia.
Qed.

(** A loop whose iteration [i] records its events under page [i] records
    them page after page. *)
Lemma for_enumerate_pages {A} (body : Z -> A -> M unit) :
  (forall i x pg t, exists new,
      snd (body i x pg t) = t ++ new
      /\ Forall (fun ev => fst ev = Some i) new) ->
  forall (l : list A) (start : Z) pg t, exists new,
    snd (for_enumerate start l body pg t) = t ++ new
    /\ Forall (fun ev => is_Some (fst ev)) new
    /\ Forall (fun i => start <= i < start + Z.of_nat (length l))
         (pages_of new)
    /\ nondecreasing (pages_of new).
Proof.
  intros Hb l. induction l as [|x l IH]; intros start pg t.
  - exists []. simpl. rewrite app_nil_r. repeat split; constructor.
  - cbn [for_enumerate]. unfold mbind, M_bind.
    destruct (Hb start x pg t) as (new1 & E1 & H1).
    pose proof (pages_of_own _ _ H1) as Hp1.
    assert (Hs1 : Forall (fun ev => is_Some (fst ev)) new1).
    { eapply Forall_impl; [exact H1|]. simpl. intros ev ->. eauto. }
    assert (Hr1 : Forall (fun i => start <= i
                                   < start + Z.of_nat (length (x :: l)))
                    (pages_of new1)).
    { eapply Forall_impl; [exact Hp1|]. simpl. intros; lia. }
    destruct (body start x pg t) as [[[]|e|] t1]; simpl in E1; subst t1;
      try (exists new1; split; [reflexivity|]; split; [exact Hs1|];
           split; [exact Hr1|]; now apply (nondecreasing_constant start)).
    destruct (IH (start + 1) pg (t ++ new1)) as (new2 & E2 & Hs2 & Hr2 & Hn2).
    exists (new1 ++ new2). rewrite E2, app_assoc. split; [reflexivity|].
    split; [now apply Forall_app|]. rewrite pages_of_app. split.
    + apply Forall_app. split; [exact Hr1|].
      eapply Forall_impl; [exact Hr2|]. simpl. intros; lia.
    + apply nondecreasing_app;
        [now apply (nondecreasing_constant start)|exact Hn2|].
      rewrite Forall_forall in Hp1, Hr2. intros a b Ha Hb'.
      rewrite (Hp1 a Ha). specialize (Hr2 b Hb'). lia.
Qed.

(** The pages are processed in ascending order: in both drivers every
    event of the reconciliation loop belongs to a page between 1 and the
    number of inputs, and the events come page after page. *)
Theorem pages_in_ascending_order (w : World) (mat : Material) (fuel : nat)
    (force_pages : gset Z) (chunk_max chunk_overlap : Z) (material_id : pystr)
    (existing_pages : Body) (pg : option Z) (t : trace) :
  (forall images : list Image, exists new,
     snd (reconcile_images w fuel force_pages chunk_max chunk_overlap
            material_id existing_pages images pg t) = t ++ new
     /\ Forall (fun ev => is_Some (fst ev)) new
     /\ Forall (fun i => 1 <= i < 1 + Z.of_nat (length images)) (pages_of new)
     /\ nondecreasing (pages_of new))
  /\ (forall page_texts : list pystr, exists new,
        snd (reconcile_pdf w mat fuel material_id existing_pages page_texts
               pg t) = t ++ new
        /\ Forall (fun ev => is_Some (fst ev)) new
        /\ Forall (fun i => 1 <= i < 1 + Z.of_nat (length page_texts))
             (pages_of new)
        /\ nondecreasing (pages_of new)).
Proof.
  split.
  - intros images. unfold reconcile_images. cbv zeta.
    apply for_enumerate_pages. intros i x pg' t'.
    destruct (page_body_images_events w fuel force_pages chunk_max
                chunk_overlap material_id (index_by_page existing_pages)
                (index_by_uri existing_pages) (Z.of_nat (length images))
                i x pg' t') as (new & E & H).
    exists new. split; [exact E|].
    eapply Forall_impl; [exact H|]. simpl. now intros ev [? _].
  - intros page_texts. unfold reconcile_pdf. cbv zeta.
    apply for_enumerate_pages. intros i x pg' t'.
    destruct (page_body_pdf_events w mat fuel material_id
                (index_by_page existing_pages) i x pg' t') as (new & E & H).
    exists new. split; [exact E|].
    eapply Forall_impl; [exact H|]. simpl. now intros ev [? _].
Qed.

End PageOrder.

Section RepeatRun.
Variable w : World.
Variable mat : Material.
Variable fuel : nat.

Lemma page_body_images_skip (force_pages : gset Z) (chunk_max chunk_overlap : Z)
    (material_id : pystr) (by_page : gmap Z Row) (by_uri : gmap pystr Row)
    (total idx : Z) (img : Image) (pg : option Z) (t : trace) :
  skip_images force_pages by_page by_uri idx (lit "file://" ++ img_posix img)
  = true ->
  exists r new,
    page_body_images w fuel force_pages chunk_max chunk_overlap material_id
      by_page by_uri total idx img pg t
    = (r, t ++ new)
    /\ Forall (fun ev => is_print (snd ev) = true) new
    /\ (stdout_accepts w -> r = Ok tt).
Proof.
  intros Hs. unfold page_body_images, in_page. rewrite Hs.
  unfold mbind, M_bind, print.
  destruct (stdout w t _) eqn:E1.
  { eexists _, []. rewrite app_nil_r. split; [reflexivity|].
    split; [constructor|]. intros H. now rewrite H in E1. }
  destruct (stdout w _ (MsgSkip _ _)) eqn:E2.
  { eexists _, _. split; [reflexivity|].
    split; [now repeat constructor|]. intros H. now rewrite H in E2. }
  eexists _, _. rewrite <- app_assoc. split; [reflexivity|].
  split; [now repeat constructor|reflexivity].
Qed.

Lemma page_body_pdf_skip (material_id : pystr) (by_page : gmap Z Row)
    (idx : Z) (text : pystr) (pg : option Z) (t : trace) :
  has_chunks (by_page !! idx) = true ->
  page_body_pdf w mat fuel material_id by_page idx text pg t = (Ok tt, t).
Proof. intros Hs. unfold page_body_pdf, in_page. now rewrite Hs. Qed.

Lemma reconcile_images_all_skipped (force_pages : gset Z)
    (chunk_max chunk_overlap : Z) (material_id : pystr)
    (by_page : gmap Z Row) (by_uri : gmap pystr Row) (total : Z)
    (images : list Image) (start : Z) (pg : option Z) (t : trace) :
  (forall (k : nat) img, images !! k = Some img ->
     skip_images force_pages by_page by_uri (start + Z.of_nat k)
       (lit "file://" ++ img_posix img) = true) ->
  exists r new,
    for_enumerate start images
      (page_body_images w fuel force_pages chunk_max chunk_overlap material_id
         by_page by_uri total) pg t
    = (r, t ++ new)
    /\ Forall (fun ev => is_print (snd ev) = true) new
    /\ (stdout_accepts w -> r = Ok tt).
Proof.
  revert start t. induction images as [|img images IH]; intros start t Hall.
  - exists (Ok tt), []. rewrite app_nil_r. split; [reflexivity|].
    split; [constructor|reflexivity].
  - cbn [for_enumerate]. unfold mbind, M_bind.
    destruct (page_body_images_skip force_pages chunk_max chunk_overlap
                material_id by_page by_uri total start img pg t)
      as (r1 & new1 & E1 & Hp1 & Hr1).
    { specialize (Hall 0%nat img eq_refl). now rewrite Z.add_0_r in Hall. }
    rewrite E1.
    destruct r1 as [[]|e|]; [|exists (Raise e), new1; auto
                             |exists Diverge, new1; auto].
    destruct (IH (start + 1) (t ++ new1)) as (r2 & new2 & E2 & Hp2 & Hr2).
    { intros k x Hk.
      replace (start + 1 + Z.of_nat k) with (start + Z.of_nat (S k)) by lia.
      now apply Hall. }
    rewrite E2. exists r2, (new1 ++ new2). rewrite <- app_assoc.
    split; [reflexivity|]. split; [now apply Forall_app|exact Hr2].
Qed.

Lemma reconcile_pdf_all_skipped (material_id : pystr) (by_page : gmap Z Row)
    (page_texts : list pystr) (start : Z) (pg : option Z) (t : trace) :
  (forall k : nat, (k < length page_texts)%nat ->
     has_chunks (by_page !! (start + Z.of_nat k)) = true) ->
  for_enumerate start page_texts (page_body_pdf w mat fuel material_id by_page)
    pg t
  = (Ok tt, t).
Proof.
  revert start t. induction page_texts as [|x l IH]; intros start t Hall.
  - reflexivity.
  - cbn [for_enumerate]. unfold mbind, M_bind.
    rewrite page_body_pdf_skip.
    + apply IH. intros k Hk.
      replace (start + 1 + Z.of_nat k) with (start + Z.of_nat (S k)) by lia.
      apply Hall. simpl. lia.
    + specialize (Hall 0%nat ltac:(simpl; lia)). now rewrite Z.add_0_r in Hall.
Qed.

End RepeatRun.

Section RepeatRunClaims.

(** A repeat run changes nothing: when every input page has a stored
    record with chunks (and, in the image driver, none is forced), the
    reconciliation loop makes no OCR call and sends no statement.  The
    image driver only prints, and ends normally when the standard output
    takes its lines; the PDF driver does nothing and ends normally. *)
Theorem repeat_run_is_idle (w : World) (mat : Material) (fuel : nat)
    (material_id : pystr) (existing_pages : Body) (pg : option Z) (t : trace) :
  (forall (force_pages : gset Z) (chunk_max chunk_overlap : Z)
          (images : list Image),
     (forall (k : nat) img, images !! k = Some img ->
        skip_images force_pages (index_by_page existing_pages)
          (index_by_uri existing_pages) (1 + Z.of_nat k)
          (lit "file://" ++ img_posix img) = true) ->
     exists new,
       snd (reconcile_images w fuel force_pages chunk_max chunk_overlap
              material_id existing_pages images pg t)
       = t ++ new
       /\ Forall (fun ev => is_print (snd ev) = true) new
       /\ (stdout_accepts w ->
           reconcile_images w fuel force_pages chunk_max chunk_overlap
             material_id existing_pages images pg t
           = (Ok tt, t ++ new)))
  /\ (forall page_texts : list pystr,
        (forall k : nat, (k < length page_texts)%nat ->
           has_chunks (index_by_page existing_pages !! (1 + Z.of_nat k))
           = true) ->
        reconcile_pdf w mat fuel material_id existing_pages page_texts pg t
        = (Ok tt, t)).
Proof.
  split.
  - intros force_pages chunk_max chunk_overlap images Hall.
    unfold reconcile_images. cbv zeta.
    destruct (reconcile_images_all_skipped w fuel force_pages chunk_max
                chunk_overlap material_id (index_by_page existing_pages)
                (index_by_uri existing_pages) (Z.of_nat (length images))
                images 1 pg t Hall) as (r & new & E & Hp & Hr).
    exists new. rewrite E. split; [reflexivity|]. split; [exact Hp|].
    intros H. now rewrite (Hr H).
  - intros. unfold reconcile_pdf. cbv zeta.
    now apply reconcile_pdf_all_skipped.
Qed.

Lemma repeat_run_is_idle_witness :
  (forall (k : nat) img, [sample_image] !! k = Some img ->
     skip_images ∅ (index_by_page [stored_row]) (index_by_uri [stored_row])
       (1 + Z.of_nat k) (lit "file://" ++ img_posix img) = true)
  /\ (forall k : nat, (k < length [lit "page one"])%nat ->
        has_chunks (index_by_page [stored_row] !! (1 + Z.of_nat k)) = true)
  /\ (exists new,
        snd (reconcile_images rejecting_world 0 ∅ 1200 200 (lit "id-1")
               [stored_row] [sample_image] None [])
        = [] ++ new
        /\ Forall (fun ev => is_print (snd ev) = true) new
        /\ (stdout_accepts rejecting_world ->
            reconcile_images rejecting_world 0 ∅ 1200 200 (lit "id-1")
              [stored_row] [sample_image] None []
            = (Ok tt, [] ++ new)))
  /\ reconcile_pdf rejecting_world sample_material 0 (lit "id-1") [stored_row]
       [lit "page one"] None []
     = (Ok tt, []).
Proof.
  assert (H1 : forall (k : nat) img, [sample_image] !! k = Some img ->
            skip_images ∅ (index_by_page [stored_row])
              (index_by_uri [stored_row]) (1 + Z.of_nat k)
              (lit "file://" ++ img_posix img) = true).
  { intros [|k] img; [|discriminate]. intros [= <-]. vm_compute. reflexivity. }
  assert (H2 : forall k : nat, (k < length [lit "page one"])%nat ->
            has_chunks (index_by_page [stored_row] !! (1 + Z.of_nat k)) = true).
  { intros [|k] Hk; [vm_compute; reflexivity|simpl in Hk; lia]. }
  destruct (repeat_run_is_idle rejecting_world sample_material 0 (lit "id-1")
              [stored_row] None []) as [Hi Hp].
  split; [exact H1|]. split; [exact H2|].
  split; [exact (Hi ∅ 1200 200 [sample_image] H1)|exact (Hp _ H2)].
Defined.

(** The two lines a skipped image gets. *)
Example repeat_run_lines :
  reconcile_images rejecting_world 0 ∅ 1200 200 (lit "id-1")
    [stored_row] [sample_image] None []
  = (Ok tt,
     [(Some 1, EvPrint (MsgOcr 1 1 (lit "IMG_1.jpg")));
      (Some 1, EvPrint (MsgSkip 1 (lit "IMG_1.jpg")))]).
Proof. vm_compute. reflexivity. Qed.

End RepeatRunClaims.

Section Resolve.
Variable w : World.
Variable mat : Material.

Lemma sql_query_default_responded (q : Query) (body : Body) (pg : option Z)
    (t : trace) :
  urlopen w (t ++ [(pg, EvSqlQuery q)]) q = Responded body ->
  sql_query_default w q pg t
  = (Ok (Some body),
     t ++ [(pg, EvSqlQuery q); (pg, EvUrlopen q (Responded body))]).
Proof.
  intros E. unfold sql_query_default, sql_query, mbind, M_bind, emit.
  change (seqZ 0 (5 + 1)) with [0; 1; 2; 3; 4; 5].
  cbn [sql_query_attempts]. unfold mbind, M_bind, do_urlopen. cbv zeta.
  rewrite E. unfold mret, M_ret. now rewrite <- app_assoc.
Qed.

Lemma sends_only_intro {A} (R : Query -> Prop) (m : M A) :
  (forall pg t, exists r new,
      m pg t = (r, t ++ new) /\ Forall R (calls_of new)) ->
  sends_only R m.
Proof.
  intros H pg t. destruct (H pg t) as (r & new & E & Hn).
  exists new. now rewrite E.
Qed.

Lemma sends_only_ret {A} (R : Query -> Prop) (a : A) : sends_only R (mret a).
Proof. intros pg t. exists []. rewrite app_nil_r. now split. Qed.

Lemma sends_only_raise {A} (R : Query -> Prop) (e : exn) :
  sends_only R (@raise A e).
Proof. intros pg t. exists []. rewrite app_nil_r. now split. Qed.

Lemma sends_only_lift {A} (R : Query -> Prop) (o : option A) :
  sends_only R (lift o).
Proof.
  intros pg t. exists []. rewrite app_nil_r. split; [now destruct o|constructor].
Qed.

Lemma sends_only_sleep (R : Query -> Prop) (d : float) :
  sends_only R (sleep d).
Proof.
  intros pg t. unfold sleep. destruct (sleep_error d).
  - exists []. rewrite app_nil_r. now split.
  - exists [(pg, EvSleep d)]. now split.
Qed.

Lemma sends_only_print (R : Query -> Prop) (m : Msg) :
  sends_only R (print w m).
Proof.
  intros pg t. unfold print. destruct (stdout w t m).
  - exists []. rewrite app_nil_r. now split.
  - exists [(pg, EvPrint m)]. now split.
Qed.

Lemma sends_only_bind {A B} (R : Query -> Prop) (m : M A) (f : A -> M B) :
  sends_only R m -> (forall a, sends_only R (f a)) -> sends_only R (m ≫= f).
Proof.
  intros Hm Hf pg t. unfold mbind, M_bind.
  destruct (Hm pg t) as (new1 & E1 & H1).
  destruct (m pg t) as [[a|e|] t1]; simpl in E1; subst t1;
    try (exists new1; now split).
  destruct (Hf a pg (t ++ new1)) as (new2 & E2 & H2).
  exists (new1 ++ new2). rewrite E2, app_assoc. split; [reflexivity|].
  rewrite calls_of_app. now apply Forall_app.
Qed.

Lemma sends_only_try_except {A} (R : Query -> Prop) (body : M A)
    (handler : exn -> M A) :
  sends_only R body -> (forall e, sends_only R (handler e)) ->
  sends_only R (try_except body handler).
Proof.
  intros Hb Hh pg t. unfold try_except.
  destruct (Hb pg t) as (new1 & E1 & H1).
  destruct (body pg t) as [[a|e|] t1]; simpl in E1; subst t1;
    try (exists new1; now split).
  destruct (is_Exception e); [|exists new1; now split].
  destruct (Hh e pg (t ++ new1)) as (new2 & E2 & H2).
  exists (new1 ++ new2). rewrite E2, app_assoc. split; [reflexivity|].
  rewrite calls_of_app. now apply Forall_app.
Qed.

Lemma sends_only_for_enumerate {A} (R : Query -> Prop)
    (body : Z -> A -> M unit) (l : list A) (start : Z) :
  (forall i x, sends_only R (body i x)) ->
  sends_only R (for_enumerate start l body).
Proof.
  intros Hb. revert start. induction l as [|x l IH]; intros start; simpl.
  - apply sends_only_ret.
  - apply sends_only_bind; [apply Hb|]. intros _. apply IH.
Qed.

Lemma sends_only_sql_query_default (R : Query -> Prop) (q : Query) :
  R q -> sends_only R (sql_query_default w q).
Proof.
  intros Hq pg t.
  destruct (sql_query_default_result w q pg t) as (r & new & E & Hc & _).
  exists new. rewrite E, Hc. split; [reflexivity|now repeat constructor].
Qed.

Lemma sends_only_query_rows (R : Query -> Prop) (q : Query) :
  R q -> sends_only R (query_rows w q).
Proof.
  intros Hq. apply sends_only_bind; [now apply sends_only_sql_query_default|].
  intros [body|]; [apply sends_only_ret|apply sends_only_raise].
Qed.

Lemma sends_only_first_id (R : Query -> Prop) (rows : Body) :
  sends_only R (first_id rows).
Proof. destruct rows; [apply sends_only_raise|apply sends_only_ret]. Qed.

(** When the lookup by [source_uri] finds the material, no material is
    inserted. *)
Lemma resolve_known (source_type : pystr) (count : Z) :
  material_known w ->
  sends_only (fun q => is_material_insert q = false)
    (resolve w mat source_type count).
Proof.
  intros Hknown. unfold resolve.
  apply sends_only_bind; [now apply sends_only_query_rows|]. intros subject_res.
  apply sends_only_bind; [apply sends_only_first_id|]. intros subject_id.
  intros pg t. unfold mbind at 1, M_bind at 1. unfold query_rows at 1.
  unfold mbind at 1, M_bind at 1.
  destruct (Hknown (t ++ [(pg, EvSqlQuery (QMaterialSelect (source_uri mat)))])
              (source_uri mat)) as (row & rows & E).
  rewrite (sql_query_default_responded _ _ _ _ E).
  unfold mret at 1, M_ret at 1.
  match goal with
  | |- context [snd (?m pg ?t1)] =>
      assert (Hrest : sends_only (fun q => is_material_insert q = false) m)
  end.
  { apply sends_only_bind; [apply sends_only_first_id|]. intros material_id.
    apply sends_only_bind; [now apply sends_only_query_rows|].
    intros existing_pages. apply sends_only_ret. }
  match goal with
  | |- context [snd (?m pg ?t1)] => destruct (Hrest pg t1) as (new & En & Hn)
  end.
  eexists. rewrite En, <- app_assoc. split; [reflexivity|].
  rewrite calls_of_app. apply Forall_app. split; [now repeat constructor|exact Hn].
Qed.

End Resolve.

Section ResolveClaims.

(** An existing material is reused: when the remote store answers the
    lookup by [source_uri] with a row, resolving the subject and the
    material sends no statement that inserts a material (both drivers). *)
Theorem known_material_not_inserted (w : World) (mat : Material)
    (source_type : pystr) (count : Z) (pg : option Z) (t : trace) :
  material_known w ->
  exists new,
    snd (resolve w mat source_type count pg t) = t ++ new
    /\ Forall (fun q => is_material_insert q = false) (calls_of new).
Proof. intros H. now apply resolve_known. Qed.

Lemma known_material_not_inserted_witness :
  material_known accepting_world
  /\ exists new,
       snd (resolve accepting_world sample_material (lit "image") 1 None [])
       = [] ++ new
       /\ Forall (fun q => is_material_insert q = false) (calls_of new).
Proof.
  assert (H : material_known accepting_world).
  { intros t uri. exists stored_row, []. reflexivity. }
  split; [exact H|].
  exact (known_material_not_inserted accepting_world sample_material
           (lit "image") 1 None [] H).
Defined.

End ResolveClaims.

Section PageStatements.
Variable w : World.
Variable mat : Material.
Variable fuel : nat.

Lemma insert_queries_prefix (material_id page_id : pystr) (literals : list pystr)
    (k : nat) (start : Z) :
  insert_queries material_id page_id start (take k literals)
  `prefix_of` insert_queries material_id page_id start literals.
Proof.
  revert k start. induction literals as [|l ls IH]; intros k start.
  - rewrite take_nil. apply prefix_nil.
  - destruct k; simpl; [apply prefix_nil|]. apply prefix_cons, IH.
Qed.

Lemma pdf_page_statements_aux (material_id : pystr) (by_page : gmap Z Row)
    (idx : Z) (text : pystr) (pg : option Z) (t : trace) :
  exists new page_id,
    snd (page_body_pdf w mat fuel material_id by_page idx text pg t) = t ++ new
    /\ calls_of new
       `prefix_of`
       (QUpsertPage material_id idx (source_uri mat) (sql_literal_pdf text)
        :: QDeleteChunks page_id
        :: insert_queries material_id page_id 1
             (map sql_literal_pdf
                (default [] (chunk_text_pdf fuel text 1200 200))))
    /\ (has_chunks (by_page !! idx) = true -> new = [])
    /\ (has_chunks (by_page !! idx) = false ->
        head (calls_of new)
        = Some (QUpsertPage material_id idx (source_uri mat)
                  (sql_literal_pdf text))).
Proof.
  unfold page_body_pdf, in_page.
  destruct (has_chunks (by_page !! idx)).
  { exists [], []. rewrite app_nil_r. split; [reflexivity|].
    split; [apply prefix_nil|]. split; [reflexivity|discriminate]. }
  change (sleep 0.2) with (emit (EvSleep 0.2)).
  unfold mbind at 1, M_bind at 1. unfold query_rows.
  unfold mbind at 1, M_bind at 1.
  destruct (sql_query_default_result w
              (QUpsertPage material_id idx (source_uri mat)
                 (sql_literal_pdf text)) (Some idx) t)
    as (r & new1 & E & Hc & _ & Hr).
  rewrite E.
  destruct Hr as [[body ->]|(e & -> & _)].
  2:{ exists new1, []. split; [reflexivity|]. rewrite Hc.
      split; [apply prefix_cons, prefix_nil|]. split; [discriminate|reflexivity]. }
  unfold mret at 1, M_ret at 1. cbv beta iota.
  destruct body as [|row rows].
  { exists new1, []. split; [reflexivity|]. rewrite Hc.
    split; [apply prefix_cons, prefix_nil|]. split; [discriminate|reflexivity]. }
  unfold mbind at 1, M_bind at 1. unfold first_id, mret at 1, M_ret at 1.
  cbv beta iota.
  unfold mbind at 1, M_bind at 1.
  destruct (sql_query_default_result w (QDeleteChunks (row_id row)) (Some idx)
              (t ++ new1)) as (r2 & new2 & E2 & Hc2 & _ & Hr2).
  rewrite E2.
  destruct Hr2 as [[body2 ->]|(e2 & -> & _)].
  2:{ exists (new1 ++ new2), (row_id row). rewrite app_assoc.
      split; [reflexivity|]. rewrite calls_of_app, Hc, Hc2.
      split; [apply prefix_cons, prefix_cons, prefix_nil|].
      split; [discriminate|reflexivity]. }
  unfold mbind at 1, M_bind at 1. unfold emit.
  unfold mbind at 1, M_bind at 1.
  destruct (chunk_text_pdf fuel text 1200 200) as [chunks|]; simpl lift.
  2:{ exists (new1 ++ new2 ++ [(Some idx, EvSleep 0.2)]), (row_id row).
      rewrite <- !app_assoc. split; [reflexivity|].
      rewrite !calls_of_app, Hc, Hc2. simpl.
      split; [apply prefix_cons, prefix_cons, prefix_nil|].
      split; [discriminate|reflexivity]. }
  destruct (insert_chunks_pdf_loop w material_id (row_id row) chunks 1
              (Some idx)
              (((t ++ new1) ++ new2) ++ [(Some idx, EvSleep 0.2)]))
    as (k & new3 & _ & E3 & Hc3 & _).
  exists (new1 ++ new2 ++ [(Some idx, EvSleep 0.2)] ++ new3), (row_id row).
  unfold lift. rewrite E3, <- !app_assoc. split; [reflexivity|].
  rewrite !calls_of_app, Hc, Hc2, Hc3. simpl.
  split; [|split; [discriminate|reflexivity]].
  apply prefix_cons, prefix_cons. rewrite <- firstn_map.
  apply insert_queries_prefix.
Qed.

Lemma sends_only_try_except_of {A} (R : Query -> Prop) (caught : exn -> bool)
    (body : M A) (handler : exn -> M A) :
  sends_only R body -> (forall e, sends_only R (handler e)) ->
  sends_only R (try_except_of caught body handler).
Proof.
  intros Hb Hh pg t. unfold try_except_of.
  destruct (Hb pg t) as (new1 & E1 & H1).
  destruct (body pg t) as [[a|e|] t1]; simpl in E1; subst t1;
    try (exists new1; now split).
  destruct (caught e); [|exists new1; now split].
  destruct (Hh e pg (t ++ new1)) as (new2 & E2 & H2).
  exists (new1 ++ new2). rewrite E2, app_assoc. split; [reflexivity|].
  rewrite calls_of_app. now apply Forall_app.
Qed.

Lemma sends_only_subscript (R : Query -> Prop) (value : json) (key : pystr) :
  sends_only R (subscript value key).
Proof.
  destruct value; try apply sends_only_raise. simpl.
  destruct (members_get key members);
    [apply sends_only_ret|apply sends_only_raise].
Qed.

Lemma sends_only_subscript_0 (R : Query -> Prop) (value : json) :
  sends_only R (subscript_0 value).
Proof.
  destruct value as [| | |[|c s]|[|v items]|members];
    first [apply sends_only_raise|apply sends_only_ret].
Qed.

(** [call_vision] sends no statement. *)
Lemma sends_only_call_vision (R : Query -> Prop) (img : Image) :
  sends_only R (call_vision w img).
Proof.
  unfold call_vision.
  apply sends_only_bind.
  { intros pg t. exists []. rewrite app_nil_r. unfold do_read_bytes.
    split; [now destruct (read_bytes w t img)|constructor]. }
  intros _. apply sends_only_bind.
  { apply sends_only_try_except_of; [|intros e; apply sends_only_raise].
    intros pg t. unfold vision_request. cbv zeta.
    exists [(pg, EvVision img (vision w t img))].
    split; [|constructor]. destruct (vision w t img) as [[data|]|f]; reflexivity. }
  intros data. apply sends_only_bind.
  { apply sends_only_try_except_of; [|intros e; apply sends_only_ret].
    apply sends_only_bind; [apply sends_only_subscript|]. intros responses.
    apply sends_only_bind; [apply sends_only_subscript_0|]. intros response.
    apply sends_only_bind; [apply sends_only_subscript|]. intros annotation.
    apply sends_only_subscript. }
  intros text. destruct text; first [apply sends_only_raise|apply sends_only_ret].
Qed.

(** A computation that sends no statement. *)
Lemma silent_run {A} (m : M A) (pg : option Z) (t : trace) :
  sends_only (fun _ => False) m ->
  exists r new, m pg t = (r, t ++ new) /\ calls_of new = [].
Proof.
  intros H. destruct (H pg t) as (new & E & HF).
  exists (fst (m pg t)), new. split.
  - destruct (m pg t) as [r t']. simpl in E. now subst t'.
  - destruct (calls_of new) as [|q l]; [reflexivity|].
    now apply Forall_inv in HF.
Qed.

Lemma sends_only_insert_chunk_images (R : Query -> Prop)
    (material_id page_id : pystr) (idx c_idx : Z) (chunk : pystr) :
  (forall i l, R (QInsertChunk material_id page_id i l)) ->
  sends_only R (insert_chunk_images w fuel material_id page_id idx c_idx chunk).
Proof.
  intros HR. unfold insert_chunk_images.
  apply sends_only_bind; [apply sends_only_lift|]. intros chunk_lit.
  apply sends_only_try_except.
  - apply sends_only_bind; [now apply sends_only_sql_query_default|].
    intros _. apply sends_only_sleep.
  - intros exc. apply sends_only_bind; [apply sends_only_print|]. intros _.
    apply sends_only_bind; [apply sends_only_print|]. intros _.
    destruct (_ && _); [|apply sends_only_ret].
    apply sends_only_try_except; [|intros e; apply sends_only_print].
    apply sends_only_bind; [apply sends_only_lift|]. intros fallback_lit.
    apply sends_only_bind; [now apply sends_only_sql_query_default|].
    intros _. apply sends_only_bind; [apply sends_only_sleep|]. intros _.
    apply sends_only_print.
Qed.

Lemma image_page_statements_aux (force_pages : gset Z)
    (chunk_max chunk_overlap : Z) (material_id : pystr) (by_page : gmap Z Row)
    (by_uri : gmap pystr Row) (total idx : Z) (img : Image) (pg : option Z)
    (t : trace) :
  exists new text_lit page_id inserts,
    snd (page_body_images w fuel force_pages chunk_max chunk_overlap
           material_id by_page by_uri total idx img pg t) = t ++ new
    /\ calls_of new
       `prefix_of`
       (QUpsertPage material_id idx (lit "file://" ++ img_posix img) text_lit
        :: QDeleteChunks page_id :: inserts)
    /\ Forall (fun q => exists i l,
                  q = QInsertChunk material_id page_id i l) inserts.
Proof.
  unfold page_body_images, in_page.
  destruct (skip_images force_pages by_page by_uri idx
              (lit "file://" ++ img_posix img)).
  { destruct (silent_run
                (print w (MsgOcr idx total (img_name img));;
                 print w (MsgSkip idx (img_name img))) (Some idx) t)
      as (r & new & E & Hc).
    { apply sends_only_bind; [apply sends_only_print|].
      intros _. apply sends_only_print. }
    exists new, [], [], []. rewrite E. split; [reflexivity|]. rewrite Hc.
    split; [apply prefix_nil|constructor]. }
  change (sleep 0.3) with (emit (EvSleep 0.3)).
  unfold mbind at 1, M_bind at 1.
  destruct (silent_run (print w (MsgOcr idx total (img_name img))) (Some idx) t
              (sends_only_print w _ _)) as (r0 & n0 & E0 & C0).
  rewrite E0.
  destruct r0 as [[]|e|].
  2,3: (exists n0, [], [], []; split; [reflexivity|]; rewrite C0;
        split; [apply prefix_nil|constructor]).
  unfold mbind at 1, M_bind at 1.
  destruct (silent_run (call_vision w img) (Some idx) (t ++ n0)
              (sends_only_call_vision _ _)) as (rv & n1 & E1 & C1).
  rewrite E1.
  destruct rv as [text|e|].
  2,3: (exists (n0 ++ n1), [], [], []; rewrite <- app_assoc;
        split; [reflexivity|]; rewrite calls_of_app, C0, C1;
        split; [apply prefix_nil|constructor]).
  unfold mbind at 1, M_bind at 1. unfold emit at 1.
  unfold mbind at 1, M_bind at 1.
  set (n2 := [(Some idx, EvSleep 0.3)]).
  assert (Hfront : calls_of (n0 ++ n1 ++ n2) = [])
    by (now rewrite !calls_of_app, C0, C1).
  assert (Et : ((t ++ n0) ++ n1) ++ n2 = t ++ n0 ++ n1 ++ n2)
    by (now rewrite <- !app_assoc).
  rewrite Et. clear Et.
  generalize dependent (n0 ++ n1 ++ n2). intros front Hfront.
  clear E0 C0 E1 C1 n0 n1 n2.
  destruct (sql_literal_images fuel (Some text)) as [text_lit|]; simpl lift.
  2:{ exists front, [], [], []. split; [reflexivity|]. rewrite Hfront.
      split; [apply prefix_nil|constructor]. }
  unfold lift at 1.
  unfold mbind at 1, M_bind at 1. unfold query_rows.
  unfold mbind at 1, M_bind at 1.
  match goal with
  | |- context [sql_query_default w ?q (Some idx) ?t1] =>
      destruct (sql_query_default_result w q (Some idx) t1)
        as (r & new1 & E & Hc & _ & Hr); rewrite E
  end.
  destruct Hr as [[body ->]|(e & -> & _)].
  2:{ eexists _, text_lit, [], []. rewrite <- !app_assoc.
      split; [reflexivity|]. rewrite !calls_of_app, Hfront, Hc. simpl.
      split; [apply prefix_cons, prefix_nil|constructor]. }
  unfold mret at 1, M_ret at 1. cbv beta iota.
  destruct body as [|row rows].
  { eexists _, text_lit, [], []. rewrite <- !app_assoc.
    split; [reflexivity|]. rewrite !calls_of_app, Hfront, Hc. simpl.
    split; [apply prefix_cons, prefix_nil|constructor]. }
  unfold mbind at 1, M_bind at 1. unfold first_id, mret at 1, M_ret at 1.
  cbv beta iota.
  unfold mbind at 1, M_bind at 1.
  match goal with
  | |- context [sql_query_default w ?q (Some idx) ?t1] =>
      destruct (sql_query_default_result w q (Some idx) t1)
        as (r2 & new2 & E2 & Hc2 & _ & Hr2); rewrite E2
  end.
  destruct Hr2 as [[body2 ->]|(e2 & -> & _)].
  2:{ eexists _, text_lit, (row_id row), [].
      rewrite <- !app_assoc. split; [reflexivity|].
      rewrite !calls_of_app, Hfront, Hc, Hc2. simpl.
      split; [apply prefix_cons, prefix_cons, prefix_nil|constructor]. }
  match goal with
  | |- context [snd (?m (Some idx) ?t1)] =>
      assert (Hrest : sends_only
                        (fun q => exists i l,
                           q = QInsertChunk material_id (row_id row) i l) m)
  end.
  { apply sends_only_bind; [apply sends_only_sleep|]. intros _.
    apply sends_only_bind; [apply sends_only_lift|]. intros chunks.
    apply sends_only_for_enumerate. intros i x.
    apply sends_only_insert_chunk_images. eauto. }
  match goal with
  | |- context [snd (?m (Some idx) ?t1)] =>
      destruct (Hrest (Some idx) t1) as (new3 & E3 & H3)
  end.
  rewrite E3.
  eexists _, text_lit, (row_id row), (calls_of new3).
  rewrite <- !app_assoc. split; [reflexivity|].
  rewrite !calls_of_app, Hfront, Hc, Hc2. simpl. split; [reflexivity|exact H3].
Qed.

(** The statements of one PDF page come in a fixed order: whatever the
    remote store answers, the statements sent while a page is processed
    are an initial part of: the upsert of the page (with the literal of
    the page text), the delete of the chunks of one page id, and the
    inserts of the chunks of the page text (1200 characters, overlap
    200) in their order, numbered from 1, under that page id.  A page
    that has chunks already adds nothing to the run: no statement, no
    event at all; for a page that has none the upsert is sent. *)
Theorem pdf_page_statements (material_id : pystr) (by_page : gmap Z Row)
    (idx : Z) (text : pystr) (pg : option Z) (t : trace) :
  exists new page_id,
    snd (page_body_pdf w mat fuel material_id by_page idx text pg t) = t ++ new
    /\ calls_of new
       `prefix_of`
       (QUpsertPage material_id idx (source_uri mat) (sql_literal_pdf text)
        :: QDeleteChunks page_id
        :: insert_queries material_id page_id 1
             (map sql_literal_pdf
                (default [] (chunk_text_pdf fuel text 1200 200))))
    /\ (has_chunks (by_page !! idx) = true -> new = [])
    /\ (has_chunks (by_page !! idx) = false ->
        head (calls_of new)
        = Some (QUpsertPage material_id idx (source_uri mat)
                  (sql_literal_pdf text))).
Proof. apply pdf_page_statements_aux. Qed.

(** The statements of one image come in the same order: the statements
    sent while an image is processed are an initial part of: the upsert
    of the page under the uri [file://] + path of the image, the delete
    of the chunks of one page id, and then only inserts of chunks of this
    material under that page id.  In particular nothing is deleted after
    the first insert, and no other page is written to. *)
Theorem image_page_statements (force_pages : gset Z)
    (chunk_max chunk_overlap : Z) (material_id : pystr) (by_page : gmap Z Row)
    (by_uri : gmap pystr Row) (total idx : Z) (img : Image) (pg : option Z)
    (t : trace) :
  exists new text_lit page_id inserts,
    snd (page_body_images w fuel force_pages chunk_max chunk_overlap
           material_id by_page by_uri total idx img pg t) = t ++ new
    /\ calls_of new
       `prefix_of`
       (QUpsertPage material_id idx (lit "file://" ++ img_posix img) text_lit
        :: QDeleteChunks page_id :: inserts)
    /\ Forall (fun q => exists i l,
                  q = QInsertChunk material_id page_id i l) inserts.
Proof. apply image_page_statements_aux. Qed.

End PageStatements.
